(** * A shallow embedding of the HTTP request layer

    The development follows the two TypeScript modules that make up the
    request layer of the application:

    - [cacheManager.ts]: the TTL cache ([CacheManager]);
    - [httpBase.ts]: the dispatcher ([HttpClient]) with its cancellation
      registry ([cancelTokens]), its session-expiry flag ([isRedirecting])
      and its two axios interceptors.

    How the code is modelled:

    - JavaScript values are the inductive type [JsValue]; numbers are
      integers ([Z], so are times in milliseconds) and strings are sequences
      of one-byte code units.
    - The module-level mutable state of the two modules and the browser's
      [localStorage] are the fields of one record, [State]; the functions
      that touch them live in a small state-and-log monad, [Eff].
    - An [async] method is split at its single [await]: [issue] is the
      synchronous prefix and [resume] the continuation that runs once the
      transport call has settled.  JavaScript runs each of the two to
      completion, so concurrency is the interleaving of such steps ([step],
      [run]); which call settles next, and how, is chosen by the
      environment.
    - The callbacks are opaque: an invocation is recorded in the log, and a
      callback neither throws nor calls back into the module.  The toast,
      the console, the redirect timer and the transport call itself are
      recorded in the log as well.
    - [JSON.parse] belongs to the platform and is a parameter.

    Around them, the code that drives the request layer is modelled as far
    as it touches that state: [clearCache] of [taskListService.ts], the hook
    of [useRequestCancellation.ts] (with the list it tracks passed
    explicitly), the provider of [AuthContext.tsx] (its React state as a
    record, each handler run to completion) and the Redux slice of
    [apiSlice.ts] with the callbacks and selectors of [useReduxApi.ts]. *)

From Stdlib Require Import Ascii.
From stdpp Require Import gmap strings list fin_maps sorting pretty.

Set Warnings "-register-all".

Local Open Scope string_scope.
Local Open Scope list_scope.
Local Open Scope Z_scope.

(** ** JavaScript values *)

Inductive JsValue : Type :=
| JUndefined
| JNull
| JBool (b : bool)
| JNum (n : Z)
| JStr (s : string)
| JArr (xs : list JsValue)
| JObj (props : list (string * JsValue)).

(** Own enumerable properties of an object are kept in creation order; a
    well-formed object has no key twice. *)
Definition wf_props (props : list (string * JsValue)) : Prop := NoDup props.*1.

(** [ToBoolean]: what [if (v)], [!v] and [a || b] look at. *)
Definition truthy (v : JsValue) : bool :=
  match v with
  | JUndefined | JNull => false
  | JBool b => b
  | JNum n => negb (n =? 0)
  | JStr s => negb (String.eqb s "")
  | JArr _ | JObj _ => true
  end.

(** [a || b] *)
Definition js_or (a b : JsValue) : JsValue := if truthy a then a else b.

(** [s || t] on strings. *)
Definition str_or (s t : string) : string := if String.eqb s "" then t else s.

(** *** Property keys and their order *)

Definition digit_of (c : ascii) : option N :=
  let n := N_of_ascii c in
  if ((48 <=? n) && (n <=? 57))%N then Some (n - 48)%N else None.

Fixpoint digits_value (s : string) (acc : N) : option N :=
  match s with
  | EmptyString => Some acc
  | String c s' =>
      match digit_of c with
      | Some d => digits_value s' (10 * acc + d)%N
      | None => None
      end
  end.

(** An array index is the canonical decimal form of an integer in
    [0, 2^32 - 2]. *)
Definition array_index (s : string) : option N :=
  match s with
  | EmptyString => None
  | String "0" EmptyString => Some 0%N
  | String "0" _ => None
  | _ =>
      match digits_value s 0 with
      | Some n => if (n <=? 4294967294)%N then Some n else None
      | None => None
      end
  end.

Definition is_index (s : string) : Prop := is_Some (array_index s).

Definition index_le (a b : string) : Prop :=
  (default 0%N (array_index a) <= default 0%N (array_index b))%N.

Global Instance index_le_dec : RelDecision index_le.
Proof. intros a b. unfold index_le. apply _. Defined.

(** [OrdinaryOwnPropertyKeys]: array indices in ascending numeric order,
    then the other keys in creation order. *)
Definition own_keys (ks : list string) : list string :=
  merge_sort index_le (filter is_index ks)
  ++ filter (fun k => ¬ is_index k) ks.

Fixpoint assoc {A} (k : string) (l : list (string * A)) : option A :=
  match l with
  | [] => None
  | (k', v) :: l' => if String.eqb k k' then Some v else assoc k l'
  end.

Fixpoint assoc_set {A} (k : string) (v : A) (l : list (string * A))
  : list (string * A) :=
  match l with
  | [] => [(k, v)]
  | (k', v') :: l' =>
      if String.eqb k k' then (k, v) :: l' else (k', v') :: assoc_set k v l'
  end.

Definition index_keys (n : nat) : list string :=
  (fun i : nat => pretty (Z.of_nat i)) <$> seq 0 n.

Fixpoint string_chars (s : string) : list string :=
  match s with
  | EmptyString => []
  | String c s' => String c EmptyString :: string_chars s'
  end.

(** [Object.keys(v)] *)
Definition Object_keys (v : JsValue) : list string :=
  match v with
  | JObj props => own_keys props.*1
  | JArr xs => index_keys (length xs)
  | JStr s => index_keys (String.length s)
  | _ => []
  end.

(** [v[key]] for an own property, [undefined] otherwise. *)
Definition js_get (v : JsValue) (key : string) : JsValue :=
  match v with
  | JObj props => default JUndefined (assoc key props)
  | JArr xs =>
      match array_index key with
      | Some i => default JUndefined (xs !! N.to_nat i)
      | None => JUndefined
      end
  | JStr s =>
      match array_index key with
      | Some i => default JUndefined (JStr <$> string_chars s !! N.to_nat i)
      | None => JUndefined
      end
  | _ => JUndefined
  end.

(** [acc[key] = v] on a plain object.  Assigning to ["__proto__"] goes to
    the inherited accessor and creates no own property. *)
Definition js_set (acc : list (string * JsValue)) (key : string) (v : JsValue)
  : list (string * JsValue) :=
  if String.eqb key "__proto__" then acc else assoc_set key v acc.

(** [Array.prototype.sort()] without a comparator, on strings: ascending
    code-unit order. *)
Definition js_sort (ks : list string) : list string := merge_sort String.le ks.

(** *** [JSON.stringify] *)

Definition hex_digit (n : N) : ascii :=
  ascii_of_N (if (n <? 10)%N then 48 + n else 87 + n)%N.

Definition dquote : string := String (ascii_of_N 34) "".

Definition quote_char (c : ascii) : string :=
  let n := N_of_ascii c in
  if (n =? 34)%N then "\" +:+ dquote
  else if (n =? 92)%N then "\\"
  else if (n =? 8)%N then "\b"
  else if (n =? 12)%N then "\f"
  else if (n =? 10)%N then "\n"
  else if (n =? 13)%N then "\r"
  else if (n =? 9)%N then "\t"
  else if (n <? 32)%N then
    "\u00" +:+ String (hex_digit (n / 16)) (String (hex_digit (n mod 16)) "")
  else String c "".

Fixpoint quote_body (s : string) : string :=
  match s with
  | EmptyString => ""
  | String c s' => quote_char c +:+ quote_body s'
  end.

Definition quote (s : string) : string := dquote +:+ quote_body s +:+ dquote.

Fixpoint join (sep : string) (l : list string) : string :=
  match l with
  | [] => ""
  | [x] => x
  | x :: l' => x +:+ sep +:+ join sep l'
  end.

(** Serialised members of an object, put in own-key order. *)
Definition order_members (ms : list (string * option string)) : list string :=
  omap (fun k =>
          match assoc k ms with
          | Some (Some txt) => Some (quote k +:+ ":" +:+ txt)
          | _ => None
          end)
       (own_keys ms.*1).

(** [None] stands for the [undefined] that [JSON.stringify] returns for
    [undefined] itself; inside an object such a member is skipped, inside an
    array it is written as [null]. *)
Fixpoint JSON_stringify (v : JsValue) : option string :=
  match v with
  | JUndefined => None
  | JNull => Some "null"
  | JBool true => Some "true"
  | JBool false => Some "false"
  | JNum n => Some (pretty n)
  | JStr s => Some (quote s)
  | JArr xs =>
      Some ("[" +:+ join "," ((fun x => default "null" (JSON_stringify x)) <$> xs)
                +:+ "]")
  | JObj props =>
      Some ("{" +:+ join ","
                  (order_members
                     ((fun kv : string * JsValue =>
                         (kv.1, JSON_stringify kv.2)) <$> props))
                +:+ "}")
  end.

(** [`${v}`] for the result of [JSON.stringify]. *)
Definition template_of (o : option string) : string := default "undefined" o.

(** ** cacheManager.ts *)

Record CacheEntry : Type := mkCacheEntry {
  data : JsValue;
  timestamp : Z;
  expiresAt : Z;
}.

Module CacheManager.

Definition DEFAULT_TTL : Z := 5 * 60 * 1000.

(** [get(key)]: the returned value and the cache afterwards. *)
Definition get (key : string) (now : Z) (cache : gmap string CacheEntry)
  : JsValue * gmap string CacheEntry :=
  match cache !! key with
  | None => (JNull, cache)
  | Some entry =>
      if expiresAt entry <? now then (JNull, base.delete key cache)
      else (data entry, cache)
  end.

(** [set(key, data, ttl)]; [ttl = None] is the omitted argument. *)
Definition set (key : string) (d : JsValue) (ttl : option Z) (now : Z)
           (cache : gmap string CacheEntry) : gmap string CacheEntry :=
  <[key := {| data := d; timestamp := now;
              expiresAt := now + default DEFAULT_TTL ttl |}]> cache.

Definition has (key : string) (now : Z) (cache : gmap string CacheEntry)
  : bool * gmap string CacheEntry :=
  match cache !! key with
  | None => (false, cache)
  | Some entry =>
      if expiresAt entry <? now then (false, base.delete key cache)
      else (true, cache)
  end.

Definition delete (key : string) (cache : gmap string CacheEntry)
  : gmap string CacheEntry := base.delete key cache.

Definition clear (cache : gmap string CacheEntry) : gmap string CacheEntry := ∅.

Definition clearExpired (now : Z) (cache : gmap string CacheEntry)
  : gmap string CacheEntry :=
  filter (fun kv => ¬ (expiresAt kv.2 < now)) cache.

Definition size (cache : gmap string CacheEntry) : nat := base.size cache.

(** [generateKey(url, params)]; an omitted [params] is [JUndefined]. *)
Definition generateKey (url : string) (params : JsValue) : string :=
  if negb (truthy params) then url
  else
    let sortedParams :=
      fold_left (fun acc key => js_set acc key (js_get params key))
                (js_sort (Object_keys params)) [] in
    url +:+ ":" +:+ template_of (JSON_stringify (JObj sortedParams)).

End CacheManager.

(** [`${v}`], [ToString]: [None] is the [TypeError] raised for an object
    whose own [toString] property is not callable. *)
Fixpoint js_toString (v : JsValue) : option string :=
  match v with
  | JUndefined => Some "undefined"
  | JNull => Some "null"
  | JBool true => Some "true"
  | JBool false => Some "false"
  | JNum n => Some (pretty n)
  | JStr s => Some s
  | JArr xs =>
      join "," <$>
        (fix elems (l : list JsValue) : option (list string) :=
           match l with
           | [] => Some []
           | x :: l' =>
               match
                 match x with
                 | JUndefined | JNull => Some ""
                 | _ => js_toString x
                 end, elems l'
               with
               | Some t, Some ts => Some (t :: ts)
               | _, _ => None
               end
           end) xs
  | JObj props =>
      match assoc "toString" props with
      | Some _ => None
      | None => Some "[object Object]"
      end
  end.

(** ** httpBase.ts: data *)

Module AxiosResponse.
Record t : Type := mk { status : Z; data : JsValue }.
End AxiosResponse.

Module AxiosError.
Record t : Type := mk { message : string; response : option AxiosResponse.t }.
End AxiosError.

(** What the [catch] block of a dispatcher method can receive. *)
Inductive Thrown : Type :=
| Cancel (message : string)          (* [axios.isCancel(error)] *)
| AxiosErr (e : AxiosError.t)        (* [axios.isAxiosError(error)] *)
| OtherErr (message : JsValue).      (* anything else; its [message] property *)

(** How the awaited transport call settles. *)
Inductive Outcome : Type :=
| Resolved (d : JsValue)
| Rejected (e : Thrown).

Module ApiError.
Record t : Type := mk {
  message : JsValue;
  status : option Z;
  data : JsValue;
}.
End ApiError.

(** The callbacks are opaque to the dispatcher: only whether each one was
    supplied matters; an invocation is recorded as an [Event]. *)
Record ApiCallbacks : Type := mkCallbacks {
  onSuccess : bool;
  onError : bool;
  onFinally : bool;
}.

Record CacheOptions : Type := mkCacheOptions {
  key : string;
  ttl : option Z;
  bypass : bool;
}.

Record RequestOptions : Type := mkRequestOptions {
  cache : option CacheOptions;
  requestId : option string;
  params : JsValue;
  headers : gmap string string;
}.

Inductive Method : Type := GET | POST | PUT | DELETE.

Definition verb (m : Method) : string :=
  match m with
  | GET => "get" | POST => "post" | PUT => "put" | DELETE => "delete"
  end.

(** How a dispatcher call ends for its caller. *)
Inductive Completion : Type :=
| Returns (d : JsValue)
| ThrowsCancel (message : string)
| ThrowsApiError (e : ApiError.t).

(** Everything a call does that is visible outside the module.  Calls are
    numbered by the cancel-token source they create. *)
Inductive Event : Type :=
| ConsoleLog (msg : string)
| ConsoleError (msg : string)
| CallOnSuccess (call : nat) (d : JsValue)
| CallOnError (call : nat) (e : ApiError.t)
| CallOnFinally (call : nat)
| Transport (call : nat) (m : Method) (url : string) (body : JsValue)
            (hdrs : gmap string string)
| Completed (call : nat) (r : Completion)
| StorageRemoveItem (k : string)
| ToastDismiss
| ToastError (msg : string)
| CancelledAll
| SetTimeout (ms : Z) (href : string).

(** A call suspended at its [await]. *)
Record Call : Type := mkCall {
  call_method : Method;
  call_url : string;
  call_config : option RequestOptions;
  call_callbacks : option ApiCallbacks;
  call_requestId : string;
}.

(** Module state of [httpBase.ts] and [cacheManager.ts], and the browser's
    [localStorage]. *)
Record State : Type := mkState {
  cancelTokens : gmap string nat;
  cancelled : gset nat;
  nextSource : nat;
  isRedirecting : bool;
  localStorage : gmap string string;
  cacheManager : gmap string CacheEntry;
  inflight : gmap nat Call;
}.

Definition set_cancelTokens (f : gmap string nat → gmap string nat) (st : State) :=
  mkState (f (cancelTokens st)) (cancelled st) (nextSource st) (isRedirecting st)
          (localStorage st) (cacheManager st) (inflight st).
Definition set_cancelled (f : gset nat → gset nat) (st : State) :=
  mkState (cancelTokens st) (f (cancelled st)) (nextSource st) (isRedirecting st)
          (localStorage st) (cacheManager st) (inflight st).
Definition set_nextSource (n : nat) (st : State) :=
  mkState (cancelTokens st) (cancelled st) n (isRedirecting st)
          (localStorage st) (cacheManager st) (inflight st).
Definition set_isRedirecting (b : bool) (st : State) :=
  mkState (cancelTokens st) (cancelled st) (nextSource st) b
          (localStorage st) (cacheManager st) (inflight st).
Definition set_localStorage (f : gmap string string → gmap string string) (st : State) :=
  mkState (cancelTokens st) (cancelled st) (nextSource st) (isRedirecting st)
          (f (localStorage st)) (cacheManager st) (inflight st).
Definition set_cacheManager (f : gmap string CacheEntry → gmap string CacheEntry)
           (st : State) :=
  mkState (cancelTokens st) (cancelled st) (nextSource st) (isRedirecting st)
          (localStorage st) (f (cacheManager st)) (inflight st).
Definition set_inflight (f : gmap nat Call → gmap nat Call) (st : State) :=
  mkState (cancelTokens st) (cancelled st) (nextSource st) (isRedirecting st)
          (localStorage st) (cacheManager st) (f (inflight st)).

(** The state when the module has just been loaded. *)
Definition initial (ls : gmap string string) : State :=
  mkState ∅ ∅ 0 false ls ∅ ∅.

(** *** Effects: state passing with a log of events *)

Definition Eff (A : Type) : Type := State → A * State * list Event.

Definition ret {A} (a : A) : Eff A := fun st => (a, st, []).

Definition bind {A B} (m : Eff A) (k : A → Eff B) : Eff B :=
  fun st =>
    let '(a, st1, e1) := m st in
    let '(b, st2, e2) := k a st1 in
    (b, st2, e1 ++ e2).

Definition emit (e : Event) : Eff unit := fun st => (tt, st, [e]).
Definition gets {A} (f : State → A) : Eff A := fun st => (f st, st, []).
Definition modify (f : State → State) : Eff unit := fun st => (tt, f st, []).
Definition when (b : bool) (m : Eff unit) : Eff unit := if b then m else ret tt.

Notation "'let*' x := m 'in' k" := (bind m (fun x => k))
  (at level 10, x name, m at level 100, k at level 200).
Notation "m ;; k" := (bind m (fun _ => k))
  (at level 100, k at level 200, right associativity).

(** ** httpBase.ts: the [HttpClient] class *)

Definition supplied (callbacks : option ApiCallbacks) (f : ApiCallbacks → bool)
  : bool :=
  match callbacks with Some cbs => f cbs | None => false end.

(** [config?.cache && !config.cache.bypass], on a read. *)
Definition cache_directive (m : Method) (config : option RequestOptions)
  : option (RequestOptions * CacheOptions) :=
  match m, config with
  | GET, Some cfg =>
      match cache cfg with
      | Some c => if bypass c then None else Some (cfg, c)
      | None => None
      end
  | _, _ => None
  end.

(** [config.cache.key || cacheManager.generateKey(url, config.params)] *)
Definition cacheKey_of (url : string) (cfg : RequestOptions) (c : CacheOptions)
  : string :=
  str_or (key c) (CacheManager.generateKey url (params cfg)).

(** [config?.requestId || `${verb}:${url}:${Date.now()}`] *)
Definition requestId_of (m : Method) (url : string)
           (config : option RequestOptions) (now : Z) : string :=
  str_or (default "" (config ≫= requestId))
         (verb m +:+ ":" +:+ url +:+ ":" +:+ pretty now).

Definition default_headers : gmap string string :=
  {[ "Content-Type" := "application/json"; "Accept" := "application/json" ]}.

Definition headers_of (config : option RequestOptions) : gmap string string :=
  match config with
  | Some cfg => headers cfg ∪ default_headers
  | None => default_headers
  end.

Definition body_of (m : Method) (body : JsValue) : JsValue :=
  match m with POST | PUT => body | GET | DELETE => JUndefined end.

Definition status_of (error : Thrown) : option Z :=
  match error with
  | AxiosErr e => AxiosResponse.status <$> AxiosError.response e
  | _ => None
  end.

(** [handleError(error)] *)
Definition handleError (error : Thrown) : ApiError.t :=
  match error with
  | AxiosErr axiosError =>
      let responseData :=
        match AxiosError.response axiosError with
        | Some r => AxiosResponse.data r
        | None => JUndefined
        end in
      {| ApiError.message :=
           js_or (js_or (js_get responseData "detail")
                        (JStr (AxiosError.message axiosError)))
                 (JStr "An error occurred");
         ApiError.status := AxiosResponse.status <$> AxiosError.response axiosError;
         ApiError.data := responseData |}
  | OtherErr msg =>
      {| ApiError.message := js_or msg (JStr "An unknown error occurred");
         ApiError.status := None;
         ApiError.data := JUndefined |}
  | Cancel msg =>
      {| ApiError.message := js_or (JStr msg) (JStr "An unknown error occurred");
         ApiError.status := None;
         ApiError.data := JUndefined |}
  end.

(** [cancelRequest(requestId)] *)
Definition cancelRequest (requestId : string) : Eff unit :=
  let* cancelTokenSource := gets (fun st => cancelTokens st !! requestId) in
  match cancelTokenSource with
  | Some h =>
      modify (set_cancelled (union {[h]})) ;;
      modify (set_cancelTokens (delete requestId))
  | None => ret tt
  end.

(** [clearActiveRequests()]: every registered source is cancelled and
    dropped. *)
Definition clearActiveRequests : Eff unit :=
  let* tokens := gets cancelTokens in
  modify (set_cancelled (union (map_img tokens))) ;;
  modify (set_cancelTokens (fun _ => ∅)) ;;
  emit CancelledAll.

(** [clearCache(key?)] *)
Definition clearCache (k : option string) : Eff unit :=
  match k with
  | Some k' =>
      if String.eqb k' "" then modify (set_cacheManager CacheManager.clear)
      else modify (set_cacheManager (CacheManager.delete k'))
  | None => modify (set_cacheManager CacheManager.clear)
  end.

(** [resetRedirectFlag()] *)
Definition resetRedirectFlag : Eff unit := modify (set_isRedirecting false).

Definition login_href (tenantSlug : option string) : string :=
  match tenantSlug with
  | Some slug => if String.eqb slug "" then "/" else "/" +:+ slug +:+ "/login"
  | None => "/"
  end.

(** The rejection handler of the response interceptor; the error is
    rejected again unchanged. *)
Definition responseRejected (error : Thrown) : Eff unit :=
  let* redirecting := gets isRedirecting in
  if bool_decide (status_of error = Some 401) && negb redirecting then
    modify (set_isRedirecting true) ;;
    modify (set_localStorage (delete "nepali_user")) ;;
    emit (StorageRemoveItem "nepali_user") ;;
    emit ToastDismiss ;;
    emit (ToastError "🔒 Token expired. Please login again.") ;;
    let* tenantSlug := gets (fun st => localStorage st !! "nepali_app_client") in
    clearActiveRequests ;;
    emit (SetTimeout 100 (login_href tenantSlug))
  else ret tt.

Section WithJSON.

(** [JSON.parse] of the platform; [None] is a thrown [SyntaxError]. *)
Variable JSON_parse : string → option JsValue.

Definition parse_failure : Event := ConsoleError "Failed to parse user data:".

(** The request interceptor: the headers the call goes out with. *)
Definition requestInterceptor (hdrs : gmap string string)
  : Eff (gmap string string) :=
  let* userData := gets (fun st => localStorage st !! "nepali_user") in
  match userData with
  | None => ret hdrs
  | Some userData =>
      if String.eqb userData "" then ret hdrs
      else
        match JSON_parse userData with
        | None => emit parse_failure ;; ret hdrs
        | Some JNull | Some JUndefined => emit parse_failure ;; ret hdrs
        | Some user =>
            if truthy (js_get user "token") && truthy (js_get user "tokenType")
            then
              match js_toString (js_get user "tokenType"),
                    js_toString (js_get user "token") with
              | Some tokenType, Some token =>
                  ret (<["Authorization" := tokenType +:+ " " +:+ token]> hdrs)
              | _, _ => emit parse_failure ;; ret hdrs
              end
            else ret hdrs
        end
  end.

(** [this.client.<verb>(url, ..., requestConfig)] up to the point where the
    caller is suspended. *)
Definition send (h : nat) (m : Method) (url : string) (body : JsValue)
           (config : option RequestOptions) (callbacks : option ApiCallbacks)
           (requestId : string) : Eff unit :=
  let* hdrs := requestInterceptor (headers_of config) in
  emit (Transport h m url (body_of m body) hdrs) ;;
  modify (set_inflight (insert h (mkCall m url config callbacks requestId))).

(** [get], [post], [put], [delete] from their first line to the [await] (or
    to the [return] of the cache shortcut).  The four bodies differ in the
    verb and in the two cache blocks, which only [get] has. *)
Definition issue (m : Method) (url : string) (body : JsValue)
           (config : option RequestOptions) (callbacks : option ApiCallbacks)
           (now : Z) : Eff unit :=
  let requestId := requestId_of m url config now in
  cancelRequest requestId ;;
  let* h := gets nextSource in
  modify (set_nextSource (S h)) ;;
  modify (set_cancelTokens (insert requestId h)) ;;
  match cache_directive m config with
  | Some (cfg, c) =>
      let cacheKey := cacheKey_of url cfg c in
      let* cachedData :=
        (fun st =>
           let '(v, cache') := CacheManager.get cacheKey now (cacheManager st) in
           (v, set_cacheManager (fun _ => cache') st, [])) in
      if truthy cachedData then
        emit (ConsoleLog ("Cache hit for " +:+ cacheKey)) ;;
        modify (set_cancelTokens (delete requestId)) ;;
        when (supplied callbacks onSuccess) (emit (CallOnSuccess h cachedData)) ;;
        when (supplied callbacks onFinally) (emit (CallOnFinally h)) ;;
        emit (Completed h (Returns cachedData))
      else send h m url body config callbacks requestId
  | None => send h m url body config callbacks requestId
  end.

End WithJSON.

(** The rest of the method body, from the [await] on. *)
Definition resume (h : nat) (call : Call) (o : Outcome) (now : Z) : Eff unit :=
  let callbacks := call_callbacks call in
  match o with
  | Resolved d =>
      match cache_directive (call_method call) (call_config call) with
      | Some (cfg, c) =>
          modify (set_cacheManager
                    (CacheManager.set (cacheKey_of (call_url call) cfg c) d (ttl c) now))
      | None => ret tt
      end ;;
      modify (set_cancelTokens (delete (call_requestId call))) ;;
      when (supplied callbacks onSuccess) (emit (CallOnSuccess h d)) ;;
      when (supplied callbacks onFinally) (emit (CallOnFinally h)) ;;
      emit (Completed h (Returns d))
  | Rejected error =>
      responseRejected error ;;
      match error with
      | Cancel msg =>
          emit (ConsoleLog ("Request cancelled: " +:+ msg)) ;;
          when (supplied callbacks onFinally) (emit (CallOnFinally h)) ;;
          emit (Completed h (ThrowsCancel msg))
      | _ =>
          let apiError := handleError error in
          when (supplied callbacks onError) (emit (CallOnError h apiError)) ;;
          when (supplied callbacks onFinally) (emit (CallOnFinally h)) ;;
          emit (Completed h (ThrowsApiError apiError))
      end
  end.

(** *** The module as a transition system *)

Inductive Action : Type :=
| Issue (m : Method) (url : string) (body : JsValue)
        (config : option RequestOptions) (callbacks : option ApiCallbacks) (now : Z)
| Settle (call : nat) (o : Outcome) (now : Z)
| CancelRequest (requestId : string)
| ClearActiveRequests
| ClearCache (k : option string)
| ResetRedirectFlag
| StorageSetItem (k v : string).

Definition exec (m : Eff unit) (st : State) : option (State * list Event) :=
  let '(_, st', evs) := m st in Some (st', evs).

Section Machine.

Variable JSON_parse : string → option JsValue.

(** One uninterrupted turn of the event loop.  [Settle] is enabled only for
    a call that is suspended. *)
Definition step (a : Action) (st : State) : option (State * list Event) :=
  match a with
  | Issue m url body config callbacks now =>
      exec (issue JSON_parse m url body config callbacks now) st
  | Settle h o now =>
      match inflight st !! h with
      | Some call =>
          exec (modify (set_inflight (delete h)) ;; resume h call o now) st
      | None => None
      end
  | CancelRequest requestId => exec (cancelRequest requestId) st
  | ClearActiveRequests => exec clearActiveRequests st
  | ClearCache k => exec (clearCache k) st
  | ResetRedirectFlag => exec resetRedirectFlag st
  | StorageSetItem k v => exec (modify (set_localStorage (insert k v))) st
  end.

Fixpoint run (acts : list Action) (st : State) : option (State * list Event) :=
  match acts with
  | [] => Some (st, [])
  | a :: acts' =>
      match step a st with
      | Some (st1, e1) =>
          match run acts' st1 with
          | Some (st2, e2) => Some (st2, e1 ++ e2)
          | None => None
          end
      | None => None
      end
  end.

End Machine.

(** ** Vocabulary for the statements *)

Definition count (p : Event → bool) (evs : list Event) : nat :=
  length (List.filter p evs).

(** The three steps of the session teardown, as they show in the log. *)
Definition is_credential_removal (e : Event) : bool :=
  match e with StorageRemoveItem k => String.eqb k "nepali_user" | _ => false end.
Definition is_cancel_all (e : Event) : bool :=
  match e with CancelledAll => true | _ => false end.
Definition is_redirect_timer (e : Event) : bool :=
  match e with SetTimeout _ _ => true | _ => false end.

(** The two operations that only code outside the dispatcher invokes on its
    own initiative: the reset after a login and the bulk cancellation. *)
Definition is_external_control (a : Action) : bool :=
  match a with ResetRedirectFlag | ClearActiveRequests => true | _ => false end.

(** A suspended call whose transport call is rejected with status 401. *)
Definition fails_with_401 (a : Action) : bool :=
  match a with
  | Settle _ (Rejected e) _ => bool_decide (status_of e = Some 401)
  | _ => false
  end.

Arguments handleError : simpl never.

(** The events that belong to call [c]. *)
Definition tagged (c : nat) (e : Event) : bool :=
  match e with
  | CallOnSuccess c' _ | CallOnError c' _ | CallOnFinally c'
  | Transport c' _ _ _ _ | Completed c' _ => Nat.eqb c' c
  | _ => false
  end.

Definition events_of (c : nat) (evs : list Event) : list Event :=
  List.filter (tagged c) evs.

Definition is_onSuccess (c : nat) (e : Event) : bool :=
  match e with CallOnSuccess c' _ => Nat.eqb c' c | _ => false end.
Definition is_onError (c : nat) (e : Event) : bool :=
  match e with CallOnError c' _ => Nat.eqb c' c | _ => false end.
Definition is_onFinally (c : nat) (e : Event) : bool :=
  match e with CallOnFinally c' => Nat.eqb c' c | _ => false end.
Definition is_transport (c : nat) (e : Event) : bool :=
  match e with Transport c' _ _ _ _ => Nat.eqb c' c | _ => false end.
Definition is_cancelled_completion (c : nat) (e : Event) : bool :=
  match e with Completed c' (ThrowsCancel _) => Nat.eqb c' c | _ => false end.

(** Suspended calls were numbered before the next source to be created. *)
Definition inflight_below (st : State) : Prop :=
  ∀ c, is_Some (inflight st !! c) → (c < nextSource st)%nat.

(** The action is the settlement of call [c]. *)
Definition settles (c : nat) (a : Action) : bool :=
  match a with Settle c' _ _ => Nat.eqb c' c | _ => false end.

Definition is_cancel (e : Thrown) : bool :=
  match e with Cancel _ => true | _ => false end.

Definition notify (b : bool) (e : Event) : list Event := if b then [e] else [].

(** What call [c] adds to the log when it settles with [o]; a cache hit adds
    what a resolved transport call would. *)
Definition settle_trace (c : nat) (callbacks : option ApiCallbacks) (o : Outcome)
  : list Event :=
  match o with
  | Resolved d =>
      notify (supplied callbacks onSuccess) (CallOnSuccess c d)
      ++ notify (supplied callbacks onFinally) (CallOnFinally c)
      ++ [Completed c (Returns d)]
  | Rejected (Cancel msg) =>
      notify (supplied callbacks onFinally) (CallOnFinally c)
      ++ [Completed c (ThrowsCancel msg)]
  | Rejected error =>
      notify (supplied callbacks onError) (CallOnError c (handleError error))
      ++ notify (supplied callbacks onFinally) (CallOnFinally c)
      ++ [Completed c (ThrowsApiError (handleError error))]
  end.

(** The normalized error as the description words it: the server-provided
    detail if present, else the message of the transport error, else a
    generic fallback; the HTTP status and the body when a response exists. *)
Definition response_of (e : Thrown) : option AxiosResponse.t :=
  match e with AxiosErr axiosError => AxiosError.response axiosError | _ => None end.

Definition server_detail (e : Thrown) : JsValue :=
  match response_of e with
  | Some r => js_get (AxiosResponse.data r) "detail"
  | None => JUndefined
  end.

Definition transport_message (e : Thrown) : JsValue :=
  match e with
  | AxiosErr axiosError => JStr (AxiosError.message axiosError)
  | OtherErr msg => msg
  | Cancel msg => JStr msg
  end.

Definition generic_fallback (e : Thrown) : string :=
  match e with
  | AxiosErr _ => "An error occurred"
  | _ => "An unknown error occurred"
  end.

Definition described_message (e : Thrown) : JsValue :=
  if truthy (server_detail e) then server_detail e
  else if truthy (transport_message e) then transport_message e
  else JStr (generic_fallback e).

(** The headers a call goes out with, given the stored credential record. *)
Definition outgoing_headers (JSON_parse : string → option JsValue)
           (ls : gmap string string) (hdrs : gmap string string)
  : gmap string string :=
  (requestInterceptor JSON_parse hdrs (initial ls)).1.1.

(** ** The transport's contract and the registry discipline *)

(** axios settles a call whose cancel token has been cancelled with the
    cancellation. *)
Definition axios_contract (a : Action) (st : State) : bool :=
  match a with
  | Settle c o _ =>
      if bool_decide (c ∈ cancelled st)
      then match o with Rejected (Cancel _) => true | _ => false end
      else true
  | _ => true
  end.

(** [run], with every settlement checked against the contract. *)
Fixpoint run_axios (JSON_parse : string → option JsValue) (acts : list Action)
         (st : State) : option (State * list Event) :=
  match acts with
  | [] => Some (st, [])
  | a :: acts' =>
      if axios_contract a st then
        match step JSON_parse a st with
        | Some (st1, e1) =>
            match run_axios JSON_parse acts' st1 with
            | Some (st2, e2) => Some (st2, e1 ++ e2)
            | None => None
            end
        | None => None
        end
      else None
  end.

(** The registry discipline, on the four fields it concerns. *)
Record view_ok (toks : gmap string nat) (canc : gset nat) (nxt : nat)
       (infl : gmap nat Call) : Prop := mk_view_ok {
  registered_live : ∀ id h, toks !! id = Some h → h ∉ canc;
  registered_once : ∀ id1 id2 h,
    toks !! id1 = Some h → toks !! id2 = Some h → id1 = id2;
  registered_below : ∀ id h, toks !! id = Some h → (h < nxt)%nat;
  cancelled_below : ∀ h, h ∈ canc → (h < nxt)%nat;
  inflight_registered : ∀ c call,
    infl !! c = Some call → c ∉ canc → toks !! call_requestId call = Some c;
  inflight_numbered : ∀ c, is_Some (infl !! c) → (c < nxt)%nat;
}.

Definition registry_ok (st : State) : Prop :=
  view_ok (cancelTokens st) (cancelled st) (nextSource st) (inflight st).

(** [cancelled] after [cancelRequest(id)]. *)
Definition cancel_prior (id : string) (toks : gmap string nat) (canc : gset nat)
  : gset nat :=
  match toks !! id with Some h => {[h]} ∪ canc | None => canc end.

(** ** Sample data for the worked scenarios *)

(** A stand-in for [JSON.parse] that rejects every input. *)
Definition no_parse : string → option JsValue := fun _ => None.

Definition all_callbacks : option ApiCallbacks := Some (mkCallbacks true true true).

Definition list_request : option RequestOptions :=
  Some (mkRequestOptions None (Some "list:123") JUndefined ∅).

Definition count_request : option RequestOptions :=
  Some (mkRequestOptions (Some (mkCacheOptions "/count" (Some 60000) false))
                         None JUndefined ∅).

Definition token_expired : Thrown :=
  AxiosErr (AxiosError.mk "Request failed with status code 401"
              (Some (AxiosResponse.mk 401 (JObj [("detail", JStr "token expired")])))).

Definition signed_in : gmap string string :=
  {[ "nepali_user" := "session"; "nepali_app_client" := "acme" ]}.

(** A read re-issued under the same identifier before the first settles. *)
Definition superseded_read : list Action :=
  [ Issue GET "/tasks" JUndefined list_request all_callbacks 1000;
    Issue GET "/tasks" JUndefined list_request all_callbacks 1001;
    Settle 0 (Rejected (Cancel "Request list:123 cancelled")) 1002;
    Settle 1 (Resolved (JArr [])) 1003 ].

Definition failed_write : list Action :=
  [ Issue POST "/tasks" (JObj [("title", JStr "x")]) None all_callbacks 1000;
    Settle 0 (Rejected token_expired) 1050 ].

(** Three calls in flight together, each answered with status 401. *)
Definition three_unauthorized : list Action :=
  [ Issue GET "/tasks" JUndefined None all_callbacks 1000;
    Issue POST "/tasks" JNull None all_callbacks 1001;
    Issue DELETE "/tasks/7" JUndefined None all_callbacks 1002;
    Settle 0 (Rejected token_expired) 1050;
    Settle 1 (Rejected token_expired) 1051;
    Settle 2 (Rejected token_expired) 1052 ].

Definition sample_user : JsValue :=
  JObj [("id", JNum 7); ("token", JStr "abc123"); ("tokenType", JStr "Bearer")].

Definition sample_record : string := template_of (JSON_stringify sample_user).

(** A stand-in for [JSON.parse] that knows the sample record and rejects
    everything else. *)
Definition sample_parse (s : string) : option JsValue :=
  if String.eqb s sample_record then Some sample_user else None.

(** ** The rest of the request layer and its callers *)

(** *** cacheManager.ts: [keys] *)

(** [keys()].  The JavaScript [Map] lists its keys in insertion order, which
    the finite map does not record; the callers modelled below are shown not
    to depend on the order. *)
Definition CacheManager_keys (cache : gmap string CacheEntry) : list string :=
  (map_to_list cache).*1.

(** *** taskListService.ts: [TaskListServiceWithCache.clearCache] *)

Module TaskListService.

(** [allKeys.forEach(key => { if (key.startsWith('taskList:'))
    cacheManager.delete(key) })] *)
Definition deleteTaskListKeys (allKeys : list string)
           (cache : gmap string CacheEntry) : gmap string CacheEntry :=
  fold_left
    (fun c k => if String.prefix "taskList:" k then CacheManager.delete k c else c)
    allKeys cache.

(** [clearCache(cacheKey?)] *)
Definition clearCache (cacheKey : option string) (cache : gmap string CacheEntry)
  : gmap string CacheEntry :=
  if String.eqb (default "" cacheKey) "" then
    deleteTaskListKeys (CacheManager_keys cache) cache
  else CacheManager.delete (default "" cacheKey) cache.

End TaskListService.

(** *** useRequestCancellation.ts *)

(** The hook keeps the identifiers it tracks in [requestIdsRef.current]; the
    functions below take that list and return it as they leave it.  The
    effect that replaces the list by the hook's argument when the argument
    changes is not modelled. *)
Module RequestCancellation.

(** [ids.forEach(requestId => httpClient.cancelRequest(requestId))] *)
Fixpoint cancelEach (ids : list string) : Eff unit :=
  match ids with
  | [] => ret tt
  | requestId :: ids' => cancelRequest requestId ;; cancelEach ids'
  end.

(** [generateRequestId(prefix)]: the new identifier and the tracked list
    afterwards.  [random] is the outcome of
    [Math.random().toString(36).substring(2, 9)]. *)
Definition generateRequestId (prefix : string) (now : Z) (random : string)
           (requestIds : list string) : string * list string :=
  let id := prefix +:+ ":" +:+ pretty now +:+ ":" +:+ random in
  (id, requestIds ++ [id]).

(** [cancelRequest(requestId)] of the hook: the tracked list afterwards. *)
Definition cancelRequest (requestId : string) (requestIds : list string)
  : Eff (list string) :=
  cancelRequest requestId ;;
  ret (List.filter (fun id => negb (String.eqb id requestId)) requestIds).

(** [cancelAllRequests()] *)
Definition cancelAllRequests (requestIds : list string) : Eff (list string) :=
  cancelEach requestIds ;; ret [].

(** The clean-up that runs when the component unmounts. *)
Definition unmount (requestIds : list string) : Eff unit := cancelEach requestIds.

End RequestCancellation.

(** *** apiSlice.ts and useReduxApi.ts *)

(** The members a plain object inherits from [Object.prototype]. *)
Definition Object_prototype_names : list string :=
  [ "constructor"; "hasOwnProperty"; "isPrototypeOf"; "propertyIsEnumerable";
    "toLocaleString"; "toString"; "valueOf"; "__proto__";
    "__defineGetter__"; "__defineSetter__"; "__lookupGetter__"; "__lookupSetter__" ].

(** A slice key for which [record[key]] reads and writes an own property. *)
Definition plain_key (k : string) : Prop := k ∉ Object_prototype_names.

Module ApiSlice.

(** The three records of the slice, by their own properties. *)
Record t : Type := mk {
  loading : gmap string bool;
  errors : gmap string JsValue;
  data : gmap string JsValue;
}.

Definition initialState : t := mk ∅ ∅ ∅.

(** [record[key] = v]: under ["__proto__"] the assignment reaches the
    inherited accessor and creates no own property (what it does to the
    prototype when [v] is an object or [null] is not modelled). *)
Definition assign {A} (k : string) (v : A) (record : gmap string A)
  : gmap string A :=
  if String.eqb k "__proto__" then record else <[k:=v]> record.

(** [record[key]]: the own property, else [undefined]; [None] when the key
    names an inherited member, whose value is not a [JsValue]. *)
Definition read {A} (inj : A → JsValue) (record : gmap string A) (k : string)
  : option JsValue :=
  match record !! k with
  | Some v => Some (inj v)
  | None =>
      if bool_decide (k ∈ Object_prototype_names) then None else Some JUndefined
  end.

Definition setLoading (k : string) (b : bool) (s : t) : t :=
  mk (assign k b (loading s)) (errors s) (data s).

Definition setError (k : string) (e : JsValue) (s : t) : t :=
  mk (loading s) (assign k e (errors s)) (data s).

Definition setData (k : string) (d : JsValue) (s : t) : t :=
  mk (loading s) (errors s) (assign k d (data s)).

Definition clearApiState (k : string) (s : t) : t :=
  mk (delete k (loading s)) (delete k (errors s)) (delete k (data s)).

Definition resetApiState (s : t) : t := mk ∅ ∅ ∅.

End ApiSlice.

Module ReduxApi.

(** The three callbacks of [createApiCallbacks(key)], as what they dispatch. *)
Definition onSuccess (k : string) (d : JsValue) (s : ApiSlice.t) : ApiSlice.t :=
  ApiSlice.setError k JNull (ApiSlice.setData k d s).

Definition onError (k : string) (error : ApiError.t) (s : ApiSlice.t) : ApiSlice.t :=
  ApiSlice.setError k (ApiError.message error) s.

Definition onFinally (k : string) (s : ApiSlice.t) : ApiSlice.t :=
  ApiSlice.setLoading k false s.

(** [createApiCallbacks(key)] always supplies all three. *)
Definition createApiCallbacks : option ApiCallbacks :=
  Some (mkCallbacks true true true).

Definition startLoading (k : string) (s : ApiSlice.t) : ApiSlice.t :=
  ApiSlice.setLoading k true s.

(** [apiState.loading[key] || false] *)
Definition isLoading (k : string) (s : ApiSlice.t) : option JsValue :=
  (fun v => js_or v (JBool false)) <$> ApiSlice.read JBool (ApiSlice.loading s) k.

(** [apiState.errors[key] || null] *)
Definition getError (k : string) (s : ApiSlice.t) : option JsValue :=
  (fun v => js_or v JNull) <$> ApiSlice.read id (ApiSlice.errors s) k.

(** [apiState.data[key] || null] *)
Definition getData (k : string) (s : ApiSlice.t) : option JsValue :=
  (fun v => js_or v JNull) <$> ApiSlice.read id (ApiSlice.data s) k.

(** What an entry of the dispatcher's log does to the store when the call was
    made with [createApiCallbacks(key)]: the dispatcher invokes the callback,
    the callback dispatches. *)
Definition deliver (k : string) (s : ApiSlice.t) (e : Event) : ApiSlice.t :=
  match e with
  | CallOnSuccess _ d => onSuccess k d s
  | CallOnError _ error => onError k error s
  | CallOnFinally _ => onFinally k s
  | _ => s
  end.

(** The store after the callbacks of call [c] have run. *)
Definition after_call (k : string) (c : nat) (evs : list Event) (s : ApiSlice.t)
  : ApiSlice.t :=
  fold_left (deliver k) (events_of c evs) s.

End ReduxApi.

(** *** AuthContext.tsx *)

Module AuthContext.

(** The three pieces of React state of [AuthProvider]; [JNull] is [null]. *)
Record t : Type := mk {
  user : JsValue;
  tenantSlug : JsValue;
  isAuthenticated : bool;
}.

Definition initialState : t := mk JNull JNull false.

Section WithPlatform.

Variable JSON_parse : string → option JsValue.

(** [import.meta.env.VITE_DEFAULT_TENANT_SLUG] *)
Variable defaultTenantSlug : option string.

(** The effect that runs on mount. *)
Definition mount (a : t) : Eff t :=
  let* storedUser := gets (fun st => localStorage st !! "nepali_user") in
  let* stored := gets (fun st => localStorage st !! "nepali_app_client") in
  let storedTenantSlug :=
    match stored with Some s => Some s | None => defaultTenantSlug end in
  let* a1 :=
    match storedUser with
    | None => ret a
    | Some storedUser =>
        if String.eqb storedUser "" then ret a
        else
          match JSON_parse storedUser with
          | Some userData => ret (mk userData (tenantSlug a) true)
          | None =>
              emit parse_failure ;;
              modify (set_localStorage (delete "nepali_user")) ;;
              emit (StorageRemoveItem "nepali_user") ;;
              ret (mk (user a) (tenantSlug a) false)
          end
    end in
  match storedTenantSlug with
  | Some s =>
      if String.eqb s "" then ret a1
      else ret (mk (user a1) (JStr s) (isAuthenticated a1))
  | None => ret a1
  end.

End WithPlatform.

(** [login(userData)]; the flag is [false] when the function throws (a
    [TypeError]) part-way. *)
Definition login (userData : JsValue) (a : t) : Eff (t * bool) :=
  let a1 := mk userData (tenantSlug a) true in
  modify (set_localStorage
            (insert "nepali_user" (template_of (JSON_stringify userData)))) ;;
  match userData with
  | JNull | JUndefined => ret (a1, false)
  | _ =>
      let slug := js_get userData "tenantSlug" in
      if truthy slug then
        let a2 := mk userData slug true in
        match js_toString slug with
        | Some s =>
            modify (set_localStorage (insert "nepali_app_client" s)) ;;
            resetRedirectFlag ;;
            ret (a2, true)
        | None => ret (a2, false)
        end
      else resetRedirectFlag ;; ret (a1, true)
  end.

(** [logout()] *)
Definition logout (a : t) : Eff t :=
  modify (set_localStorage (delete "nepali_user")) ;;
  emit (StorageRemoveItem "nepali_user") ;;
  ret (mk JNull (tenantSlug a) false).

(** [setTenantSlug(slug)] as the provider exposes it ([updateTenantSlug]). *)
Definition updateTenantSlug (slug : string) (a : t) : Eff t :=
  modify (set_localStorage (insert "nepali_app_client" slug)) ;;
  ret (mk (user a) (JStr slug) (isAuthenticated a)).

End AuthContext.

(** *** More vocabulary for the statements *)

Definition is_reset (a : Action) : bool :=
  match a with ResetRedirectFlag => true | _ => false end.

(** The identifier a dispatcher method makes up when the caller gives none. *)
Definition default_requestId (m : Method) (url : string) (now : Z) : string :=
  verb m +:+ ":" +:+ url +:+ ":" +:+ pretty now.

(** *** Proof automation *)

Ltac unfold_ops :=
  unfold step, exec, issue, send, resume, responseRejected,
    clearActiveRequests, cancelRequest, clearCache, resetRedirectFlag,
    when, bind, ret, emit, gets, modify,
    set_cancelTokens, set_cancelled, set_nextSource, set_isRedirecting,
    set_localStorage, set_cacheManager, set_inflight in *.

(** * Properties *)

(** ** Helper lemmas: association lists, key order, strings *)

Lemma assoc_Some {A} (k : string) (v : A) (l : list (string * A)) :
  NoDup l.*1 → assoc k l = Some v ↔ (k, v) ∈ l.
Proof.
  induction l as [|[k' v'] l IH]; simpl; intros Hnd.
  - split; [discriminate | intros H; inversion H].
  - apply NoDup_cons in Hnd as [Hk' Hnd]. specialize (IH Hnd).
    destruct (String.eqb_spec k k') as [->|Hne].
    + split.
      * intros [= ->]. left.
      * intros [[= ->]|Hin]%elem_of_cons; [done|].
        exfalso. apply Hk'. apply list_elem_of_fmap. by exists (k', v).
    + rewrite IH. split.
      * intros ?. by right.
      * intros [[= ? ?]|Hin]%elem_of_cons; [congruence | done].
Qed.

Lemma assoc_Permutation {A} (k : string) (l1 l2 : list (string * A)) :
  NoDup l1.*1 → l1 ≡ₚ l2 → assoc k l1 = assoc k l2.
Proof.
  intros Hnd Hp.
  assert (Hnd2 : NoDup l2.*1) by (by rewrite <- Hp).
  apply option_eq. intros v.
  rewrite !assoc_Some by done. by rewrite Hp.
Qed.

Lemma own_keys_Permutation (ks : list string) : own_keys ks ≡ₚ ks.
Proof.
  unfold own_keys. rewrite merge_sort_Permutation. apply filter_app_complement.
Qed.

Lemma js_sort_Permutation (ks1 ks2 : list string) :
  ks1 ≡ₚ ks2 → js_sort ks1 = js_sort ks2.
Proof.
  intros Hp. unfold js_sort.
  apply (Sorted_unique String.le).
  - apply (Sorted_merge_sort String.le).
  - apply (Sorted_merge_sort String.le).
  - by rewrite !merge_sort_Permutation.
Qed.

Lemma fold_left_ext_keys {A B} (f g : A → B → A) (l : list B) (a : A) :
  (∀ x y, f x y = g x y) → fold_left f l a = fold_left g l a.
Proof.
  intros Hfg. revert a. induction l as [|y l IH]; simpl; intros a; [done|].
  by rewrite Hfg, IH.
Qed.



(** ** The response cache *)

(** C3, as the code has it: an entry stored at time [s] with TTL [t] is
    returned by every [get] up to and including time [s + t], and the first
    [get] strictly after [s + t] returns [null] and removes the entry. *)
Theorem cache_ttl_window (k : string) (v : JsValue) (t s n : Z)
        (cache : gmap string CacheEntry) :
  let stored := CacheManager.set k v (Some t) s cache in
  (n ≤ s + t → CacheManager.get k n stored = (v, stored))
  ∧ (s + t < n → CacheManager.get k n stored = (JNull, delete k cache)).
Proof.
  simpl. unfold CacheManager.get, CacheManager.set.
  rewrite lookup_insert_eq. simpl. split; intros Hn.
  - destruct (Z.ltb_spec (s + t) n); [lia | done].
  - destruct (Z.ltb_spec (s + t) n); [| lia]. by rewrite delete_insert_eq.
Qed.

(** The window at a stored task: served at 5999, dropped at 6001. *)
Lemma cache_ttl_window_witness :
  let stored := CacheManager.set "/tasks/7" (JObj [("id", JNum 7)]) (Some 1000) 5000 ∅ in
  (5999 ≤ 5000 + 1000
   ∧ CacheManager.get "/tasks/7" 5999 stored = (JObj [("id", JNum 7)], stored))
  ∧ (5000 + 1000 < 6001
     ∧ CacheManager.get "/tasks/7" 6001 stored = (JNull, delete "/tasks/7" ∅)).
Proof.
  simpl. split; split; try lia.
  - apply (cache_ttl_window "/tasks/7" (JObj [("id", JNum 7)]) 1000 5000 5999 ∅). lia.
  - apply (cache_ttl_window "/tasks/7" (JObj [("id", JNum 7)]) 1000 5000 6001 ∅). lia.
Defined.

(** C3, counterexample to the claim as stated: at the instant [s + t] itself
    (here [5000 + 1000 = 6000]) [get] still returns the stored value and
    leaves the entry in the cache. *)
Lemma cache_entry_returned_at_expiry_instant :
  let stored := CacheManager.set "/tasks/7" (JObj [("id", JNum 7)]) (Some 1000) 5000 ∅ in
  6000 >= 5000 + 1000
  ∧ CacheManager.get "/tasks/7" 6000 stored = (JObj [("id", JNum 7)], stored)
  ∧ CacheManager.get "/tasks/7" 6000 stored ≠ (JNull, delete "/tasks/7" stored).
Proof.
  simpl. split; [lia|].
  assert (H : CacheManager.get "/tasks/7" 6000
                (CacheManager.set "/tasks/7" (JObj [("id", JNum 7)]) (Some 1000) 5000 ∅)
              = (JObj [("id", JNum 7)],
                 CacheManager.set "/tasks/7" (JObj [("id", JNum 7)]) (Some 1000) 5000 ∅)).
  { unfold CacheManager.get, CacheManager.set. by rewrite lookup_insert_eq. }
  split; [exact H|]. rewrite H. intros [= ?].
Qed.

(** C6: [generateKey] gives the same key for two parameter objects that hold
    the same properties in different insertion orders, and the bare URL when
    the parameters are absent. *)
Theorem generateKey_order_independent (url : string)
        (props1 props2 : list (string * JsValue)) :
  wf_props props1 →
  props1 ≡ₚ props2 →
  CacheManager.generateKey url (JObj props1) = CacheManager.generateKey url (JObj props2)
  ∧ CacheManager.generateKey url JUndefined = url.
Proof.
  intros Hwf Hp. split; [|done].
  unfold CacheManager.generateKey. simpl.
  assert (Hkeys : js_sort (own_keys props1.*1) = js_sort (own_keys props2.*1)).
  { apply js_sort_Permutation. rewrite !own_keys_Permutation. by rewrite Hp. }
  rewrite Hkeys.
  rewrite (fold_left_ext_keys
             (fun acc key => js_set acc key (default JUndefined (assoc key props1)))
             (fun acc key => js_set acc key (default JUndefined (assoc key props2)))).
  - done.
  - intros acc key. by rewrite (assoc_Permutation key props1 props2).
Qed.

(** Four parameters, two of them array indices, in two insertion orders. *)
Lemma generateKey_order_independent_witness :
  CacheManager.generateKey "/tasks"
    (JObj [("page", JNum 2); ("limit", JNum 10); ("10", JStr "x"); ("9", JNull)])
  = CacheManager.generateKey "/tasks"
      (JObj [("9", JNull); ("limit", JNum 10); ("10", JStr "x"); ("page", JNum 2)])
  ∧ CacheManager.generateKey "/tasks" JUndefined = "/tasks".
Proof.
  apply generateKey_order_independent.
  - unfold wf_props. apply (bool_decide_unpack _). by vm_compute.
  - simpl.
    change [("9", JNull); ("limit", JNum 10); ("10", JStr "x"); ("page", JNum 2)]
      with ([("9", JNull); ("limit", JNum 10); ("10", JStr "x")] ++ [("page", JNum 2)]).
    rewrite <- Permutation_cons_append. apply perm_skip.
    change [("9", JNull); ("limit", JNum 10); ("10", JStr "x")]
      with ([("9", JNull)] ++ ("limit", JNum 10) :: [("10", JStr "x")]).
    rewrite <- Permutation_middle. apply perm_skip. apply perm_swap.
Defined.


(** ** The dispatcher: how one step shows in the log *)

(** The request interceptor never changes the state, reads it only through
    [localStorage], and logs at most the parse failure. *)
Lemma requestInterceptor_spec JSON_parse hdrs st :
  ∃ evs,
    requestInterceptor JSON_parse hdrs st
    = (outgoing_headers JSON_parse (localStorage st) hdrs, st, evs)
    ∧ (evs = [] ∨ evs = [parse_failure]).
Proof.
  unfold outgoing_headers, requestInterceptor, bind, gets, ret, emit. simpl.
  repeat case_match; simplify_eq; eauto.
Qed.

Ltac use_interceptor :=
  repeat match goal with
  | H : context [requestInterceptor ?P ?h ?s] |- _ =>
      let evs := fresh "ievs" in
      let E := fresh "Hic" in
      let Hev := fresh "Hiev" in
      destruct (requestInterceptor_spec P h s) as (evs & E & Hev);
      rewrite E in H; clear E
  end.

Ltac crunch H :=
  unfold_ops; simpl in H;
  repeat (first [progress use_interceptor | case_match]; simpl in * );
  simplify_eq; simpl.

Ltac split_ievs :=
  repeat match goal with
  | H : _ = [] ∨ _ = [parse_failure] |- _ => destruct H as [->| ->]
  end.

Ltac tag_neq c :=
  repeat match goal with
  | |- context [Nat.eqb ?x c] =>
      let E := fresh in
      assert (E : Nat.eqb x c = false)
        by (apply Nat.eqb_neq; first [lia | congruence]);
      rewrite E; clear E
  end.

Ltac use_supplied :=
  repeat match goal with H : supplied _ _ = _ |- _ => rewrite H end.

Lemma count_app (p : Event → bool) (l1 l2 : list Event) :
  count p (l1 ++ l2) = (count p l1 + count p l2)%nat.
Proof. unfold count. by rewrite List.filter_app, length_app. Qed.

Lemma events_of_app (c : nat) (l1 l2 : list Event) :
  events_of c (l1 ++ l2) = events_of c l1 ++ events_of c l2.
Proof. unfold events_of. apply List.filter_app. Qed.

Lemma count_events_of (p : Event → bool) (c : nat) (evs : list Event) :
  (∀ e, p e = true → tagged c e = true) →
  count p (events_of c evs) = count p evs.
Proof.
  intros Hp. unfold count, events_of.
  induction evs as [|e evs IH]; simpl; [done|].
  destruct (tagged c e) eqn:Ht; simpl.
  - destruct (p e); simpl; by rewrite IH.
  - destruct (p e) eqn:He; [|done]. apply Hp in He. congruence.
Qed.

Lemma elem_of_events_of (c : nat) (e : Event) (evs : list Event) :
  tagged c e = true → e ∈ evs → e ∈ events_of c evs.
Proof.
  intros Ht Hin. unfold events_of. apply list_elem_of_In, List.filter_In.
  split; [by apply list_elem_of_In | done].
Qed.

Lemma step_below JSON_parse a st st' evs :
  inflight_below st → step JSON_parse a st = Some (st', evs) →
  inflight_below st' ∧ (nextSource st ≤ nextSource st')%nat.
Proof.
  intros Hinv Hs. destruct st as [toks canc nxt flag ls cm infl].
  unfold inflight_below in *. simpl in *.
  destruct a; crunch Hs; (split; [|lia]); intros c' Hc';
    first [ apply Hinv in Hc'; lia
          | apply lookup_insert_is_Some in Hc' as [->|[? Hc']];
            [lia|apply Hinv in Hc'; lia]
          | apply lookup_delete_is_Some in Hc' as [? Hc']; apply Hinv in Hc'; lia ].
Qed.

(** A call that is no longer (or not yet) suspended leaves no mark, and its
    settlement is not enabled. *)
Lemma step_absent JSON_parse a st st' evs c :
  (c < nextSource st)%nat → inflight st !! c = None →
  step JSON_parse a st = Some (st', evs) →
  events_of c evs = [] ∧ inflight st' !! c = None ∧ settles c a = false.
Proof.
  intros Hc Hnone Hs. destruct st as [toks canc nxt flag ls cm infl].
  simpl in *.
  destruct a; crunch Hs; split_ievs; unfold events_of, notify; simpl;
    tag_neq c; simpl;
    rewrite ?lookup_insert_ne, ?lookup_delete_ne by (first [lia | congruence]);
    repeat split; try done; try (apply Nat.eqb_neq; congruence);
    try (by apply lookup_delete_None; right).
Qed.

(** Steps of other calls do not touch a suspended call. *)
Lemma step_other JSON_parse a st st' evs c call :
  inflight_below st → inflight st !! c = Some call → settles c a = false →
  step JSON_parse a st = Some (st', evs) →
  events_of c evs = [] ∧ inflight st' !! c = Some call.
Proof.
  intros Hinv Hc Ha Hs. pose proof (Hinv c (mk_is_Some _ _ Hc)) as Hlt.
  destruct st as [toks canc nxt flag ls cm infl]. simpl in *.
  destruct a; simpl in Ha; try apply Nat.eqb_neq in Ha;
    crunch Hs; split_ievs; unfold events_of, notify; simpl;
    tag_neq c; simpl;
    rewrite ?lookup_insert_ne, ?lookup_delete_ne by (first [lia | congruence]);
    by repeat split.
Qed.

Lemma step_settle JSON_parse st st' evs c call o now :
  inflight st !! c = Some call →
  step JSON_parse (Settle c o now) st = Some (st', evs) →
  events_of c evs = settle_trace c (call_callbacks call) o
  ∧ inflight st' !! c = None.
Proof.
  intros Hc Hs. destruct st as [toks canc nxt flag ls cm infl]. simpl in *.
  unfold step in Hs. simpl in Hs. rewrite Hc in Hs.
  crunch Hs; unfold events_of, settle_trace, notify; simpl;
    use_supplied; simpl;
    rewrite ?Nat.eqb_refl, ?lookup_delete_eq; by repeat split.
Qed.

Lemma step_issue JSON_parse st st' evs m url body config callbacks now :
  inflight_below st →
  step JSON_parse (Issue m url body config callbacks now) st = Some (st', evs) →
  let c := nextSource st in
  (∃ hdrs,
      events_of c evs = [Transport c m url (body_of m body) hdrs]
      ∧ inflight st' !! c
        = Some (mkCall m url config callbacks (requestId_of m url config now)))
  ∨ (∃ d,
        events_of c evs = settle_trace c callbacks (Resolved d)
        ∧ inflight st' !! c = None).
Proof.
  intros Hinv Hs.
  assert (Hfresh : inflight st !! nextSource st = None).
  { destruct (inflight st !! nextSource st) eqn:E; [|done].
    pose proof (Hinv _ (mk_is_Some _ _ E)). lia. }
  destruct st as [toks canc nxt flag ls cm infl]. simpl in *.
  crunch Hs; split_ievs; unfold events_of, settle_trace, notify; simpl;
    use_supplied; simpl;
    rewrite ?Nat.eqb_refl, ?lookup_insert_eq;
    first [ by left; eexists | by right; eexists ].
Qed.

Lemma run_below JSON_parse acts st st' evs :
  inflight_below st → run JSON_parse acts st = Some (st', evs) →
  inflight_below st' ∧ (nextSource st ≤ nextSource st')%nat.
Proof.
  revert st evs. induction acts as [|a acts IH]; simpl; intros st evs Hinv Hrun.
  - by simplify_eq.
  - destruct (step JSON_parse a st) as [[st1 e1]|] eqn:Hstep; [|done].
    destruct (run JSON_parse acts st1) as [[st2 e2]|] eqn:Hrest; [|done].
    simplify_eq.
    destruct (step_below _ _ _ _ _ Hinv Hstep) as [Hinv1 Hle1].
    destruct (IH _ _ Hinv1 Hrest) as [Hinv2 Hle2]. split; [done | lia].
Qed.

Lemma run_absent JSON_parse acts st st' evs c :
  (c < nextSource st)%nat → inflight st !! c = None →
  run JSON_parse acts st = Some (st', evs) →
  events_of c evs = [] ∧ inflight st' !! c = None
  ∧ Forall (fun a => settles c a = false) acts.
Proof.
  revert st evs. induction acts as [|a acts IH]; simpl; intros st evs Hc Hnone Hrun.
  - by simplify_eq.
  - destruct (step JSON_parse a st) as [[st1 e1]|] eqn:Hstep; [|done].
    destruct (run JSON_parse acts st1) as [[st2 e2]|] eqn:Hrest; [|done].
    simplify_eq.
    destruct (step_absent _ _ _ _ _ _ Hc Hnone Hstep) as (He1 & Hn1 & Ha).
    assert (Hc1 : (c < nextSource st1)%nat).
    { clear -Hc Hstep. destruct st as [toks canc nxt flag ls cm infl].
      simpl in *. destruct a; crunch Hstep; lia. }
    destruct (IH _ _ Hc1 Hn1 Hrest) as (He2 & Hn2 & Hall).
    rewrite events_of_app, He1, He2. by split_and!; [..|constructor].
Qed.

(** The whole contribution of a suspended call to the rest of a run: nothing
    while it stays suspended, and [settle_trace] for the one settlement that
    the run can contain. *)
Lemma run_inflight JSON_parse acts st st' evs c call :
  inflight_below st → inflight st !! c = Some call →
  run JSON_parse acts st = Some (st', evs) →
  (Forall (fun a => settles c a = false) acts
   ∧ events_of c evs = [] ∧ inflight st' !! c = Some call)
  ∨ (∃ o now,
        Settle c o now ∈ acts
        ∧ (∀ o' now', Settle c o' now' ∈ acts → o' = o)
        ∧ events_of c evs = settle_trace c (call_callbacks call) o
        ∧ inflight st' !! c = None).
Proof.
  revert st evs. induction acts as [|a acts IH]; simpl; intros st evs Hinv Hc Hrun.
  - simplify_eq. left. by split_and!.
  - destruct (step JSON_parse a st) as [[st1 e1]|] eqn:Hstep; [|done].
    destruct (run JSON_parse acts st1) as [[st2 e2]|] eqn:Hrest; [|done].
    simplify_eq.
    destruct (step_below _ _ _ _ _ Hinv Hstep) as [Hinv1 Hle1].
    pose proof (Hinv c (mk_is_Some _ _ Hc)) as Hlt.
    destruct (settles c a) eqn:Ha.
    + destruct a as [| c' o now | | | | |]; try discriminate Ha.
      simpl in Ha. apply Nat.eqb_eq in Ha as ->.
      destruct (step_settle _ _ _ _ _ _ _ _ Hc Hstep) as [He1 Hn1].
      assert (Hlt1 : (c < nextSource st1)%nat) by lia.
      destruct (run_absent _ _ _ _ _ c Hlt1 Hn1 Hrest) as (He2 & Hn2 & Hall).
      right. exists o, now. rewrite events_of_app, He1, He2, app_nil_r.
      split_and!; [by left | | done | done].
      intros o' now' [[= -> ->]|Hin]%elem_of_cons; [done|].
      rewrite Forall_forall in Hall. apply Hall in Hin.
      simpl in Hin. by rewrite Nat.eqb_refl in Hin.
    + destruct (step_other _ _ _ _ _ _ _ Hinv Hc Ha Hstep) as [He1 Hc1].
      destruct (IH _ _ Hinv1 Hc1 Hrest) as [(Hall & He2 & Hc2)|(o & now & Hin & Huniq & He2 & Hn2)].
      * left. rewrite events_of_app, He1, He2. split_and!; [|done..].
        by constructor.
      * right. exists o, now. rewrite events_of_app, He1, He2.
        split_and!; [by right | | done | done].
        intros o' now' [Heq|Hin']%elem_of_cons; [|by eapply Huniq].
        subst a. simpl in Ha. by rewrite Nat.eqb_refl in Ha.
Qed.

(** The log of one call, from its first line to the end of a run. *)
Lemma run_call JSON_parse m url body config callbacks now rest st st' evs :
  inflight_below st →
  run JSON_parse (Issue m url body config callbacks now :: rest) st = Some (st', evs) →
  let c := nextSource st in
  (∃ hdrs,
      events_of c evs = [Transport c m url (body_of m body) hdrs]
      ∧ Forall (fun a => settles c a = false) rest)
  ∨ (∃ hdrs o now',
        Settle c o now' ∈ rest
        ∧ (∀ o' now'', Settle c o' now'' ∈ rest → o' = o)
        ∧ events_of c evs
          = Transport c m url (body_of m body) hdrs :: settle_trace c callbacks o)
  ∨ (∃ d,
        events_of c evs = settle_trace c callbacks (Resolved d)
        ∧ Forall (fun a => settles c a = false) rest).
Proof.
  intros Hinv Hrun. cbn [run] in Hrun.
  destruct (step JSON_parse (Issue m url body config callbacks now) st)
    as [[st1 e1]|] eqn:Hstep; [|done].
  destruct (run JSON_parse rest st1) as [[st2 e2]|] eqn:Hrest; [|done].
  simplify_eq. simpl.
  destruct (step_below _ _ _ _ _ Hinv Hstep) as [Hinv1 Hle1].
  assert (Hnext : nextSource st1 = S (nextSource st)).
  { clear -Hstep. destruct st as [toks canc nxt flag ls cm infl]. simpl in *.
    crunch Hstep; done. }
  rewrite events_of_app.
  destruct (step_issue _ _ _ _ _ _ _ _ _ _ Hinv Hstep)
    as [(hdrs & He1 & Hc1)|(d & He1 & Hn1)].
  - destruct (run_inflight _ _ _ _ _ _ _ Hinv1 Hc1 Hrest)
      as [(Hall & He2 & _)|(o & now' & Hin & Huniq & He2 & _)].
    + left. exists hdrs. by rewrite He1, He2.
    + right. left. exists hdrs, o, now'. by rewrite He1, He2.
  - assert (Hlt1 : (nextSource st < nextSource st1)%nat) by lia.
    destruct (run_absent _ _ _ _ _ (nextSource st) Hlt1 Hn1 Hrest)
      as (He2 & _ & Hall).
    right. right. exists d. by rewrite He1, He2, app_nil_r.
Qed.

(** ** Session expiry *)

(** Outside [resetRedirectFlag] and the external bulk cancellation, a step
    performs each teardown action exactly when it raises the flag. *)
Lemma step_teardown JSON_parse a st st' evs :
  is_external_control a = false →
  step JSON_parse a st = Some (st', evs) →
  (Nat.b2n (isRedirecting st) + count is_credential_removal evs
   = Nat.b2n (isRedirecting st')
   ∧ Nat.b2n (isRedirecting st) + count is_cancel_all evs
     = Nat.b2n (isRedirecting st')
   ∧ Nat.b2n (isRedirecting st) + count is_redirect_timer evs
     = Nat.b2n (isRedirecting st'))%nat.
Proof.
  intros Ha Hs. destruct st as [toks canc nxt flag ls cm infl].
  destruct a; try discriminate Ha;
    crunch Hs; split_ievs; rewrite ?Nat.add_0_r; try done;
    destruct flag; simpl in *; try done;
    by rewrite andb_false_r in *.
Qed.

Lemma run_teardown JSON_parse acts st st' evs :
  Forall (fun a => is_external_control a = false) acts →
  run JSON_parse acts st = Some (st', evs) →
  (Nat.b2n (isRedirecting st) + count is_credential_removal evs
   = Nat.b2n (isRedirecting st')
   ∧ Nat.b2n (isRedirecting st) + count is_cancel_all evs
     = Nat.b2n (isRedirecting st')
   ∧ Nat.b2n (isRedirecting st) + count is_redirect_timer evs
     = Nat.b2n (isRedirecting st'))%nat.
Proof.
  intros Hacts. revert st evs.
  induction Hacts as [|a acts Ha _ IH]; simpl; intros st evs Hrun.
  - simplify_eq. unfold count. simpl. lia.
  - destruct (step JSON_parse a st) as [[st1 e1]|] eqn:Hstep; [|done].
    destruct (run JSON_parse acts st1) as [[st2 e2]|] eqn:Hrest; [|done].
    simplify_eq.
    destruct (step_teardown _ _ _ _ _ Ha Hstep) as (H1 & H2 & H3).
    destruct (IH _ _ Hrest) as (H1' & H2' & H3').
    rewrite !count_app. lia.
Qed.

Lemma step_401_raises_flag JSON_parse a st st' evs :
  fails_with_401 a = true →
  step JSON_parse a st = Some (st', evs) →
  isRedirecting st' = true.
Proof.
  intros Ha Hs. destruct a as [| c [|e] now | | | | |]; try discriminate Ha.
  simpl in Ha. apply bool_decide_eq_true in Ha.
  destruct st as [toks canc nxt flag ls cm infl].
  unfold_ops. simpl in Hs. rewrite Ha in Hs. simpl in Hs.
  crunch Hs; try done; destruct flag; simpl in *; done.
Qed.

Lemma run_401_raises_flag JSON_parse acts st st' evs :
  Forall (fun a => is_external_control a = false) acts →
  Exists (fun a => fails_with_401 a = true) acts →
  run JSON_parse acts st = Some (st', evs) →
  isRedirecting st' = true.
Proof.
  intros Hacts Hex. revert st evs Hacts.
  induction Hex as [a acts Ha|a acts _ IH]; simpl; intros st evs Hacts Hrun;
    apply Forall_cons in Hacts as [Hext Hacts];
    destruct (step JSON_parse a st) as [[st1 e1]|] eqn:Hstep; try done;
    destruct (run JSON_parse acts st1) as [[st2 e2]|] eqn:Hrest; try done;
    simplify_eq.
  - pose proof (step_401_raises_flag _ _ _ _ _ Ha Hstep) as Hflag.
    destruct (run_teardown _ _ _ _ _ Hacts Hrest) as (H1 & _).
    rewrite Hflag in H1. simpl in H1.
    destruct (isRedirecting st') eqn:Hflag'; [done | simpl in H1; lia].
  - by eapply IH.
Qed.

(** C1: starting with the flag down, any interleaving of dispatcher activity
    in which at least one call fails with status 401 runs the teardown exactly
    once (one removal of the stored credentials, one [clearActiveRequests],
    one redirect timer), however many calls fail that way; once the flag is
    up no further activity tears down again; and the only step that lowers
    the flag is [resetRedirectFlag]. *)
Theorem session_expiry_single_teardown JSON_parse acts st st' evs :
  isRedirecting st = false →
  Forall (fun a => is_external_control a = false) acts →
  Exists (fun a => fails_with_401 a = true) acts →
  run JSON_parse acts st = Some (st', evs) →
  (count is_credential_removal evs = 1%nat
   ∧ count is_cancel_all evs = 1%nat
   ∧ count is_redirect_timer evs = 1%nat
   ∧ isRedirecting st' = true)
  ∧ (∀ later st'' evs',
       Forall (fun a => is_external_control a = false) later →
       run JSON_parse later st' = Some (st'', evs') →
       count is_credential_removal evs' = 0%nat
       ∧ count is_cancel_all evs' = 0%nat
       ∧ count is_redirect_timer evs' = 0%nat
       ∧ isRedirecting st'' = true)
  ∧ (∀ a st1 st2 evs1,
       step JSON_parse a st1 = Some (st2, evs1) →
       isRedirecting st1 = true → isRedirecting st2 = false →
       a = ResetRedirectFlag).
Proof.
  intros Hdown Hacts Hex Hrun.
  pose proof (run_401_raises_flag _ _ _ _ _ Hacts Hex Hrun) as Hup.
  destruct (run_teardown _ _ _ _ _ Hacts Hrun) as (H1 & H2 & H3).
  rewrite Hdown, Hup in *. simpl in *.
  split; [done|]. split.
  - intros later st'' evs' Hlater Hrun'.
    destruct (run_teardown _ _ _ _ _ Hlater Hrun') as (H1' & H2' & H3').
    rewrite Hup in H1', H2', H3'. simpl in *.
    destruct (isRedirecting st'') eqn:Hflag; simpl in *; [|lia].
    repeat split; lia.
  - intros a st1 st2 evs1 Hstep Hon Hoff.
    destruct st1 as [toks canc nxt flag ls cm infl]. simpl in *. subst flag.
    destruct a; try done; exfalso; crunch Hstep; simpl in *; congruence.
Qed.

(** Three calls in flight together all fail with 401: one teardown. *)
Lemma session_expiry_single_teardown_witness :
  match run no_parse three_unauthorized (initial signed_in) with
  | Some (st', evs) =>
      count is_credential_removal evs = 1%nat
      ∧ count is_cancel_all evs = 1%nat
      ∧ count is_redirect_timer evs = 1%nat
      ∧ isRedirecting st' = true
  | None => False
  end.
Proof.
  destruct (run no_parse three_unauthorized (initial signed_in))
    as [[st' evs]|] eqn:Hrun; [|by vm_compute in Hrun].
  refine (proj1 (session_expiry_single_teardown no_parse three_unauthorized
                   (initial signed_in) st' evs eq_refl _ _ Hrun)).
  - unfold three_unauthorized. repeat (constructor; [reflexivity|]). constructor.
  - unfold three_unauthorized. do 3 apply Exists_cons_tl. apply Exists_cons_hd.
    reflexivity.
Defined.

(** ** The completion protocol *)

Lemma events_of_elem_of (c : nat) (e : Event) (evs : list Event) :
  e ∈ events_of c evs → e ∈ evs.
Proof.
  unfold events_of. intros Hin%list_elem_of_In%List.filter_In.
  apply list_elem_of_In. tauto.
Qed.

Lemma not_settles_not_elem_of (c : nat) (o : Outcome) (now : Z) (acts : list Action) :
  Forall (fun a => settles c a = false) acts → Settle c o now ∈ acts → False.
Proof.
  rewrite Forall_forall. intros Hall Hin. apply Hall in Hin.
  simpl in Hin. by rewrite Nat.eqb_refl in Hin.
Qed.

(** C2, as the code has it: once a call made with an [onFinally] callback has
    settled, in whichever way (value from the transport, value from the
    cache, normalized error, or cancellation), [onFinally] has run exactly
    once; for a cancelled call neither [onSuccess] nor [onError] has run. *)
Theorem onFinally_once_per_settled_call JSON_parse st m url body config cbs now
        rest st' evs r :
  inflight_below st →
  onFinally cbs = true →
  run JSON_parse (Issue m url body config (Some cbs) now :: rest) st
  = Some (st', evs) →
  Completed (nextSource st) r ∈ evs →
  count (is_onFinally (nextSource st)) evs = 1%nat
  ∧ (∀ msg, r = ThrowsCancel msg →
            count (is_onSuccess (nextSource st)) evs = 0%nat
            ∧ count (is_onError (nextSource st)) evs = 0%nat).
Proof.
  intros Hinv Hfin Hrun Hdone.
  apply (elem_of_events_of (nextSource st)) in Hdone;
    [|by simpl; rewrite Nat.eqb_refl].
  rewrite <- (count_events_of (is_onFinally _) (nextSource st)),
          <- (count_events_of (is_onSuccess _) (nextSource st)),
          <- (count_events_of (is_onError _) (nextSource st))
    by (by intros []).
  destruct (run_call _ _ _ _ _ _ _ _ _ _ _ Hinv Hrun)
    as [(hdrs & He & _)|[(hdrs & o & now' & _ & _ & He)|(d & He & _)]];
    simpl in He; rewrite He in *; clear He.
  - apply list_elem_of_singleton in Hdone. done.
  - clear Hrun.
    destruct o as [d|[msg|e|msg]]; simpl in *; rewrite Hfin in *;
      destruct (onSuccess cbs), (onError cbs);
      unfold count, notify in *; simpl in *; rewrite ?Nat.eqb_refl; simpl;
      (split; [done|]); intros msg' ->; try done;
      repeat (apply elem_of_cons in Hdone as [Hdone|Hdone]; [discriminate|]);
      by apply elem_of_nil in Hdone.
  - clear Hrun. simpl in *; rewrite Hfin in *;
      destruct (onSuccess cbs);
      unfold count, notify in *; simpl in *; rewrite ?Nat.eqb_refl; simpl;
      (split; [done|]); intros msg' ->;
      repeat (apply elem_of_cons in Hdone as [Hdone|Hdone]; [discriminate|]);
      by apply elem_of_nil in Hdone.
Qed.

Lemma initial_inflight_below ls : inflight_below (initial ls).
Proof. intros c [call Hc]. simpl in Hc. by rewrite lookup_empty in Hc. Qed.

(** The superseded read: its [onFinally] runs once, its other callbacks
    never. *)
Lemma onFinally_once_per_settled_call_witness :
  match run no_parse superseded_read (initial ∅) with
  | Some (_, evs) =>
      count (is_onFinally 0) evs = 1%nat
      ∧ count (is_onSuccess 0) evs = 0%nat
      ∧ count (is_onError 0) evs = 0%nat
  | None => False
  end.
Proof.
  destruct (run no_parse superseded_read (initial ∅)) as [[st' evs]|] eqn:Hrun;
    [|by vm_compute in Hrun].
  assert (Hdone : Completed 0 (ThrowsCancel "Request list:123 cancelled") ∈ evs).
  { vm_compute in Hrun. injection Hrun as _ <-.
    apply list_elem_of_In. simpl. tauto. }
  destruct (onFinally_once_per_settled_call no_parse (initial ∅) GET "/tasks"
              JUndefined list_request (mkCallbacks true true true) 1000
              (tail superseded_read) st' evs
              (ThrowsCancel "Request list:123 cancelled")
              (initial_inflight_below ∅) eq_refl Hrun Hdone) as [Hfin Hcb].
  split; [exact Hfin | exact (Hcb _ eq_refl)].
Defined.

(** C2, counterexample to the claim as stated: the first of two reads issued
    under the identifier ["list:123"] settles as cancelled, and its
    [onFinally] callback has run. *)
Lemma cancelled_call_runs_onFinally :
  match run no_parse superseded_read (initial ∅) with
  | Some (_, evs) =>
      count (is_cancelled_completion 0) evs = 1%nat
      ∧ count (is_onFinally 0) evs ≠ 0%nat
  | None => False
  end.
Proof. vm_compute. split; [reflexivity | discriminate]. Qed.

(** [handleError] computes what the description says. *)
Lemma handleError_described (e : Thrown) :
  ApiError.message (handleError e) = described_message e
  ∧ ApiError.status (handleError e) = AxiosResponse.status <$> response_of e
  ∧ (∀ r, response_of e = Some r →
          ApiError.data (handleError e) = AxiosResponse.data r).
Proof.
  unfold handleError, described_message, server_detail, transport_message,
    generic_fallback, response_of, js_or.
  destruct e as [msg|[msg [r|]]|msg]; simpl; split_and!; try done;
    try (by intros r' [= ->]).
  destruct (truthy (js_get (AxiosResponse.data r) "detail")) eqn:Hd.
  - by rewrite Hd.
  - simpl. by destruct (String.eqb msg "").
Qed.

(** C7: when the transport call of a call made with an [onError] callback is
    rejected with anything but a cancellation, [onError] runs exactly once,
    with the [ApiError] that [handleError] builds; the call throws that same
    [ApiError] and nothing else; its message is the server-provided [detail]
    when there is one (a truthy value), else the message of the transport
    error when that is not empty, else the generic fallback; its status is
    the HTTP status and its data the body of the response when a response
    exists. *)
Theorem failure_normalized_for_caller JSON_parse st m url body config cbs now
        rest e now' st' evs :
  inflight_below st →
  onError cbs = true →
  is_cancel e = false →
  run JSON_parse (Issue m url body config (Some cbs) now :: rest) st
  = Some (st', evs) →
  Settle (nextSource st) (Rejected e) now' ∈ rest →
  count (is_onError (nextSource st)) evs = 1%nat
  ∧ CallOnError (nextSource st) (handleError e) ∈ evs
  ∧ Completed (nextSource st) (ThrowsApiError (handleError e)) ∈ evs
  ∧ (∀ r, Completed (nextSource st) r ∈ evs → r = ThrowsApiError (handleError e))
  ∧ ApiError.message (handleError e) = described_message e
  ∧ ApiError.status (handleError e) = AxiosResponse.status <$> response_of e
  ∧ (∀ r, response_of e = Some r →
          ApiError.data (handleError e) = AxiosResponse.data r).
Proof.
  intros Hinv Herr Hnc Hrun Hin.
  destruct (handleError_described e) as (Hmsg & Hstatus & Hdata).
  split_and!; try done.
  all: destruct (run_call _ _ _ _ _ _ _ _ _ _ _ Hinv Hrun)
    as [(hdrs & He & Hall)|[(hdrs & o & now'' & _ & Huniq & He)|(d & He & Hall)]];
    try (exfalso; by eapply not_settles_not_elem_of).
  all: simpl in He; rewrite <- (Huniq _ _ Hin) in He; clear Hrun.
  all: assert (Htrace :
         events_of (nextSource st) evs
         = [Transport (nextSource st) m url (body_of m body) hdrs;
            CallOnError (nextSource st) (handleError e)]
           ++ notify (onFinally cbs) (CallOnFinally (nextSource st))
           ++ [Completed (nextSource st) (ThrowsApiError (handleError e))])
    by (rewrite He; destruct e; try done; simpl; by rewrite Herr).
  all: clear He.
  - rewrite <- (count_events_of (is_onError _) (nextSource st)) by (by intros []).
    rewrite Htrace. unfold count, notify.
    destruct (onFinally cbs); simpl; by rewrite Nat.eqb_refl.
  - apply (events_of_elem_of (nextSource st)). rewrite Htrace. set_solver.
  - apply (events_of_elem_of (nextSource st)). rewrite Htrace. set_solver.
  - intros r Hr.
    apply (elem_of_events_of (nextSource st)) in Hr;
      [|by simpl; rewrite Nat.eqb_refl].
    rewrite Htrace in Hr. unfold notify in Hr.
    destruct (onFinally cbs); simpl in Hr;
      repeat (apply elem_of_cons in Hr as [Hr|Hr]; [by simplify_eq|]);
      by apply elem_of_nil in Hr.
Qed.

(** A write answered with 401 and the body [{detail: "token expired"}]. *)
Lemma failure_normalized_for_caller_witness :
  match run no_parse failed_write (initial ∅) with
  | Some (_, evs) =>
      count (is_onError 0) evs = 1%nat
      ∧ CallOnError 0 (ApiError.mk (JStr "token expired") (Some 401)
                         (JObj [("detail", JStr "token expired")])) ∈ evs
  | None => False
  end.
Proof.
  destruct (run no_parse failed_write (initial ∅)) as [[st' evs]|] eqn:Hrun;
    [|by vm_compute in Hrun].
  assert (Hin : Settle (nextSource (initial ∅)) (Rejected token_expired) 1050
                ∈ tail failed_write) by (simpl; left).
  destruct (failure_normalized_for_caller no_parse (initial ∅) POST "/tasks"
              (JObj [("title", JStr "x")]) None (mkCallbacks true true true) 1000
              (tail failed_write) token_expired 1050 st' evs
              (initial_inflight_below ∅) eq_refl eq_refl Hrun Hin)
    as (Hcount & Hcb & _).
  split; [exact Hcount | exact Hcb].
Defined.

(** ** The cache shortcut and cache writes *)

(** The cache shortcut, for a cached value that is truthy: no transport call,
    the source just registered is dropped from the registry, [onSuccess] then
    [onFinally] run with the cached value, which the call returns. *)
Lemma cache_hit_shortcut JSON_parse st url body cfg c callbacks now entry :
  cache cfg = Some c → bypass c = false →
  cacheManager st !! cacheKey_of url cfg c = Some entry →
  now ≤ expiresAt entry →
  truthy (data entry) = true →
  ∃ st',
    step JSON_parse (Issue GET url body (Some cfg) callbacks now) st
    = Some (st', ConsoleLog ("Cache hit for " +:+ cacheKey_of url cfg c)
                 :: settle_trace (nextSource st) callbacks (Resolved (data entry)))
    ∧ cancelTokens st' !! requestId_of GET url (Some cfg) now = None
    ∧ inflight st' = inflight st
    ∧ cacheManager st' = cacheManager st.
Proof.
  intros Hcache Hbypass Hentry Hlive Htruthy.
  destruct (step JSON_parse (Issue GET url body (Some cfg) callbacks now) st)
    as [[st' evs]|] eqn:Hs; [|unfold step, exec in Hs; by repeat case_match].
  exists st'. destruct st as [toks canc nxt flag ls cm infl]. simpl in *.
  unfold_ops. unfold cache_directive, CacheManager.get in Hs. simpl in Hs.
  rewrite Hcache, Hbypass in Hs. simpl in Hs.
  destruct (toks !! requestId_of GET url (Some cfg) now); simpl in Hs;
    rewrite Hentry in Hs; simpl in Hs;
    (destruct (Z.ltb_spec (expiresAt entry) now); [lia|]);
    simpl in Hs; rewrite Htruthy in Hs; simpl in Hs;
    unfold settle_trace, notify;
    destruct (supplied callbacks onSuccess), (supplied callbacks onFinally);
    simpl in Hs; simplify_eq; simpl; by rewrite lookup_delete_eq.
Qed.

(** The same read when the cached value is falsy ([0], [false], [""],
    [null]): the entry is there and has not expired, yet the call goes to the
    transport, stays registered and suspended, and runs no callback. *)
Lemma cache_shortcut_skipped_for_falsy_value JSON_parse st url body cfg c callbacks
      now entry :
  cache cfg = Some c → bypass c = false →
  cacheManager st !! cacheKey_of url cfg c = Some entry →
  now ≤ expiresAt entry →
  truthy (data entry) = false →
  ∃ st' evs hdrs,
    step JSON_parse (Issue GET url body (Some cfg) callbacks now) st = Some (st', evs)
    ∧ Transport (nextSource st) GET url JUndefined hdrs ∈ evs
    ∧ count (is_onSuccess (nextSource st)) evs = 0%nat
    ∧ cancelTokens st' !! requestId_of GET url (Some cfg) now = Some (nextSource st)
    ∧ is_Some (inflight st' !! nextSource st)
    ∧ cacheManager st' = cacheManager st.
Proof.
  intros Hcache Hbypass Hentry Hlive Hfalsy.
  destruct (step JSON_parse (Issue GET url body (Some cfg) callbacks now) st)
    as [[st' evs]|] eqn:Hs; [|unfold step, exec in Hs; by repeat case_match].
  exists st', evs. destruct st as [toks canc nxt flag ls cm infl]. simpl in *.
  unfold_ops. unfold cache_directive, CacheManager.get in Hs. simpl in Hs.
  rewrite Hcache, Hbypass in Hs. simpl in Hs.
  destruct (toks !! requestId_of GET url (Some cfg) now); simpl in Hs;
    rewrite Hentry in Hs; simpl in Hs;
    (destruct (Z.ltb_spec (expiresAt entry) now); [lia|]);
    simpl in Hs; rewrite Hfalsy in Hs; simpl in Hs;
    use_interceptor; simpl in Hs; simplify_eq; simpl;
    eexists; split_ievs; (split_and!; [done | | done | ..]);
    rewrite ?lookup_insert_eq; try done;
    apply list_elem_of_In; simpl; tauto.
Qed.

(** C5 at the failing input: a read caches the response [0]; a second read
    of the same key, one second later and 59 seconds before the entry
    expires, is not answered from the cache but sent to the transport. *)
Lemma cached_falsy_value_is_refetched :
  match run no_parse
          [ Issue GET "/count" JUndefined count_request all_callbacks 1000;
            Settle 0 (Resolved (JNum 0)) 1010;
            Issue GET "/count" JUndefined count_request all_callbacks 2000 ]
          (initial ∅) with
  | Some (st', evs) =>
      (data <$> cacheManager st' !! "/count") = Some (JNum 0)
      ∧ (expiresAt <$> cacheManager st' !! "/count") = Some 61010
      ∧ count (is_transport 1) evs = 1%nat
      ∧ count (is_onSuccess 1) evs = 0%nat
      ∧ is_Some (inflight st' !! 1%nat)
  | None => False
  end.
Proof. vm_compute. split_and!; try reflexivity. by eexists. Qed.

Lemma cache_directive_Some m config cfg c :
  cache_directive m config = Some (cfg, c) →
  m = GET ∧ config = Some cfg ∧ cache cfg = Some c ∧ bypass c = false.
Proof.
  unfold cache_directive. intros H. repeat case_match; simplify_eq. done.
Qed.

Lemma cache_get_lookup k now cm v cm' k' entry :
  CacheManager.get k now cm = (v, cm') →
  cm' !! k' = Some entry → cm !! k' = Some entry.
Proof.
  unfold CacheManager.get. intros Hget Hk'.
  repeat case_match; simplify_eq; try done.
  by apply lookup_delete_Some in Hk' as [_ ?].
Qed.

(** C8: an entry that is in the cache after a step and was not there before
    (under that key, with that content) was written by the settlement of a
    [get] whose transport call resolved and whose options asked for caching
    without [bypass]; it holds the response. *)
Theorem cache_written_only_by_cacheable_read JSON_parse a st st' evs k entry :
  step JSON_parse a st = Some (st', evs) →
  cacheManager st' !! k = Some entry →
  cacheManager st !! k ≠ Some entry →
  ∃ c d now call cfg copts,
    a = Settle c (Resolved d) now
    ∧ inflight st !! c = Some call
    ∧ call_method call = GET
    ∧ call_config call = Some cfg
    ∧ cache cfg = Some copts
    ∧ bypass copts = false
    ∧ k = cacheKey_of (call_url call) cfg copts
    ∧ entry = {| data := d; timestamp := now;
                 expiresAt := now + default CacheManager.DEFAULT_TTL (ttl copts) |}.
Proof.
  intros Hs Hnew Hold. destruct st as [toks canc nxt flag ls cm infl].
  simpl in *.
  destruct a; crunch Hs;
    try (exfalso; apply Hold; first
           [ done
           | by eapply cache_get_lookup
           | by apply lookup_delete_Some in Hnew as [_ ?]
           | by rewrite lookup_empty in Hnew ]).
  all: unfold CacheManager.set, CacheManager.delete, CacheManager.clear in *;
    simpl in *.
  all: try (exfalso; apply Hold; first
           [ done
           | by apply lookup_delete_Some in Hnew as [_ ?]
           | by rewrite lookup_empty in Hnew ]).
  all: apply lookup_insert_Some in Hnew as [[<- <-]|[_ Hnew]]; [|done].
  all: match goal with
       | H : cache_directive _ _ = Some _ |- _ =>
           apply cache_directive_Some in H as (? & ? & ? & ?)
       end.
  all: by repeat eexists.
Qed.

(** The entry written when a cached read resolves with [5]. *)
Lemma cache_written_only_by_cacheable_read_witness :
  match run no_parse [Issue GET "/count" JUndefined count_request all_callbacks 1000]
            (initial ∅) with
  | Some (st, _) =>
      match step no_parse (Settle 0 (Resolved (JNum 5)) 1010) st with
      | Some (st', _) =>
          ∃ call cfg copts,
            inflight st !! 0%nat = Some call
            ∧ call_method call = GET
            ∧ call_config call = Some cfg
            ∧ cache cfg = Some copts
            ∧ bypass copts = false
      | None => False
      end
  | None => False
  end.
Proof.
  destruct (run no_parse
              [Issue GET "/count" JUndefined count_request all_callbacks 1000]
              (initial ∅)) as [[st evs]|] eqn:Hrun; [|by vm_compute in Hrun].
  vm_compute in Hrun. injection Hrun as <- <-.
  match goal with
  | |- match ?s with _ => _ end =>
      destruct s as [[st' e']|] eqn:Hstep; [|by vm_compute in Hstep]
  end.
  destruct (cache_written_only_by_cacheable_read no_parse _ _ st' e' "/count"
              (mkCacheEntry (JNum 5) 1010 61010) Hstep)
    as (c & d & now & call & cfg & copts & Ha & Hc & Hm & Hcfg & Hcache & Hb & _).
  - vm_compute in Hstep. injection Hstep as <- _. reflexivity.
  - discriminate.
  - injection Ha as <- _ _. by exists call, cfg, copts.
Defined.

(** ** Authentication injection *)

Lemma outgoing_headers_credentials JSON_parse ls hdrs s user token tokenType :
  ls !! "nepali_user" = Some s → s ≠ "" → JSON_parse s = Some user →
  truthy (js_get user "token") = true →
  truthy (js_get user "tokenType") = true →
  js_toString (js_get user "tokenType") = Some tokenType →
  js_toString (js_get user "token") = Some token →
  outgoing_headers JSON_parse ls hdrs
  = <["Authorization" := tokenType +:+ " " +:+ token]> hdrs.
Proof.
  intros Hs Hne Hparse Htok Hty Htys Htoks.
  unfold outgoing_headers, requestInterceptor, bind, gets, ret, emit. simpl.
  rewrite Hs. apply String.eqb_neq in Hne. rewrite Hne, Hparse.
  destruct user; try done; by rewrite Htok, Hty, Htys, Htoks.
Qed.

Lemma outgoing_headers_absent JSON_parse ls hdrs :
  ls !! "nepali_user" = None → outgoing_headers JSON_parse ls hdrs = hdrs.
Proof.
  intros Hs. unfold outgoing_headers, requestInterceptor, bind, gets, ret. simpl.
  by rewrite Hs.
Qed.


Lemma issue_transport_headers JSON_parse m url body config callbacks now st st' evs
      c m' url' body' hdrs :
  step JSON_parse (Issue m url body config callbacks now) st = Some (st', evs) →
  Transport c m' url' body' hdrs ∈ evs →
  hdrs = outgoing_headers JSON_parse (localStorage st) (headers_of config).
Proof.
  intros Hs Hin. destruct st as [toks canc nxt flag ls cm infl]. simpl in *.
  crunch Hs; split_ievs; unfold notify in Hin; simpl in Hin;
    repeat (apply elem_of_cons in Hin as [Hin|Hin]; [by simplify_eq|]);
    by apply elem_of_nil in Hin.
Qed.




(** ** The cancellation registry *)

Lemma view_cancel id toks canc nxt infl :
  view_ok toks canc nxt infl →
  view_ok (delete id toks) (cancel_prior id toks canc) nxt infl.
Proof.
  intros [Hlive Honce Hbelow Hcanc Hreg Hnum]. unfold cancel_prior.
  constructor.
  - intros id' h [Hne Hh]%lookup_delete_Some.
    destruct (toks !! id) as [h0|] eqn:Hid; [|by eauto].
    apply not_elem_of_union. split; [|by eauto].
    apply not_elem_of_singleton. intros ->. by eauto.
  - intros id1 id2 h [_ H1]%lookup_delete_Some [_ H2]%lookup_delete_Some. by eauto.
  - intros id' h [_ Hh]%lookup_delete_Some. by eauto.
  - intros h Hh. destruct (toks !! id) as [h0|] eqn:Hid; [|by eauto].
    apply elem_of_union in Hh as [->%elem_of_singleton|Hh]; by eauto.
  - intros c call Hc Hnc.
    destruct (toks !! id) as [h0|] eqn:Hid.
    + apply not_elem_of_union in Hnc as [Hne%not_elem_of_singleton Hnc].
      specialize (Hreg _ _ Hc Hnc). apply lookup_delete_Some. split; [|done].
      intros Heq. rewrite <- Heq in Hreg. congruence.
    + specialize (Hreg _ _ Hc Hnc). apply lookup_delete_Some. split; [|done].
      intros Heq. rewrite <- Heq in Hreg. congruence.
  - done.
Qed.

Lemma view_register id call toks canc nxt infl :
  view_ok toks canc nxt infl → toks !! id = None → call_requestId call = id →
  view_ok (<[id:=nxt]> toks) canc (S nxt) (<[nxt:=call]> infl).
Proof.
  intros [Hlive Honce Hbelow Hcanc Hreg Hnum] Hid Hcall. constructor.
  - intros id' h [[-> <-]|[Hne Hh]]%lookup_insert_Some; [|by eauto].
    intros Hin%Hcanc. lia.
  - intros id1 id2 h [[-> <-]|[Hne1 H1]]%lookup_insert_Some
                     [[-> Heq]|[Hne2 H2]]%lookup_insert_Some; try done.
    + apply Hbelow in H2. lia.
    + apply Hbelow in H1. lia.
    + by eauto.
  - intros id' h [[-> <-]|[Hne Hh]]%lookup_insert_Some; [lia|].
    apply Hbelow in Hh. lia.
  - intros h Hh%Hcanc. lia.
  - intros c call' [[-> <-]|[Hne Hc]]%lookup_insert_Some Hnc.
    + rewrite Hcall. apply lookup_insert_eq.
    + specialize (Hreg _ _ Hc Hnc). rewrite lookup_insert_ne; [done|].
      intros Heq. rewrite <- Heq in Hreg. congruence.
  - intros c [->|[Hne Hc]]%lookup_insert_is_Some; [lia|].
    apply Hnum in Hc. lia.
Qed.

Lemma view_skip toks canc nxt infl :
  view_ok toks canc nxt infl → view_ok toks canc (S nxt) infl.
Proof.
  intros [Hlive Honce Hbelow Hcanc Hreg Hnum].
  constructor; eauto.
  - intros id h Hh%Hbelow. lia.
  - intros h Hh%Hcanc. lia.
  - intros c Hc%Hnum. lia.
Qed.

Lemma view_return c call toks canc nxt infl :
  view_ok toks canc nxt infl → infl !! c = Some call → c ∉ canc →
  view_ok (delete (call_requestId call) toks) canc nxt (delete c infl).
Proof.
  intros [Hlive Honce Hbelow Hcanc Hreg Hnum] Hc Hnc.
  pose proof (Hreg _ _ Hc Hnc) as Hmine. constructor.
  - intros id h [_ Hh]%lookup_delete_Some. by eauto.
  - intros id1 id2 h [_ H1]%lookup_delete_Some [_ H2]%lookup_delete_Some. by eauto.
  - intros id h [_ Hh]%lookup_delete_Some. by eauto.
  - done.
  - intros c' call' [Hne Hc']%lookup_delete_Some Hnc'.
    specialize (Hreg _ _ Hc' Hnc'). apply lookup_delete_Some. split; [|done].
    intros Heq. rewrite Heq in Hmine. congruence.
  - intros c' [_ Hc']%lookup_delete_is_Some. by eauto.
Qed.

Lemma view_forget c toks canc nxt infl :
  view_ok toks canc nxt infl → view_ok toks canc nxt (delete c infl).
Proof.
  intros [Hlive Honce Hbelow Hcanc Hreg Hnum]. constructor; eauto.
  - intros c' call' [_ Hc']%lookup_delete_Some. by eauto.
  - intros c' [_ Hc']%lookup_delete_is_Some. by eauto.
Qed.

Lemma view_cancel_all toks canc nxt infl :
  view_ok toks canc nxt infl →
  view_ok ∅ (map_img toks ∪ canc) nxt infl.
Proof.
  intros [Hlive Honce Hbelow Hcanc Hreg Hnum]. constructor.
  - intros id h Hh. by rewrite lookup_empty in Hh.
  - intros id1 id2 h Hh. by rewrite lookup_empty in Hh.
  - intros id h Hh. by rewrite lookup_empty in Hh.
  - intros h [(id & Hh)%elem_of_map_img|Hh]%elem_of_union; by eauto.
  - intros c call Hc [Himg Hnc]%not_elem_of_union.
    specialize (Hreg _ _ Hc Hnc). exfalso. apply Himg.
    apply elem_of_map_img. by eexists.
  - done.
Qed.

(** What one step does to the registry, the cancelled sources, the source
    counter and the suspended calls. *)
Lemma step_shape JSON_parse a st st' evs :
  step JSON_parse a st = Some (st', evs) →
  match a with
  | Issue m url body config callbacks now =>
      let id := requestId_of m url config now in
      cancelled st' = cancel_prior id (cancelTokens st) (cancelled st)
      ∧ nextSource st' = S (nextSource st)
      ∧ ((cancelTokens st' = <[id:=nextSource st]> (delete id (cancelTokens st))
          ∧ inflight st'
            = <[nextSource st:=mkCall m url config callbacks id]> (inflight st))
         ∨ (cancelTokens st' = delete id (cancelTokens st)
            ∧ inflight st' = inflight st))
  | Settle c o now =>
      ∃ call,
        inflight st !! c = Some call
        ∧ inflight st' = delete c (inflight st)
        ∧ nextSource st' = nextSource st
        ∧ match o with
          | Resolved _ =>
              cancelTokens st' = delete (call_requestId call) (cancelTokens st)
              ∧ cancelled st' = cancelled st
          | Rejected _ =>
              (cancelTokens st' = cancelTokens st ∧ cancelled st' = cancelled st)
              ∨ (cancelTokens st' = ∅
                 ∧ cancelled st' = map_img (cancelTokens st) ∪ cancelled st)
          end
  | CancelRequest id =>
      cancelTokens st' = delete id (cancelTokens st)
      ∧ cancelled st' = cancel_prior id (cancelTokens st) (cancelled st)
      ∧ nextSource st' = nextSource st ∧ inflight st' = inflight st
  | ClearActiveRequests =>
      cancelTokens st' = ∅
      ∧ cancelled st' = map_img (cancelTokens st) ∪ cancelled st
      ∧ nextSource st' = nextSource st ∧ inflight st' = inflight st
  | _ =>
      cancelTokens st' = cancelTokens st ∧ cancelled st' = cancelled st
      ∧ nextSource st' = nextSource st ∧ inflight st' = inflight st
  end.
Proof.
  intros Hs. destruct st as [toks canc nxt flag ls cm infl]. simpl in *.
  destruct a; crunch Hs; unfold cancel_prior;
    repeat match goal with H : toks !! _ = _ |- _ => rewrite H end;
    rewrite ?delete_insert_eq, ?delete_delete_eq;
    repeat match goal with
    | H : toks !! ?i = None |- _ => rewrite (delete_id toks i H)
    end;
    try (eexists; split; [done|]); split_and?; try done;
    first [ by left | by right | idtac ].
Qed.

Lemma axios_contract_resolved c d now st :
  axios_contract (Settle c (Resolved d) now) st = true → c ∉ cancelled st.
Proof.
  simpl. destruct (bool_decide (c ∈ cancelled st)) eqn:Hc; [done|].
  intros _. by apply bool_decide_eq_false in Hc.
Qed.

Lemma step_registry_ok JSON_parse a st st' evs :
  registry_ok st → axios_contract a st = true →
  step JSON_parse a st = Some (st', evs) →
  registry_ok st'.
Proof.
  unfold registry_ok. intros Hok Hax Hs.
  pose proof (step_shape _ _ _ _ _ Hs) as Hshape.
  destruct a as [m url body config callbacks now|c o now|id| | | |]; simpl in Hshape.
  - destruct Hshape as (-> & -> & [[-> ->]|[-> ->]]).
    + apply view_register; [by apply view_cancel | apply lookup_delete_eq | done].
    + by apply view_skip, view_cancel.
  - destruct Hshape as (call & Hc & -> & -> & Ho).
    destruct o as [d|e].
    + destruct Ho as [-> ->]. apply view_return; [done..|].
      by eapply axios_contract_resolved.
    + destruct Ho as [[-> ->]|[-> ->]].
      * by apply view_forget.
      * by apply view_forget, view_cancel_all.
  - destruct Hshape as (-> & -> & -> & ->). by apply view_cancel.
  - destruct Hshape as (-> & -> & -> & ->). by apply view_cancel_all.
  - by destruct Hshape as (-> & -> & -> & ->).
  - by destruct Hshape as (-> & -> & -> & ->).
  - by destruct Hshape as (-> & -> & -> & ->).
Qed.

(** A cancelled source stays cancelled. *)
Lemma step_cancelled_mono JSON_parse a st st' evs :
  step JSON_parse a st = Some (st', evs) → cancelled st ⊆ cancelled st'.
Proof.
  intros Hs. pose proof (step_shape _ _ _ _ _ Hs) as Hshape.
  destruct a as [m url body config callbacks now|c o now|id| | | |]; simpl in Hshape.
  - destruct Hshape as (-> & _). unfold cancel_prior. case_match; set_solver.
  - destruct Hshape as (call & _ & _ & _ & Ho).
    destruct o; [destruct Ho as [_ ->]|destruct Ho as [[_ ->]|[_ ->]]]; set_solver.
  - destruct Hshape as (_ & -> & _). unfold cancel_prior. case_match; set_solver.
  - destruct Hshape as (_ & -> & _). set_solver.
  - destruct Hshape as (_ & -> & _). set_solver.
  - destruct Hshape as (_ & -> & _). set_solver.
  - destruct Hshape as (_ & -> & _). set_solver.
Qed.

Lemma run_axios_run JSON_parse acts st r :
  run_axios JSON_parse acts st = Some r → run JSON_parse acts st = Some r.
Proof.
  revert st r. induction acts as [|a acts IH]; simpl; intros st r Hrun; [done|].
  destruct (axios_contract a st); [|done].
  destruct (step JSON_parse a st) as [[st1 e1]|]; [|done].
  destruct (run_axios JSON_parse acts st1) as [[st2 e2]|] eqn:Hrest; [|done].
  by rewrite (IH _ _ Hrest).
Qed.

Lemma run_axios_registry_ok JSON_parse acts st st' evs :
  registry_ok st → run_axios JSON_parse acts st = Some (st', evs) →
  registry_ok st'.
Proof.
  revert st evs. induction acts as [|a acts IH]; simpl; intros st evs Hok Hrun.
  - by simplify_eq.
  - destruct (axios_contract a st) eqn:Hax; [|done].
    destruct (step JSON_parse a st) as [[st1 e1]|] eqn:Hstep; [|done].
    destruct (run_axios JSON_parse acts st1) as [[st2 e2]|] eqn:Hrest; [|done].
    simplify_eq. eapply IH; [|done]. by eapply step_registry_ok.
Qed.

(** Under the transport's contract a call whose source has been cancelled can
    only settle as a cancellation. *)
Lemma run_axios_cancelled JSON_parse acts st st' evs h o now :
  h ∈ cancelled st → run_axios JSON_parse acts st = Some (st', evs) →
  Settle h o now ∈ acts → ∃ msg, o = Rejected (Cancel msg).
Proof.
  revert st evs. induction acts as [|a acts IH]; simpl; intros st evs Hh Hrun Hin.
  - by apply elem_of_nil in Hin.
  - destruct (axios_contract a st) eqn:Hax; [|done].
    destruct (step JSON_parse a st) as [[st1 e1]|] eqn:Hstep; [|done].
    destruct (run_axios JSON_parse acts st1) as [[st2 e2]|] eqn:Hrest; [|done].
    simplify_eq. apply elem_of_cons in Hin as [<-|Hin].
    + simpl in Hax. rewrite bool_decide_eq_true_2 in Hax by done.
      destruct o as [|[]]; try done. by eexists.
    + eapply IH; [|done..]. by eapply step_cancelled_mono.
Qed.

Lemma initial_registry_ok ls : registry_ok (initial ls).
Proof.
  unfold registry_ok. simpl.
  constructor; intros; try (by rewrite lookup_empty in * ); set_solver.
Qed.

(** C4: in every state reached under the transport's contract, two suspended
    calls with the same request identifier are not both live, and every
    registered source is live; every dispatcher call first cancels and drops
    the source registered under its identifier and then stores a source of
    its own, which is new and not cancelled; and from then on the earlier
    call can only settle as cancelled: it throws the cancellation and runs
    neither [onSuccess] nor [onError]. *)
Theorem one_live_source_per_request_id JSON_parse acts st st' evs :
  registry_ok st →
  run_axios JSON_parse acts st = Some (st', evs) →
  (∀ c1 c2 call1 call2,
      inflight st' !! c1 = Some call1 → inflight st' !! c2 = Some call2 →
      call_requestId call1 = call_requestId call2 →
      c1 ∉ cancelled st' → c2 ∉ cancelled st' → c1 = c2)
  ∧ (∀ id h, cancelTokens st' !! id = Some h → h ∉ cancelled st')
  ∧ (∀ m url body config callbacks now st1 e1 h,
        step JSON_parse (Issue m url body config callbacks now) st' = Some (st1, e1) →
        cancelTokens st' !! requestId_of m url config now = Some h →
        h ∈ cancelled st1
        ∧ (h ≠ nextSource st')
        ∧ (nextSource st' ∉ cancelled st1)
        ∧ (cancelTokens st1 !! requestId_of m url config now = Some (nextSource st')
           ∨ (cancelTokens st1 !! requestId_of m url config now = None
              ∧ inflight st1 !! nextSource st' = None))
        ∧ ∀ rest st2 e2 o now',
            run_axios JSON_parse rest st1 = Some (st2, e2) →
            Settle h o now' ∈ rest →
            ∃ msg, o = Rejected (Cancel msg)
                   ∧ Completed h (ThrowsCancel msg) ∈ e2
                   ∧ count (is_onSuccess h) e2 = 0%nat
                   ∧ count (is_onError h) e2 = 0%nat).
Proof.
  intros Hok Hrun.
  pose proof (run_axios_registry_ok _ _ _ _ _ Hok Hrun) as Hok'.
  destruct Hok' as [Hlive Honce Hbelow Hcanc Hreg Hnum].
  split_and!.
  - intros c1 c2 call1 call2 H1 H2 Hid Hn1 Hn2.
    pose proof (Hreg _ _ H1 Hn1) as Hr1. pose proof (Hreg _ _ H2 Hn2) as Hr2.
    rewrite Hid in Hr1. congruence.
  - done.
  - intros m url body config callbacks now st1 e1 h Hstep Hprior.
    assert (Hok1 : registry_ok st1).
    { apply (step_registry_ok JSON_parse (Issue m url body config callbacks now)
               st' st1 e1); [by constructor | done | done]. }
    pose proof (step_shape _ _ _ _ _ Hstep) as (Hc1 & Hn1 & Hreg1). simpl in *.
    unfold cancel_prior in Hc1. rewrite Hprior in Hc1.
    assert (Hh1 : h ∈ cancelled st1)
      by (rewrite Hc1; by apply elem_of_union_l, elem_of_singleton).
    assert (Hlt : (h < nextSource st')%nat) by eauto.
    split_and!.
    + done.
    + lia.
    + rewrite Hc1. apply not_elem_of_union. split.
      * apply not_elem_of_singleton. lia.
      * intros Hin%Hcanc. lia.
    + destruct Hreg1 as [[-> ->]|[-> ->]].
      * left. apply lookup_insert_eq.
      * right. split; [apply lookup_delete_eq|].
        destruct (inflight st' !! nextSource st') eqn:E; [|done].
        pose proof (Hnum _ (mk_is_Some _ _ E)). lia.
    + intros rest st2 e2 o now' Hrest Hin.
      destruct (run_axios_cancelled _ _ _ _ _ _ _ _ Hh1 Hrest Hin) as [msg ->].
      exists msg. split; [done|].
      apply run_axios_run in Hrest.
      destruct Hok1 as [_ _ _ _ _ Hnum1].
      assert (Hlt1 : (h < nextSource st1)%nat) by lia.
      destruct (inflight st1 !! h) as [call|] eqn:Hcall.
      * destruct (run_inflight _ _ _ _ _ _ _ Hnum1 Hcall Hrest)
          as [(Hall & _)|(o & now'' & _ & Huniq & He & _)].
        { exfalso. by eapply not_settles_not_elem_of. }
        rewrite <- (Huniq _ _ Hin) in He. simpl in He.
        rewrite <- (count_events_of (is_onSuccess _) h),
                <- (count_events_of (is_onError _) h) by (by intros []).
        split_and!.
        -- apply (events_of_elem_of h). rewrite He. unfold notify.
           apply list_elem_of_In. case_match; simpl; tauto.
        -- rewrite He. unfold count, notify. by case_match.
        -- rewrite He. unfold count, notify. by case_match.
      * destruct (run_absent _ _ _ _ _ _ Hlt1 Hcall Hrest) as (_ & _ & Hall).
        exfalso. by eapply not_settles_not_elem_of.
Qed.

(** Re-issuing the read ["list:123"]: source 0 is cancelled, source 1 takes
    its place in the registry. *)
Lemma one_live_source_per_request_id_witness :
  match run_axios no_parse
          [Issue GET "/tasks" JUndefined list_request all_callbacks 1000]
          (initial ∅) with
  | Some (st', _) =>
      match step no_parse
              (Issue GET "/tasks" JUndefined list_request all_callbacks 1001) st' with
      | Some (st1, _) =>
          cancelTokens st' !! "list:123" = Some 0%nat
          ∧ 0%nat ∈ cancelled st1
          ∧ (cancelTokens st1 !! "list:123" = Some 1%nat
             ∨ (cancelTokens st1 !! "list:123" = None
                ∧ inflight st1 !! 1%nat = None))
      | None => False
      end
  | None => False
  end.
Proof.
  destruct (run_axios no_parse
              [Issue GET "/tasks" JUndefined list_request all_callbacks 1000]
              (initial ∅)) as [[st' evs]|] eqn:Hrun; [|by vm_compute in Hrun].
  pose proof (one_live_source_per_request_id no_parse _ (initial ∅) st' evs
                (initial_registry_ok ∅) Hrun) as (_ & _ & Hissue).
  vm_compute in Hrun. injection Hrun as <- <-.
  match goal with
  | |- match ?s with _ => _ end =>
      destruct s as [[st1 e1]|] eqn:Hstep; [|by vm_compute in Hstep]
  end.
  destruct (Hissue GET "/tasks" JUndefined list_request all_callbacks 1001
              st1 e1 0%nat Hstep eq_refl) as (Hcancelled & _ & _ & Hfresh & _).
  split_and!; [reflexivity | exact Hcancelled | exact Hfresh].
Defined.

(** * Further properties *)

(** ** The response cache: the other operations *)

(** X1: [has] and [get] apply the same lazy expiry: they leave the same cache
    behind, and [has] answers [true] exactly when the entry is there and not
    past its expiry, in which case [get] returns its data. *)
Theorem has_agrees_with_get (k : string) (now : Z) (cache : gmap string CacheEntry) :
  (CacheManager.has k now cache).2 = (CacheManager.get k now cache).2
  ∧ ((CacheManager.has k now cache).1 = true
     ↔ ∃ e, cache !! k = Some e ∧ now ≤ expiresAt e
            ∧ (CacheManager.get k now cache).1 = data e).
Proof.
  unfold CacheManager.has, CacheManager.get.
  destruct (cache !! k) as [e|] eqn:Hk; simpl.
  - destruct (Z.ltb_spec (expiresAt e) now); simpl; (split; [done|]).
    + split; [done|]. intros (e' & [= <-] & Hle & _). lia.
    + split; [|done]. intros _. exists e. split_and!; [done | lia | done].
  - split; [done|]. split; [done|]. by intros (e & ? & _).
Qed.

(** X2: a lookup that misses leaves no entry under the key (an expired one is
    dropped) and nothing else changed, so the key keeps missing at every
    later or earlier time until it is set again. *)
Theorem miss_drops_entry (k : string) (now : Z) (cache : gmap string CacheEntry) :
  (CacheManager.has k now cache).1 = false →
  (CacheManager.has k now cache).2 = delete k cache
  ∧ (CacheManager.get k now cache) = (JNull, delete k cache)
  ∧ ∀ n, CacheManager.has k n (delete k cache) = (false, delete k cache)
         ∧ CacheManager.get k n (delete k cache) = (JNull, delete k cache).
Proof.
  unfold CacheManager.has, CacheManager.get. intros Hmiss.
  destruct (cache !! k) as [e|] eqn:Hk; simpl in *.
  - destruct (expiresAt e <? now); [|done]. simpl.
    split_and!; try done. intros n. by rewrite lookup_delete_eq.
  - rewrite (delete_id cache k Hk). split_and!; try done.
    intros n. by rewrite Hk.
Qed.

Lemma miss_drops_entry_witness :
  let cache := CacheManager.set "/tasks/7" (JNum 7) (Some 1000) 5000 ∅ in
  (CacheManager.has "/tasks/7" 6001 cache).1 = false
  ∧ (CacheManager.has "/tasks/7" 6001 cache).2 = delete "/tasks/7" cache.
Proof.
  simpl. split; [reflexivity|].
  apply (miss_drops_entry "/tasks/7" 6001
           (CacheManager.set "/tasks/7" (JNum 7) (Some 1000) 5000 ∅)).
  reflexivity.
Defined.

Lemma clearExpired_lookup (now : Z) (cache : gmap string CacheEntry) (k : string)
      (e : CacheEntry) :
  CacheManager.clearExpired now cache !! k = Some e
  ↔ cache !! k = Some e ∧ now ≤ expiresAt e.
Proof.
  unfold CacheManager.clearExpired. rewrite map_lookup_filter_Some. simpl.
  split; intros [? ?]; (split; [done | lia]).
Qed.

(** X3: [clearExpired] keeps exactly the entries that have not expired, never
    adds one, and a second sweep at the same time changes nothing. *)
Theorem clearExpired_keeps_unexpired (now : Z) (cache : gmap string CacheEntry) :
  (∀ k e, CacheManager.clearExpired now cache !! k = Some e
          ↔ cache !! k = Some e ∧ now ≤ expiresAt e)
  ∧ CacheManager.clearExpired now cache ⊆ cache
  ∧ (CacheManager.size (CacheManager.clearExpired now cache)
     ≤ CacheManager.size cache)%nat
  ∧ CacheManager.clearExpired now (CacheManager.clearExpired now cache)
    = CacheManager.clearExpired now cache.
Proof.
  split_and!.
  - intros k e. apply clearExpired_lookup.
  - apply map_filter_subseteq.
  - unfold CacheManager.size. apply map_subseteq_size, map_filter_subseteq.
  - apply map_eq. intros k. apply option_eq. intros e.
    rewrite !clearExpired_lookup. tauto.
Qed.

(** X4: sweeping at time [now] is invisible to every lookup made at that time
    or later: [get] and [has] answer as they would have without the sweep. *)
Theorem clearExpired_transparent (now n : Z) (k : string)
        (cache : gmap string CacheEntry) :
  now ≤ n →
  (CacheManager.get k n (CacheManager.clearExpired now cache)).1
  = (CacheManager.get k n cache).1
  ∧ (CacheManager.has k n (CacheManager.clearExpired now cache)).1
    = (CacheManager.has k n cache).1.
Proof.
  intros Hle. unfold CacheManager.get, CacheManager.has.
  destruct (CacheManager.clearExpired now cache !! k) as [e|] eqn:Hk.
  - apply clearExpired_lookup in Hk as [-> _]. by destruct (expiresAt e <? n).
  - destruct (cache !! k) as [e|] eqn:Hc; [|done].
    destruct (Z.ltb_spec (expiresAt e) n); [done|].
    assert (Hin : CacheManager.clearExpired now cache !! k = Some e)
      by (apply clearExpired_lookup; split; [done | lia]).
    congruence.
Qed.

Lemma clearExpired_transparent_witness :
  let cache := CacheManager.set "a" (JNum 1) (Some 10) 0
                 (CacheManager.set "b" (JNum 2) (Some 1000) 0 ∅) in
  (CacheManager.get "b" 60 (CacheManager.clearExpired 50 cache)).1
  = (CacheManager.get "b" 60 cache).1
  ∧ (CacheManager.has "b" 60 (CacheManager.clearExpired 50 cache)).1
    = (CacheManager.has "b" 60 cache).1.
Proof.
  simpl. apply clearExpired_transparent. lia.
Defined.

(** X5: with the TTL argument omitted an entry lives five minutes: it is
    served up to and including 300000 ms after it was stored and dropped by
    the first lookup after that. *)
Theorem default_ttl_five_minutes (k : string) (v : JsValue) (s n : Z)
        (cache : gmap string CacheEntry) :
  let stored := CacheManager.set k v None s cache in
  (n ≤ s + 300000 → CacheManager.get k n stored = (v, stored))
  ∧ (s + 300000 < n → CacheManager.get k n stored = (JNull, delete k cache)).
Proof.
  simpl. unfold CacheManager.get, CacheManager.set, CacheManager.DEFAULT_TTL.
  rewrite lookup_insert_eq. simpl. split; intros Hn.
  - destruct (Z.ltb_spec (s + 5 * 60 * 1000) n); [lia | done].
  - destruct (Z.ltb_spec (s + 5 * 60 * 1000) n); [|lia]. by rewrite delete_insert_eq.
Qed.

Lemma default_ttl_five_minutes_witness :
  let stored := CacheManager.set "/tasks" (JArr []) None 1000 ∅ in
  CacheManager.get "/tasks" 301000 stored = (JArr [], stored)
  ∧ CacheManager.get "/tasks" 301001 stored = (JNull, delete "/tasks" ∅).
Proof.
  simpl. split.
  - apply (default_ttl_five_minutes "/tasks" (JArr []) 1000 301000 ∅). lia.
  - apply (default_ttl_five_minutes "/tasks" (JArr []) 1000 301001 ∅). lia.
Defined.

(** X6: a second [set] under a key replaces the first altogether (value,
    storage time and expiry), and a [set] is invisible to the lookups of
    every other key. *)
Theorem set_overwrites_and_is_local (k k' : string) (v1 v2 : JsValue)
        (t1 t2 : option Z) (s1 s2 n : Z) (cache : gmap string CacheEntry) :
  CacheManager.set k v2 t2 s2 (CacheManager.set k v1 t1 s1 cache)
  = CacheManager.set k v2 t2 s2 cache
  ∧ (CacheManager.get k' n (CacheManager.set k v1 t1 s1 cache)).1
    = if decide (k' = k)
      then (if s1 + default CacheManager.DEFAULT_TTL t1 <? n then JNull else v1)
      else (CacheManager.get k' n cache).1.
Proof.
  unfold CacheManager.set, CacheManager.get. split.
  - apply insert_insert_eq.
  - case_decide as Hk.
    + subst. rewrite lookup_insert_eq. simpl. by case_match.
    + rewrite lookup_insert_ne by done. by repeat case_match.
Qed.

(** X7: [delete] removes exactly one entry: the key misses afterwards at any
    time, every other key is looked up as before, and the size drops by one
    when the key was stored and stays the same otherwise. *)
Theorem delete_removes_exactly (k k' : string) (n : Z)
        (cache : gmap string CacheEntry) :
  (CacheManager.get k' n (CacheManager.delete k cache)).1
  = (if decide (k' = k) then JNull else (CacheManager.get k' n cache).1)
  ∧ CacheManager.size (CacheManager.delete k cache)
    = (CacheManager.size cache
       - match cache !! k with Some _ => 1 | None => 0 end)%nat.
Proof.
  unfold CacheManager.delete, CacheManager.get, CacheManager.size. split.
  - case_decide as Hk.
    + subst. by rewrite lookup_delete_eq.
    + rewrite lookup_delete_ne by done. by repeat case_match.
  - destruct (cache !! k) as [e|] eqn:Hk.
    + rewrite map_size_delete, Hk. lia.
    + rewrite delete_id by done. lia.
Qed.

(** X8: [keys] lists every stored key exactly once, whether its entry has
    expired or not, [size] is their number, and after [clear] there is none. *)
Theorem keys_lists_every_entry (cache : gmap string CacheEntry) :
  NoDup (CacheManager_keys cache)
  ∧ (∀ k, k ∈ CacheManager_keys cache ↔ is_Some (cache !! k))
  ∧ length (CacheManager_keys cache) = CacheManager.size cache
  ∧ CacheManager_keys (CacheManager.clear cache) = []
  ∧ CacheManager.size (CacheManager.clear cache) = 0%nat.
Proof.
  unfold CacheManager_keys, CacheManager.size, CacheManager.clear. split_and!.
  - apply NoDup_fst_map_to_list.
  - intros k. rewrite list_elem_of_fmap. split.
    + intros ([k' e] & -> & Hin). apply elem_of_map_to_list in Hin. by eexists.
    + intros [e He]. exists (k, e). split; [done|]. by apply elem_of_map_to_list.
  - by rewrite length_fmap, length_map_to_list.
  - by rewrite map_to_list_empty.
  - apply map_size_empty.
Qed.

(** X9: an entry stored with a negative TTL is never served at or after its
    storage time, yet it occupies a slot until a lookup or a sweep drops it. *)
Theorem negative_ttl_never_served (k : string) (v : JsValue) (t s n : Z)
        (cache : gmap string CacheEntry) :
  t < 0 → s ≤ n →
  let stored := CacheManager.set k v (Some t) s cache in
  CacheManager.get k n stored = (JNull, delete k cache)
  ∧ is_Some (stored !! k)
  ∧ CacheManager.clearExpired n stored !! k = None.
Proof.
  intros Ht Hn. simpl. unfold CacheManager.get, CacheManager.set.
  rewrite lookup_insert_eq. simpl.
  destruct (Z.ltb_spec (s + t) n); [|lia]. rewrite delete_insert_eq.
  split_and!; [done | by eexists |].
  destruct (CacheManager.clearExpired n _ !! k) as [e|] eqn:He; [|done].
  apply clearExpired_lookup in He as [He Hle].
  rewrite lookup_insert_eq in He. injection He as <-. simpl in Hle. lia.
Qed.

Lemma negative_ttl_never_served_witness :
  let stored := CacheManager.set "k" (JNum 1) (Some (-1)) 100 ∅ in
  CacheManager.get "k" 100 stored = (JNull, delete "k" ∅)
  ∧ is_Some (stored !! "k")
  ∧ CacheManager.clearExpired 100 stored !! "k" = None.
Proof.
  simpl. apply (negative_ttl_never_served "k" (JNum 1) (-1) 100 100 ∅); lia.
Defined.

(** ** The task-list service's cache clearing *)

Lemma deleteTaskListKeys_lookup (ks : list string) (cache : gmap string CacheEntry)
      (k : string) :
  TaskListService.deleteTaskListKeys ks cache !! k
  = if decide (k ∈ ks ∧ String.prefix "taskList:" k = true) then None
    else cache !! k.
Proof.
  unfold TaskListService.deleteTaskListKeys. revert cache.
  induction ks as [|k0 ks IH]; intros cache.
  - cbn [fold_left]. destruct (decide _) as [[H _]|]; [|done].
    by apply elem_of_nil in H.
  - cbn [fold_left]. rewrite IH. unfold CacheManager.delete.
    destruct (decide (k ∈ ks ∧ _)) as [[Hin Hp]|Hn];
      destruct (decide (k ∈ k0 :: ks ∧ _)) as [[Hin' Hp']|Hn']; try done.
    + exfalso. apply Hn'. split; [by right | done].
    + apply elem_of_cons in Hin' as [->|Hin']; [|tauto].
      rewrite Hp'. by rewrite lookup_delete_eq.
    + destruct (String.prefix "taskList:" k0) eqn:Hp0; [|done].
      rewrite lookup_delete_ne; [done|]. intros <-. apply Hn'.
      split; [by left | done].
Qed.

(** X10: [clearCache] of the task-list service removes exactly the one entry
    when given a non-empty key; without a key (or with the empty string) it
    removes exactly the entries whose key starts with ["taskList:"] and keeps
    every other one, in whatever order the keys are walked. *)
Theorem taskList_clearCache_removes (cache : gmap string CacheEntry) :
  (∀ k, k ≠ "" → TaskListService.clearCache (Some k) cache = delete k cache)
  ∧ (∀ ks, ks ≡ₚ CacheManager_keys cache →
           TaskListService.deleteTaskListKeys ks cache
           = filter (fun kv => String.prefix "taskList:" kv.1 = false) cache)
  ∧ TaskListService.clearCache None cache
    = filter (fun kv => String.prefix "taskList:" kv.1 = false) cache
  ∧ TaskListService.clearCache (Some "") cache
    = TaskListService.clearCache None cache.
Proof.
  assert (Hwalk : ∀ ks, ks ≡ₚ CacheManager_keys cache →
            TaskListService.deleteTaskListKeys ks cache
            = filter (fun kv => String.prefix "taskList:" kv.1 = false) cache).
  { intros ks Hks. apply map_eq. intros k.
    rewrite deleteTaskListKeys_lookup. apply option_eq. intros e.
    rewrite map_lookup_filter_Some. simpl.
    case_decide as Hd.
    - destruct Hd as [_ Hp]. split; [done|]. intros [_ ?]. congruence.
    - split.
      + intros He. split; [done|].
        destruct (String.prefix "taskList:" k) eqn:Hp; [|done].
        exfalso. apply Hd. split; [|done]. rewrite Hks.
        unfold CacheManager_keys. apply list_elem_of_fmap.
        exists (k, e). split; [done|]. by apply elem_of_map_to_list.
      + by intros [? _]. }
  split_and!.
  - intros k Hk. unfold TaskListService.clearCache. simpl.
    apply String.eqb_neq in Hk. by rewrite Hk.
  - done.
  - unfold TaskListService.clearCache. simpl. by apply Hwalk.
  - done.
Qed.

Lemma taskList_clearCache_removes_witness :
  TaskListService.clearCache (Some "/tasks")
    (CacheManager.set "taskList:1" JNull None 0
       (CacheManager.set "/tasks" JNull None 0 ∅))
  = delete "/tasks"
      (CacheManager.set "taskList:1" JNull None 0
         (CacheManager.set "/tasks" JNull None 0 ∅))
  ∧ TaskListService.deleteTaskListKeys
      (reverse (CacheManager_keys
         (CacheManager.set "taskList:1" JNull None 0
            (CacheManager.set "/tasks" JNull None 0 ∅))))
      (CacheManager.set "taskList:1" JNull None 0
         (CacheManager.set "/tasks" JNull None 0 ∅))
    = filter (fun kv => String.prefix "taskList:" kv.1 = false)
        (CacheManager.set "taskList:1" JNull None 0
           (CacheManager.set "/tasks" JNull None 0 ∅)).
Proof.
  destruct (taskList_clearCache_removes
              (CacheManager.set "taskList:1" JNull None 0
                 (CacheManager.set "/tasks" JNull None 0 ∅))) as (H1 & H2 & _).
  split.
  - apply H1. discriminate.
  - apply H2. apply reverse_Permutation.
Defined.

Lemma generateKey_starts_with_url (url : string) (params : JsValue) :
  ∃ rest, CacheManager.generateKey url params = url +:+ rest.
Proof.
  unfold CacheManager.generateKey. destruct (truthy params); simpl.
  - by eexists.
  - exists "". induction url as [|c url IH]; [done|].
    change (String c url = String c (url +:+ "")). by rewrite <- IH.
Qed.

(** X11: the keys the dispatcher derives for a URL that starts with ["/"] never
    start with ["taskList:"], so a call of [clearCache()] without a key leaves
    whatever is cached under them in place. *)
Theorem taskList_clearCache_keeps_generated_keys (rest : string) (params : JsValue)
        (cache : gmap string CacheEntry) :
  TaskListService.clearCache None cache
    !! CacheManager.generateKey ("/" +:+ rest) params
  = cache !! CacheManager.generateKey ("/" +:+ rest) params.
Proof.
  unfold TaskListService.clearCache. simpl.
  rewrite deleteTaskListKeys_lookup.
  destruct (generateKey_starts_with_url ("/" +:+ rest) params) as [sfx ->].
  case_decide as H; [|done]. by destruct H as [_ H].
Qed.

(** ** The dispatcher and the cache, composed *)

Lemma settle_resolved_state JSON_parse st c call d t st1 evs1 :
  inflight st !! c = Some call →
  step JSON_parse (Settle c (Resolved d) t) st = Some (st1, evs1) →
  cacheManager st1
  = match cache_directive (call_method call) (call_config call) with
    | Some (cfg, copts) =>
        CacheManager.set (cacheKey_of (call_url call) cfg copts) d (ttl copts) t
                         (cacheManager st)
    | None => cacheManager st
    end
  ∧ nextSource st1 = nextSource st
  ∧ localStorage st1 = localStorage st
  ∧ isRedirecting st1 = isRedirecting st
  ∧ evs1 = settle_trace c (call_callbacks call) (Resolved d).
Proof.
  intros Hc Hs. destruct st as [toks canc nxt flag ls cm infl]. simpl in *.
  unfold step in Hs. rewrite Hc in Hs.
  unfold settle_trace, notify.
  destruct (cache_directive (call_method call) (call_config call))
    as [[cfg copts]|] eqn:Hd;
    unfold_ops; simpl in Hs;
    destruct (supplied (call_callbacks call) onSuccess),
             (supplied (call_callbacks call) onFinally);
    simpl in Hs; by simplify_eq.
Qed.

Lemma cache_directive_intro cfg copts :
  cache cfg = Some copts → bypass copts = false →
  cache_directive GET (Some cfg) = Some (cfg, copts).
Proof. intros H1 H2. unfold cache_directive. by rewrite H1, H2. Qed.

(** X12: once a [get] that asked for caching has resolved with a truthy
    value, a [get] of the same URL with the same options made no later than
    the entry's expiry instant is answered from the cache: it logs the hit,
    runs [onSuccess] and [onFinally] with the stored value, returns it, sends
    nothing to the transport and suspends nothing. *)
Theorem cached_response_answers_next_read JSON_parse st c call cfg copts d t now
        body cbs st1 evs1 :
  inflight st !! c = Some call →
  call_method call = GET → call_config call = Some cfg →
  cache cfg = Some copts → bypass copts = false →
  truthy d = true →
  now ≤ t + default CacheManager.DEFAULT_TTL (ttl copts) →
  step JSON_parse (Settle c (Resolved d) t) st = Some (st1, evs1) →
  ∃ st2,
    step JSON_parse (Issue GET (call_url call) body (Some cfg) cbs now) st1
    = Some (st2,
            ConsoleLog ("Cache hit for " +:+ cacheKey_of (call_url call) cfg copts)
            :: settle_trace (nextSource st1) cbs (Resolved d))
    ∧ inflight st2 = inflight st1
    ∧ cacheManager st2 = cacheManager st1.
Proof.
  intros Hc Hm Hcfg Hcache Hbypass Ht Hnow Hs.
  destruct (settle_resolved_state _ _ _ _ _ _ _ _ Hc Hs) as (Hcm & _).
  rewrite Hm, Hcfg, (cache_directive_intro _ _ Hcache Hbypass) in Hcm.
  destruct (cache_hit_shortcut JSON_parse st1 (call_url call) body cfg copts cbs now
              {| data := d; timestamp := t;
                 expiresAt := t + default CacheManager.DEFAULT_TTL (ttl copts) |}
              Hcache Hbypass) as (st2 & H1 & _ & H2 & H3); try done.
  - rewrite Hcm. unfold CacheManager.set. by rewrite lookup_insert_eq.
  - by exists st2.
Qed.

Lemma cached_response_answers_next_read_witness :
  match run no_parse [Issue GET "/count" JUndefined count_request all_callbacks 1000]
            (initial ∅) with
  | Some (st, _) =>
      match step no_parse (Settle 0 (Resolved (JNum 5)) 1010) st with
      | Some (st1, _) =>
          ∃ st2,
            step no_parse (Issue GET "/count" JUndefined count_request None 61010) st1
            = Some (st2, [ConsoleLog "Cache hit for /count";
                          Completed 1 (Returns (JNum 5))])
      | None => False
      end
  | None => False
  end.
Proof.
  destruct (run no_parse
              [Issue GET "/count" JUndefined count_request all_callbacks 1000]
              (initial ∅)) as [[st evs]|] eqn:Hrun; [|by vm_compute in Hrun].
  vm_compute in Hrun. injection Hrun as <- <-.
  match goal with
  | |- match ?s with _ => _ end =>
      destruct s as [[st1 e1]|] eqn:Hstep; [|by vm_compute in Hstep]
  end.
  pose proof (fun call cfg copts H1 H2 H3 H4 H5 H6 H7 =>
                cached_response_answers_next_read no_parse _ 0%nat call cfg copts
                  (JNum 5) 1010 61010 JUndefined None st1 e1
                  H1 H2 H3 H4 H5 H6 H7 Hstep) as Hread.
  destruct (Hread
              (mkCall GET "/count" count_request all_callbacks "get:/count:1000")
              (mkRequestOptions (Some (mkCacheOptions "/count" (Some 60000) false))
                                None JUndefined ∅)
              (mkCacheOptions "/count" (Some 60000) false))
    as (st2 & H & _); try reflexivity; try done.
  exists st2. etrans; [exact H|]. f_equal. f_equal.
  vm_compute in Hstep. injection Hstep as <- _. reflexivity.
Defined.

(** X13: the same read made after the expiry instant is not answered from
    the cache: the stale entry is removed, the call is sent to the transport
    and stays suspended, and no callback runs yet. *)
Theorem expired_response_is_refetched JSON_parse st c call cfg copts d t now
        body cbs st1 evs1 st2 evs2 :
  inflight st !! c = Some call →
  call_method call = GET → call_config call = Some cfg →
  cache cfg = Some copts → bypass copts = false →
  t + default CacheManager.DEFAULT_TTL (ttl copts) < now →
  step JSON_parse (Settle c (Resolved d) t) st = Some (st1, evs1) →
  step JSON_parse (Issue GET (call_url call) body (Some cfg) cbs now) st1
  = Some (st2, evs2) →
  cacheManager st2 !! cacheKey_of (call_url call) cfg copts = None
  ∧ (∃ hdrs, Transport (nextSource st1) GET (call_url call) JUndefined hdrs ∈ evs2)
  ∧ count (is_onSuccess (nextSource st1)) evs2 = 0%nat
  ∧ count (is_onFinally (nextSource st1)) evs2 = 0%nat
  ∧ inflight st2 !! nextSource st1
    = Some (mkCall GET (call_url call) (Some cfg) cbs
                   (requestId_of GET (call_url call) (Some cfg) now)).
Proof.
  intros Hc Hm Hcfg Hcache Hbypass Hnow Hs Hi.
  destruct (settle_resolved_state _ _ _ _ _ _ _ _ Hc Hs) as (Hcm & _).
  rewrite Hm, Hcfg, (cache_directive_intro _ _ Hcache Hbypass) in Hcm.
  destruct st1 as [toks canc nxt flag ls cm infl]. simpl in *. subst cm.
  unfold step, exec, issue in Hi.
  rewrite (cache_directive_intro _ _ Hcache Hbypass) in Hi.
  unfold CacheManager.get, CacheManager.set in Hi.
  unfold_ops. simpl in Hi. 
  destruct (toks !! requestId_of GET (call_url call) (Some cfg) now); simpl in Hi;
    rewrite lookup_insert_eq in Hi; simpl in Hi;
    (destruct (Z.ltb_spec (t + default CacheManager.DEFAULT_TTL (ttl copts)) now);
       [|lia]); simpl in Hi;
    use_interceptor; simpl in Hi; simplify_eq; simpl;
    split_ievs; simpl;
    (split_and!;
      [ by rewrite lookup_delete_eq
      | eexists; repeat first [apply list_elem_of_here | apply list_elem_of_further]
      | by rewrite ?Nat.eqb_refl
      | by rewrite ?Nat.eqb_refl
      | by rewrite lookup_insert_eq ]).
Qed.

Lemma expired_response_is_refetched_witness :
  match run no_parse [Issue GET "/count" JUndefined count_request all_callbacks 1000]
            (initial ∅) with
  | Some (st, _) =>
      match step no_parse (Settle 0 (Resolved (JNum 5)) 1010) st with
      | Some (st1, _) =>
          match step no_parse
                  (Issue GET "/count" JUndefined count_request None 61011) st1 with
          | Some (st2, evs2) =>
              cacheManager st2 !! "/count" = None
              ∧ is_Some (inflight st2 !! 1%nat)
          | None => False
          end
      | None => False
      end
  | None => False
  end.
Proof.
  destruct (run no_parse
              [Issue GET "/count" JUndefined count_request all_callbacks 1000]
              (initial ∅)) as [[st evs]|] eqn:Hrun; [|by vm_compute in Hrun].
  vm_compute in Hrun. injection Hrun as <- <-.
  match goal with
  | |- match ?s with _ => _ end =>
      destruct s as [[st1 e1]|] eqn:Hstep; [|by vm_compute in Hstep]
  end.
  match goal with
  | |- match ?s with _ => _ end =>
      destruct s as [[st2 e2]|] eqn:Hread;
        [|unfold step, exec in Hread; by repeat case_match]
  end.
  pose proof (fun call cfg copts H1 H2 H3 H4 H5 H6 =>
                expired_response_is_refetched no_parse _ 0%nat call cfg copts
                  (JNum 5) 1010 61011 JUndefined None st1 e1 st2 e2
                  H1 H2 H3 H4 H5 H6 Hstep) as Hthm.
  destruct (Hthm
              (mkCall GET "/count" count_request all_callbacks "get:/count:1000")
              (mkRequestOptions (Some (mkCacheOptions "/count" (Some 60000) false))
                                None JUndefined ∅)
              (mkCacheOptions "/count" (Some 60000) false))
    as (H1 & _ & _ & _ & H2); try reflexivity; try done.
  split; [exact H1|].
  assert (nextSource st1 = 1%nat) as Hn
      by (vm_compute in Hstep; by injection Hstep as <- _).
  rewrite Hn in H2. by eexists.
Defined.

(** How a call that is not answered from the cache leaves the state. *)
Lemma issue_sends JSON_parse m url body config cbs now st st' evs :
  (∀ cfg c, cache_directive m config = Some (cfg, c) →
            truthy (CacheManager.get (cacheKey_of url cfg c) now
                                     (cacheManager st)).1 = false) →
  step JSON_parse (Issue m url body config cbs now) st = Some (st', evs) →
  (∃ ievs,
      evs = ievs ++ [Transport (nextSource st) m url (body_of m body)
                       (outgoing_headers JSON_parse (localStorage st)
                                         (headers_of config))]
      ∧ (ievs = [] ∨ ievs = [parse_failure]))
  ∧ inflight st'
    = <[nextSource st := mkCall m url config cbs (requestId_of m url config now)]>
        (inflight st)
  ∧ cancelTokens st' !! requestId_of m url config now = Some (nextSource st)
  ∧ cacheManager st'
    = match cache_directive m config with
      | Some (cfg, c) =>
          (CacheManager.get (cacheKey_of url cfg c) now (cacheManager st)).2
      | None => cacheManager st
      end
  ∧ localStorage st' = localStorage st
  ∧ isRedirecting st' = isRedirecting st.
Proof.
  intros Hmiss Hs. destruct st as [toks canc nxt flag ls cm infl]. simpl in *.
  unfold step, exec, issue in Hs.
  destruct (cache_directive m config) as [[cfg c]|] eqn:Hd.
  - specialize (Hmiss cfg c eq_refl).
    destruct (CacheManager.get (cacheKey_of url cfg c) now cm) as [v cm'] eqn:Hg.
    simpl in Hmiss. unfold_ops. simpl in Hs.
    destruct (toks !! requestId_of m url config now); simpl in Hs;
      rewrite Hg in Hs; simpl in Hs; rewrite Hmiss in Hs; simpl in Hs;
      use_interceptor; simpl in Hs; simplify_eq; simpl;
      (split_and!; [by eexists | done | by rewrite lookup_insert_eq | done..]).
  - unfold_ops. simpl in Hs.
    destruct (toks !! requestId_of m url config now); simpl in Hs;
      use_interceptor; simpl in Hs; simplify_eq; simpl;
      (split_and!; [by eexists | done | by rewrite lookup_insert_eq | done..]).
Qed.

Lemma elem_of_sent (e : Event) (ievs : list Event) : e ∈ ievs ++ [e].
Proof. apply elem_of_app. right. apply list_elem_of_here. Qed.

Lemma count_sent (p : Event → bool) (e : Event) (ievs : list Event) :
  ievs = [] ∨ ievs = [parse_failure] → p parse_failure = false → p e = false →
  count p (ievs ++ [e]) = 0%nat.
Proof.
  intros [->| ->] Hp He; unfold count; simpl; rewrite ?Hp, ?He; done.
Qed.

(** X14: a call that does not ask for caching (any verb other than [get], no
    [cache] option, or [bypass] set) is always sent to the transport, whatever
    the cache holds, and neither its issue nor its settlement changes the
    cache. *)
Theorem uncached_call_skips_cache JSON_parse m url body config cbs now st st' evs :
  (m = GET → ∀ cfg c, config = Some cfg → cache cfg = Some c → bypass c = true) →
  step JSON_parse (Issue m url body config cbs now) st = Some (st', evs) →
  cacheManager st' = cacheManager st
  ∧ (∃ hdrs, Transport (nextSource st) m url (body_of m body) hdrs ∈ evs)
  ∧ inflight st' !! nextSource st
    = Some (mkCall m url config cbs (requestId_of m url config now))
  ∧ ∀ o t st'' evs',
      step JSON_parse (Settle (nextSource st) o t) st' = Some (st'', evs') →
      cacheManager st'' = cacheManager st'.
Proof.
  intros Hoff Hs.
  assert (Hd : cache_directive m config = None).
  { destruct (cache_directive m config) as [[cfg c]|] eqn:Hd; [|done].
    apply cache_directive_Some in Hd as (-> & -> & Hc & Hb).
    specialize (Hoff eq_refl cfg c eq_refl Hc). congruence. }
  assert (Hmiss : ∀ cfg c,
             cache_directive m config = Some (cfg, c) →
             truthy (CacheManager.get (cacheKey_of url cfg c) now
                                      (cacheManager st)).1 = false)
    by (by rewrite Hd).
  destruct (issue_sends _ _ _ _ _ _ _ _ _ _ Hmiss Hs)
    as ((ievs & -> & _) & Hin & _ & Hcm & _).
  rewrite Hd in Hcm. split_and!; [done | eexists; apply elem_of_sent | | ].
  - by rewrite Hin, lookup_insert_eq.
  - intros o t st'' evs' Hset.
    destruct st' as [toks canc nxt flag ls cm infl]. simpl in *.
    unfold step in Hset. rewrite Hin, lookup_insert_eq in Hset.
    unfold_ops. simpl in Hset. rewrite Hd in Hset. simpl in Hset.
    by repeat (case_match; simpl in * ); simplify_eq.
Qed.

Lemma uncached_call_skips_cache_witness :
  match step no_parse
          (Issue GET "/count" JUndefined
             (Some (mkRequestOptions (Some (mkCacheOptions "/count" None true))
                                     None JUndefined ∅)) None 10)
          (set_cacheManager (CacheManager.set "/count" (JNum 5) None 0) (initial ∅))
  with
  | Some (st', evs) =>
      cacheManager st' = CacheManager.set "/count" (JNum 5) None 0 ∅
      ∧ is_Some (inflight st' !! 0%nat)
  | None => False
  end.
Proof.
  match goal with
  | |- match ?s with _ => _ end =>
      destruct s as [[st' evs]|] eqn:Hstep; [|by vm_compute in Hstep]
  end.
  assert (Hoff : GET = GET → ∀ cfg c,
             Some (mkRequestOptions (Some (mkCacheOptions "/count" None true))
                                    None JUndefined ∅) = Some cfg →
             cache cfg = Some c → bypass c = true)
    by (intros _ cfg c Hc Hb; by simplify_eq/=).
  destruct (uncached_call_skips_cache _ _ _ _ _ _ _ _ _ _ Hoff Hstep)
    as (H1 & _ & H2 & _).
  split; [exact H1 | by eexists].
Defined.

(** X15: [clearCache] changes nothing but the cache and logs nothing; called
    without a key (or with the empty string) it empties the cache, called with
    a key it removes that entry and keeps the others; and the next caching
    read of a cleared key is sent to the transport. *)
Theorem cleared_cache_forces_refetch JSON_parse k url body cfg copts cbs now
        st st1 evs1 st2 evs2 :
  cache cfg = Some copts →
  k = None ∨ k = Some "" ∨ k = Some (cacheKey_of url cfg copts) →
  step JSON_parse (ClearCache k) st = Some (st1, evs1) →
  step JSON_parse (Issue GET url body (Some cfg) cbs now) st1 = Some (st2, evs2) →
  evs1 = []
  ∧ st1 = set_cacheManager (fun _ => cacheManager st1) st
  ∧ cacheManager st1
    = match k with
      | Some key => if String.eqb key "" then ∅ else delete key (cacheManager st)
      | None => ∅
      end
  ∧ (∃ hdrs, Transport (nextSource st1) GET url JUndefined hdrs ∈ evs2)
  ∧ count (is_onSuccess (nextSource st1)) evs2 = 0%nat
  ∧ inflight st2 !! nextSource st1
    = Some (mkCall GET url (Some cfg) cbs (requestId_of GET url (Some cfg) now)).
Proof.
  intros Hcache Hk Hclear Hread.
  assert (Hst : evs1 = []
                ∧ st1 = set_cacheManager (fun _ => cacheManager st1) st
                ∧ cacheManager st1
                  = match k with
                    | Some key =>
                        if String.eqb key "" then ∅ else delete key (cacheManager st)
                    | None => ∅
                    end).
  { destruct st as [toks canc nxt flag ls cm infl].
    unfold CacheManager.clear, CacheManager.delete in *.
    destruct k as [key|]; crunch Hclear; done. }
  destruct Hst as (-> & Hst & Hcm).
  assert (Hgone : cacheManager st1 !! cacheKey_of url cfg copts = None).
  { rewrite Hcm. destruct Hk as [->|[->| ->]]; simpl;
      [apply lookup_empty | apply lookup_empty |].
    destruct (String.eqb _ ""); [apply lookup_empty | apply lookup_delete_eq]. }
  assert (Hmiss : ∀ cfg' c',
             cache_directive GET (Some cfg) = Some (cfg', c') →
             truthy (CacheManager.get (cacheKey_of url cfg' c') now
                                      (cacheManager st1)).1 = false).
  { intros cfg' c' Hd. apply cache_directive_Some in Hd as (_ & Hcfg & Hc' & _).
    simplify_eq. unfold CacheManager.get. by rewrite Hgone. }
  destruct (issue_sends _ _ _ _ _ _ _ _ _ _ Hmiss Hread)
    as ((ievs & -> & Hievs) & Hin & _).
  split_and!; try done.
  - eexists. apply elem_of_sent.
  - apply count_sent; [done | done |]. simpl. done.
  - by rewrite Hin, lookup_insert_eq.
Qed.

Lemma cleared_cache_forces_refetch_witness :
  match step no_parse (ClearCache (Some "/count"))
          (set_cacheManager (CacheManager.set "/count" (JNum 5) None 0) (initial ∅))
  with
  | Some (st1, evs1) =>
      match step no_parse
              (Issue GET "/count" JUndefined count_request None 10) st1 with
      | Some (st2, evs2) =>
          evs1 = [] ∧ cacheManager st1 = ∅ ∧ is_Some (inflight st2 !! 0%nat)
      | None => False
      end
  | None => False
  end.
Proof.
  match goal with
  | |- match ?s with _ => _ end =>
      destruct s as [[st1 e1]|] eqn:Hclear; [|by vm_compute in Hclear]
  end.
  match goal with
  | |- match ?s with _ => _ end =>
      destruct s as [[st2 e2]|] eqn:Hread;
        [|unfold step, exec in Hread; by repeat case_match]
  end.
  destruct (cleared_cache_forces_refetch no_parse _ "/count" JUndefined
              (mkRequestOptions (Some (mkCacheOptions "/count" (Some 60000) false))
                                None JUndefined ∅)
              (mkCacheOptions "/count" (Some 60000) false) None 10
              _ st1 e1 st2 e2 eq_refl (or_intror (or_intror eq_refl)) Hclear Hread)
    as (H1 & _ & H2 & _ & _ & H3).
  split_and!; [exact H1 | | ].
  - rewrite H2. by vm_compute.
  - assert (nextSource st1 = 0%nat) as Hn
        by (vm_compute in Hclear; by injection Hclear as <- _).
    rewrite Hn in H3. by eexists.
Defined.

(** ** The cancellation registry, its callers and the teardown *)

(** X16: a suspended call whose transport call is rejected (and which does
    not start the teardown) leaves its source registered under its request
    identifier: only the resolved path deletes the registration. *)
Theorem failed_call_stays_registered JSON_parse st c call e now st' evs :
  registry_ok st → inflight st !! c = Some call → c ∉ cancelled st →
  (status_of e = Some 401 → isRedirecting st = true) →
  step JSON_parse (Settle c (Rejected e) now) st = Some (st', evs) →
  cancelTokens st' !! call_requestId call = Some c
  ∧ (c ∉ cancelled st')
  ∧ inflight st' !! c = None
  ∧ ∀ d st'' evs'',
      step JSON_parse (Settle c (Resolved d) now) st = Some (st'', evs'') →
      cancelTokens st'' !! call_requestId call = None.
Proof.
  intros Hok Hc Hlive H401 Hs.
  pose proof (inflight_registered _ _ _ _ Hok _ _ Hc Hlive) as Hreg.
  destruct st as [toks canc nxt flag ls cm infl]. simpl in *.
  assert (Hquiet : cancelTokens st' = toks ∧ cancelled st' = canc
                   ∧ inflight st' = delete c infl).
  { unfold step in Hs. rewrite Hc in Hs. crunch Hs; try done.
    all: exfalso;
      match goal with
      | H : _ && negb _ = true |- _ =>
          apply andb_true_iff in H as [H1%bool_decide_eq_true H2];
          rewrite (H401 H1) in H2; discriminate
      end. }
  destruct Hquiet as (-> & -> & ->).
  split_and!; [done | done | apply lookup_delete_eq |].
  - intros d st'' evs'' Hr. unfold step in Hr. rewrite Hc in Hr.
    crunch Hr; by rewrite lookup_delete_eq.
Qed.

Lemma failed_call_stays_registered_witness :
  match run_axios no_parse [Issue POST "/tasks" JNull None all_callbacks 1000]
          (initial ∅) with
  | Some (st, _) =>
      match step no_parse (Settle 0 (Rejected (OtherErr (JStr "boom"))) 1050) st with
      | Some (st', _) => cancelTokens st' !! "post:/tasks:1000" = Some 0%nat
      | None => False
      end
  | None => False
  end.
Proof.
  destruct (run_axios no_parse [Issue POST "/tasks" JNull None all_callbacks 1000]
              (initial ∅)) as [[st evs]|] eqn:Hrun; [|by vm_compute in Hrun].
  pose proof (run_axios_registry_ok _ _ _ _ _ (initial_registry_ok ∅) Hrun) as Hok.
  vm_compute in Hrun. injection Hrun as <- <-.
  match goal with
  | |- match ?s with _ => _ end =>
      destruct s as [[st' e']|] eqn:Hstep; [|by vm_compute in Hstep]
  end.
  destruct (fun H1 H2 H3 =>
              failed_call_stays_registered no_parse _ 0%nat
                (mkCall POST "/tasks" None all_callbacks "post:/tasks:1000")
                (OtherErr (JStr "boom")) 1050 st' e' Hok H1 H2 H3 Hstep)
    as (H & _); done.
Defined.

Lemma requestId_of_default m url config now :
  default "" (config ≫= requestId) = "" →
  requestId_of m url config now = default_requestId m url now.
Proof. intros H. unfold requestId_of, str_or. by rewrite H. Qed.

Lemma default_requestId_inj m url now now' :
  default_requestId m url now = default_requestId m url now' → now = now'.
Proof.
  unfold default_requestId. intros H.
  repeat apply String.app_inj in H. by apply pretty_Z_inj in H.
Qed.

Lemma issue_registers JSON_parse m url body config cbs now st st' evs :
  registry_ok st →
  step JSON_parse (Issue m url body config cbs now) st = Some (st', evs) →
  is_Some (inflight st' !! nextSource st) →
  cancelTokens st' !! requestId_of m url config now = Some (nextSource st)
  ∧ nextSource st ∉ cancelled st'.
Proof.
  intros Hok Hs Hsent.
  pose proof (step_shape _ _ _ _ _ Hs) as (Hcanc & _ & Hreg). simpl in *.
  split.
  - destruct Hreg as [[-> _]|[_ Hin]]; [by rewrite lookup_insert_eq|].
    rewrite Hin in Hsent. apply (inflight_numbered _ _ _ _ Hok) in Hsent. lia.
  - rewrite Hcanc. unfold cancel_prior. intros Hin.
    destruct (cancelTokens st !! requestId_of m url config now) as [h|] eqn:Hh.
    + apply elem_of_union in Hin as [Heq%elem_of_singleton|Hin].
      * rewrite <- Heq in Hh. apply (registered_below _ _ _ _ Hok) in Hh. lia.
      * apply (cancelled_below _ _ _ _ Hok) in Hin. lia.
    + apply (cancelled_below _ _ _ _ Hok) in Hin. lia.
Qed.

(** X17: when the caller gives no request identifier the dispatcher makes one
    up from the verb, the URL and the clock.  Two such calls with the same
    verb and URL share the identifier exactly when they are made in the same
    millisecond, and then the second cancels the first although nobody asked
    for it; made at different instants, the second leaves the first alone. *)
Theorem default_request_id_per_millisecond JSON_parse m url b1 b2 config1 config2
        cb1 cb2 now now' st st1 e1 st2 e2 :
  registry_ok st →
  default "" (config1 ≫= requestId) = "" →
  default "" (config2 ≫= requestId) = "" →
  step JSON_parse (Issue m url b1 config1 cb1 now) st = Some (st1, e1) →
  is_Some (inflight st1 !! nextSource st) →
  step JSON_parse (Issue m url b2 config2 cb2 now') st1 = Some (st2, e2) →
  (requestId_of m url config1 now = requestId_of m url config2 now' ↔ now = now')
  ∧ (nextSource st ∈ cancelled st2 ↔ now = now').
Proof.
  intros Hok H1 H2 Hs1 Hsent Hs2.
  rewrite (requestId_of_default _ _ _ _ H1), (requestId_of_default _ _ _ _ H2).
  assert (Hid : default_requestId m url now = default_requestId m url now'
                ↔ now = now').
  { split; [apply default_requestId_inj | intros Heq; by rewrite Heq]. }
  split; [done|].
  destruct (issue_registers _ _ _ _ _ _ _ _ _ _ Hok Hs1 Hsent) as [Hreg Hlive].
  rewrite (requestId_of_default _ _ _ _ H1) in Hreg.
  assert (Hok1 : registry_ok st1) by exact (step_registry_ok _ (Issue m url b1 config1 cb1 now) _ _ _
                Hok eq_refl Hs1).
  pose proof (step_shape _ _ _ _ _ Hs2) as (Hcanc & _). simpl in Hcanc.
  rewrite (requestId_of_default _ _ _ _ H2) in Hcanc.
  rewrite Hcanc. unfold cancel_prior. split.
  - intros Hin. apply Hid.
    destruct (cancelTokens st1 !! default_requestId m url now') as [h|] eqn:Hh;
      [|done].
    apply elem_of_union in Hin as [Heq%elem_of_singleton|Hin]; [|done].
    rewrite <- Heq in Hh.
    by apply (registered_once _ _ _ _ Hok1 _ _ _ Hreg Hh).
  - intros <-. rewrite Hreg. apply elem_of_union. left. by apply elem_of_singleton.
Qed.

Lemma default_request_id_per_millisecond_witness :
  match step no_parse (Issue GET "/tasks" JUndefined None None 1000) (initial ∅) with
  | Some (st1, _) =>
      match step no_parse (Issue GET "/tasks" JUndefined None all_callbacks 1000)
              st1 with
      | Some (st2, _) => 0%nat ∈ cancelled st2
      | None => False
      end
  | None => False
  end.
Proof.
  match goal with
  | |- match ?s with _ => _ end =>
      destruct s as [[st1 e1]|] eqn:Hs1; [|by vm_compute in Hs1]
  end.
  match goal with
  | |- match ?s with _ => _ end =>
      destruct s as [[st2 e2]|] eqn:Hs2;
        [|unfold step, exec in Hs2; by repeat case_match]
  end.
  apply (default_request_id_per_millisecond no_parse GET "/tasks" JUndefined
           JUndefined None None None all_callbacks 1000 1000 (initial ∅)
           st1 e1 st2 e2 (initial_registry_ok ∅) eq_refl eq_refl Hs1);
    [|exact Hs2|reflexivity].
  vm_compute in Hs1. injection Hs1 as <- _. by eexists.
Defined.

(** X18: in a state that respects the registry discipline,
    [clearActiveRequests] empties the registry and leaves every suspended call
    with a cancelled source, without touching the cache, the storage or the
    flag; under the transport's contract each of those calls can then only
    settle as cancelled. *)
Theorem clearActiveRequests_cancels_every_pending_call JSON_parse st st' evs :
  registry_ok st →
  step JSON_parse ClearActiveRequests st = Some (st', evs) →
  cancelTokens st' = ∅
  ∧ (∀ c, is_Some (inflight st !! c) → c ∈ cancelled st')
  ∧ inflight st' = inflight st
  ∧ cacheManager st' = cacheManager st
  ∧ localStorage st' = localStorage st
  ∧ isRedirecting st' = isRedirecting st
  ∧ ∀ rest st'' evs'' c o t,
      is_Some (inflight st !! c) →
      run_axios JSON_parse rest st' = Some (st'', evs'') →
      Settle c o t ∈ rest → ∃ msg, o = Rejected (Cancel msg).
Proof.
  intros Hok Hs.
  assert (Hall : ∀ c, is_Some (inflight st !! c) → c ∈ cancelled st').
  { intros c [call Hc].
    pose proof (step_shape _ _ _ _ _ Hs) as (_ & -> & _).
    destruct (decide (c ∈ cancelled st)) as [|Hlive];
      [apply elem_of_union; by right|].
    apply elem_of_union. left. apply elem_of_map_img.
    exists (call_requestId call). by apply (inflight_registered _ _ _ _ Hok). }
  split_and!; [| done | ..].
  1-5: destruct st as [toks canc nxt flag ls cm infl]; by crunch Hs.
  intros rest st'' evs'' c o t Hc Hrun Hin.
  eapply run_axios_cancelled; [|exact Hrun|exact Hin]. by apply Hall.
Qed.

Lemma clearActiveRequests_cancels_every_pending_call_witness :
  match run_axios no_parse
          [Issue GET "/tasks" JUndefined None None 1000;
           Issue POST "/tasks" JNull None None 1001] (initial ∅) with
  | Some (st, _) =>
      match step no_parse ClearActiveRequests st with
      | Some (st', _) =>
          cancelTokens st' = ∅ ∧ 0%nat ∈ cancelled st' ∧ 1%nat ∈ cancelled st'
      | None => False
      end
  | None => False
  end.
Proof.
  destruct (run_axios no_parse
              [Issue GET "/tasks" JUndefined None None 1000;
               Issue POST "/tasks" JNull None None 1001] (initial ∅))
    as [[st evs]|] eqn:Hrun; [|by vm_compute in Hrun].
  pose proof (run_axios_registry_ok _ _ _ _ _ (initial_registry_ok ∅) Hrun) as Hok.
  vm_compute in Hrun. injection Hrun as <- <-.
  match goal with
  | |- match ?s with _ => _ end =>
      destruct s as [[st' e']|] eqn:Hstep; [|by vm_compute in Hstep]
  end.
  destruct (clearActiveRequests_cancels_every_pending_call no_parse _ st' e'
              Hok Hstep) as (H1 & H2 & _).
  split_and!; [exact H1 | apply H2 | apply H2]; by eexists.
Defined.

(** ** useRequestCancellation *)

(** What cancelling a list of identifiers does to the dispatcher. *)
Lemma cancelEach_spec (ids : list string) (st : State) :
  RequestCancellation.cancelEach ids st
  = (tt,
     set_cancelled
       (fun canc =>
          map_img (filter (fun kv : string * nat => kv.1 ∈ ids) (cancelTokens st))
          ∪ canc)
       (set_cancelTokens (filter (fun kv : string * nat => kv.1 ∉ ids)) st),
     []).
Proof.
  revert st. induction ids as [|id ids IH]; intros st.
  - destruct st as [toks canc nxt flag ls cm infl].
    unfold set_cancelled, set_cancelTokens. simpl. unfold ret. do 3 f_equal.
    + apply map_eq. intros k. apply option_eq. intros h.
      rewrite map_lookup_filter_Some. simpl. rewrite elem_of_nil. tauto.
    + apply set_eq. intros h. rewrite elem_of_union, elem_of_map_img.
      split; [by intros ?; right|].
      intros [(k & [_ Hk]%map_lookup_filter_Some)|Hh]; [|done].
      simpl in Hk. by apply elem_of_nil in Hk.
  - cbn [RequestCancellation.cancelEach]. unfold bind at 1.
    destruct st as [toks canc nxt flag ls cm infl].
    assert (Hc : cancelRequest id (mkState toks canc nxt flag ls cm infl)
                 = (tt, mkState (delete id toks) (cancel_prior id toks canc) nxt
                                flag ls cm infl, [])).
    { unfold cancel_prior, cancelRequest. unfold_ops. simpl.
      destruct (toks !! id) eqn:Hid; simpl; [done|].
      by rewrite delete_id. }
    rewrite Hc, IH. unfold set_cancelled, set_cancelTokens. simpl.
    do 2 f_equal. f_equal.
    + apply map_eq. intros k. apply option_eq. intros h.
      rewrite !map_lookup_filter_Some, lookup_delete_Some. simpl.
      rewrite not_elem_of_cons.
      split; [intros [[? ?] ?]|intros [? [? ?]]]; split_and!; try done; congruence.
    + apply set_eq. intros h. unfold cancel_prior.
      rewrite !elem_of_union, !elem_of_map_img. split.
      * intros [(k & [[Hne Hk]%lookup_delete_Some Hin]%map_lookup_filter_Some)|Hh].
        -- left. exists k. apply map_lookup_filter_Some. split; [done|].
           simpl in *. by right.
        -- destruct (toks !! id) as [h0|] eqn:Hid; [|by right].
           apply elem_of_union in Hh as [->%elem_of_singleton|Hh]; [|by right].
           left. exists id. apply map_lookup_filter_Some. split; [done|].
           apply list_elem_of_here.
      * intros [(k & [Hk Hin]%map_lookup_filter_Some)|Hh].
        -- simpl in Hin. destruct (decide (k = id)) as [->|Hne].
           ++ right. rewrite Hk. apply elem_of_union. left.
              by apply elem_of_singleton.
           ++ left. exists k. apply map_lookup_filter_Some.
              apply elem_of_cons in Hin as [?|Hin]; [done|].
              split; [|done]. apply lookup_delete_Some. split; [congruence|done].
        -- right. destruct (toks !! id); [|done]. apply elem_of_union. by right.
Qed.

(** X19: [cancelAllRequests] of the hook, and the clean-up on unmount, cancel
    exactly the suspended calls whose identifier the hook tracks: those are
    left with a cancelled source, every other call and registration is left as
    it was, the discipline of the registry is kept, nothing is logged, and
    [cancelAllRequests] forgets all tracked identifiers. *)
Theorem hook_cancels_tracked_requests (ids ids' : list string) (st st' : State)
        (evs : list Event) :
  registry_ok st →
  RequestCancellation.cancelAllRequests ids st = (ids', st', evs) →
  ids' = [] ∧ evs = []
  ∧ RequestCancellation.unmount ids st = (tt, st', [])
  ∧ registry_ok st'
  ∧ (∀ c call, inflight st !! c = Some call → call_requestId call ∈ ids →
               c ∈ cancelled st')
  ∧ (∀ c call, inflight st !! c = Some call → call_requestId call ∉ ids →
               (c ∈ cancelled st' ↔ c ∈ cancelled st))
  ∧ (∀ id, id ∈ ids → cancelTokens st' !! id = None)
  ∧ (∀ id, id ∉ ids → cancelTokens st' !! id = cancelTokens st !! id)
  ∧ st' = set_cancelled (fun _ => cancelled st')
            (set_cancelTokens (fun _ => cancelTokens st') st).
Proof.
  intros Hok Hrun. unfold RequestCancellation.cancelAllRequests in Hrun.
  unfold bind, ret in Hrun. rewrite cancelEach_spec in Hrun. simpl in Hrun.
  unfold RequestCancellation.unmount. rewrite cancelEach_spec.
  destruct st as [toks canc nxt flag ls cm infl].
  unfold set_cancelled, set_cancelTokens in *. simpl in *. simplify_eq. simpl.
  destruct Hok as [Hlive Honce Hbelow Hcanc Hreg Hnum]. simpl in *.
  split_and!; try done.
  - constructor; simpl.
    + intros id h [Hh Hid]%map_lookup_filter_Some. simpl in *.
      rewrite elem_of_union, elem_of_map_img. intros [(k & Hk)|Hin].
      * apply map_lookup_filter_Some in Hk as [Hk Hkin]. simpl in *.
        by rewrite (Honce _ _ _ Hk Hh) in Hkin.
      * by apply (Hlive _ _ Hh).
    + intros id1 id2 h [H1 _]%map_lookup_filter_Some [H2 _]%map_lookup_filter_Some.
      by eapply Honce.
    + intros id h [Hh _]%map_lookup_filter_Some. by eapply Hbelow.
    + intros h. rewrite elem_of_union, elem_of_map_img.
      intros [(k & [Hk _]%map_lookup_filter_Some)|Hin];
        [by eapply Hbelow | by apply Hcanc].
    + intros c call Hc Hn. rewrite not_elem_of_union, elem_of_map_img in Hn.
      destruct Hn as [Hn1 Hn2]. pose proof (Hreg _ _ Hc Hn2) as Hr.
      apply map_lookup_filter_Some. split; [done|]. simpl. intros Hin.
      apply Hn1. exists (call_requestId call).
      by apply map_lookup_filter_Some.
    + done.
  - intros c call Hc Hin. rewrite elem_of_union, elem_of_map_img.
    destruct (decide (c ∈ canc)) as [|Hn]; [by right|]. left.
    exists (call_requestId call). apply map_lookup_filter_Some.
    split; [by apply Hreg | done].
  - intros c call Hc Hnin. rewrite elem_of_union, elem_of_map_img.
    split; [|by intros ?; right].
    intros [(k & [Hk Hkin]%map_lookup_filter_Some)|Hin]; [|done]. simpl in *.
    destruct (decide (c ∈ canc)) as [|Hn]; [done|]. exfalso.
    pose proof (Hreg _ _ Hc Hn) as Hr.
    by rewrite (Honce _ _ _ Hk Hr) in Hkin.
  - intros id Hin. apply map_lookup_filter_None. right. intros h _. simpl. tauto.
  - intros id Hnin. apply option_eq. intros h.
    rewrite map_lookup_filter_Some. simpl. tauto.
Qed.

Lemma hook_cancels_tracked_requests_witness :
  match run_axios no_parse
          [Issue GET "/tasks" JUndefined list_request all_callbacks 1000;
           Issue POST "/tasks" JNull None None 1001] (initial ∅) with
  | Some (st, _) =>
      0%nat ∈ cancelled (RequestCancellation.cancelAllRequests ["list:123"] st).1.2
      ∧ 1%nat ∉ cancelled (RequestCancellation.cancelAllRequests ["list:123"] st).1.2
  | None => False
  end.
Proof.
  destruct (run_axios no_parse
              [Issue GET "/tasks" JUndefined list_request all_callbacks 1000;
               Issue POST "/tasks" JNull None None 1001] (initial ∅))
    as [[st evs]|] eqn:Hrun; [|by vm_compute in Hrun].
  pose proof (run_axios_registry_ok _ _ _ _ _ (initial_registry_ok ∅) Hrun) as Hok.
  vm_compute in Hrun. injection Hrun as <- <-.
  destruct (RequestCancellation.cancelAllRequests ["list:123"] _)
    as [[ids' st'] e'] eqn:Hhook.
  destruct (hook_cancels_tracked_requests _ _ _ _ _ Hok Hhook)
    as (_ & _ & _ & _ & Hin & Hout & _).
  simpl. split.
  - apply (Hin 0%nat (mkCall GET "/tasks" list_request all_callbacks "list:123"));
      [reflexivity | apply list_elem_of_here].
  - rewrite (Hout 1%nat (mkCall POST "/tasks" None None "post:/tasks:1001"));
      [by apply (bool_decide_unpack _) | reflexivity |].
    by apply (bool_decide_unpack _).
Defined.

Lemma generateRequestId_nonempty (prefix : string) (now : Z) (random : string) :
  prefix +:+ ":" +:+ pretty now +:+ ":" +:+ random ≠ "".
Proof. destruct prefix; discriminate. Qed.

(** X20: an identifier obtained from [generateRequestId] is tracked by the
    hook, so a call issued under it that is still suspended when the
    component unmounts with that list ends up with a cancelled source, and
    under the transport's contract can only settle as cancelled. *)
Theorem generated_id_is_cancelled_on_unmount JSON_parse prefix t random ids id ids1
        m url body cfg cbs now st st1 evs1 st2 evs2 :
  registry_ok st →
  RequestCancellation.generateRequestId prefix t random ids = (id, ids1) →
  requestId cfg = Some id →
  step JSON_parse (Issue m url body (Some cfg) cbs now) st = Some (st1, evs1) →
  is_Some (inflight st1 !! nextSource st) →
  RequestCancellation.unmount ids1 st1 = (tt, st2, evs2) →
  id ∈ ids1
  ∧ nextSource st ∈ cancelled st2
  ∧ inflight st2 = inflight st1
  ∧ ∀ rest st3 evs3 o t',
      run_axios JSON_parse rest st2 = Some (st3, evs3) →
      Settle (nextSource st) o t' ∈ rest → ∃ msg, o = Rejected (Cancel msg).
Proof.
  intros Hok Hgen Hcfg Hs Hsent Hun.
  unfold RequestCancellation.generateRequestId in Hgen. simplify_eq.
  set (id := prefix +:+ ":" +:+ pretty t +:+ ":" +:+ random) in *.
  assert (Hid : requestId_of m url (Some cfg) now = id).
  { unfold requestId_of, str_or. simpl. rewrite Hcfg. simpl.
    pose proof (generateRequestId_nonempty prefix t random) as Hne.
    apply String.eqb_neq in Hne. fold id in Hne. by rewrite Hne. }
  assert (Htracked : id ∈ ids ++ [id])
    by (apply elem_of_app; right; apply list_elem_of_here).
  assert (Hok1 : registry_ok st1)
    by exact (step_registry_ok _ (Issue m url body (Some cfg) cbs now) _ _ _
                Hok eq_refl Hs).
  destruct (issue_registers _ _ _ _ _ _ _ _ _ _ Hok Hs Hsent) as [Hreg Hlive].
  rewrite Hid in Hreg.
  assert (Hcancelled : nextSource st ∈ cancelled st2 ∧ inflight st2 = inflight st1).
  { unfold RequestCancellation.unmount in Hun. rewrite cancelEach_spec in Hun.
    destruct st1 as [toks canc nxt flag ls cm infl].
    unfold set_cancelled, set_cancelTokens in Hun. simpl in *. simplify_eq. simpl.
    split; [|done]. apply elem_of_union. left. apply elem_of_map_img.
    eexists. apply map_lookup_filter_Some. split; [exact Hreg | exact Htracked]. }
  destruct Hcancelled as [Hc Hin].
  split_and!; try done.
  intros rest st3 evs3 o t' Hrun Hset.
  by eapply run_axios_cancelled.
Qed.

Lemma generated_id_is_cancelled_on_unmount_witness :
  match step no_parse
          (Issue GET "/tasks" JUndefined
             (Some (mkRequestOptions None (Some "tasks:1000:k3x9q2a") JUndefined ∅))
             None 1001)
          (initial ∅) with
  | Some (st1, _) =>
      0%nat ∈ cancelled (RequestCancellation.unmount ["tasks:1000:k3x9q2a"] st1).1.2
  | None => False
  end.
Proof.
  match goal with
  | |- match ?s with _ => _ end =>
      destruct s as [[st1 e1]|] eqn:Hs; [|by vm_compute in Hs]
  end.
  destruct (RequestCancellation.unmount ["tasks:1000:k3x9q2a"] st1)
    as [[[] st2] e2] eqn:Hun.
  simpl.
  apply (generated_id_is_cancelled_on_unmount no_parse "tasks" 1000 "k3x9q2a" []
           "tasks:1000:k3x9q2a" ["tasks:1000:k3x9q2a"] GET "/tasks" JUndefined
           (mkRequestOptions None (Some "tasks:1000:k3x9q2a") JUndefined ∅)
           None 1001 (initial ∅) st1 e1 st2 e2 (initial_registry_ok ∅));
    [by vm_compute | reflexivity | exact Hs | | exact Hun].
  vm_compute in Hs. injection Hs as <- _. by eexists.
Defined.

Lemma cancelEach_ext (ids1 ids2 : list string) (st : State) :
  (∀ id, id ∈ ids1 ↔ id ∈ ids2) →
  RequestCancellation.cancelEach ids1 st = RequestCancellation.cancelEach ids2 st.
Proof.
  intros Hext. rewrite !cancelEach_spec.
  destruct st as [toks canc nxt flag ls cm infl].
  unfold set_cancelled, set_cancelTokens. simpl.
  assert (H1 : filter (fun kv : string * nat => kv.1 ∉ ids1) toks
               = filter (fun kv : string * nat => kv.1 ∉ ids2) toks).
  { apply map_filter_ext. intros k h _. simpl. by rewrite Hext. }
  assert (H2 : filter (fun kv : string * nat => kv.1 ∈ ids1) toks
               = filter (fun kv : string * nat => kv.1 ∈ ids2) toks).
  { apply map_filter_ext. intros k h _. simpl. by rewrite Hext. }
  by rewrite H1, H2.
Qed.

(** X21: [cancelRequest] of the hook cancels the request in the dispatcher
    and stops tracking its identifier while keeping the others; cancelling a
    tracked request first and unmounting afterwards leaves the dispatcher in
    the same state as unmounting straight away. *)
Theorem hook_cancelRequest_then_unmount (id : string) (ids ids' : list string)
        (st st1 : State) (evs1 : list Event) :
  id ∈ ids →
  RequestCancellation.cancelRequest id ids st = (ids', st1, evs1) →
  evs1 = []
  ∧ cancelRequest id st = (tt, st1, [])
  ∧ (id ∉ ids')
  ∧ (∀ x, x ≠ id → (x ∈ ids' ↔ x ∈ ids))
  ∧ RequestCancellation.unmount ids' st1 = RequestCancellation.unmount ids st.
Proof.
  intros Hin Hc. unfold RequestCancellation.cancelRequest in Hc.
  unfold bind, ret in Hc.
  destruct (cancelRequest id st) as [[[] st1'] e1] eqn:Hcr.
  assert (He : e1 = []).
  { unfold cancelRequest in Hcr. unfold_ops.
    by repeat (case_match; simpl in * ); simplify_eq. }
  subst e1. simpl in Hc. simplify_eq.
  assert (Hmem : ∀ x, x ∈ List.filter (fun id' => negb (String.eqb id' id)) ids
                      ↔ x ∈ ids ∧ x ≠ id).
  { intros x. rewrite !list_elem_of_In, filter_In, negb_true_iff.
    by rewrite String.eqb_neq. }
  split_and!; try done.
  - rewrite Hmem. tauto.
  - intros x Hx. rewrite Hmem. tauto.
  - unfold RequestCancellation.unmount.
    transitivity (RequestCancellation.cancelEach
                    (id :: List.filter (fun id' => negb (String.eqb id' id)) ids) st).
    + cbn [RequestCancellation.cancelEach]. unfold bind at 1. rewrite Hcr.
      by destruct (RequestCancellation.cancelEach _ st1) as [[[] ?] ?].
    + apply cancelEach_ext. intros x. rewrite elem_of_cons, Hmem.
      destruct (decide (x = id)) as [->|]; tauto.
Qed.

Lemma hook_cancelRequest_then_unmount_witness :
  RequestCancellation.unmount
    (RequestCancellation.cancelRequest "a" ["a"; "b"] (initial ∅)).1.1
    (RequestCancellation.cancelRequest "a" ["a"; "b"] (initial ∅)).1.2
  = RequestCancellation.unmount ["a"; "b"] (initial ∅).
Proof.
  destruct (RequestCancellation.cancelRequest "a" ["a"; "b"] (initial ∅))
    as [[ids' st1] e1] eqn:Hc.
  simpl.
  apply (hook_cancelRequest_then_unmount "a" ["a"; "b"] ids' (initial ∅) st1 e1);
    [apply list_elem_of_here | exact Hc].
Defined.

(** ** The teardown in detail *)

(** X22: what the teardown does.  When a suspended call is rejected with
    status 401 while the flag is down, the flag is raised; the credential
    record is removed from the storage and every other key, the tenant
    identifier among them, is kept; the registry is emptied and every source
    that was registered is cancelled; the cache is not touched; the redirect is
    scheduled 100 ms later to the tenant's login page, or to ["/"] when no
    tenant identifier is stored; and the failing call still reports its
    normalized error to its caller. *)
Theorem teardown_effects JSON_parse st c call e now st' evs :
  inflight st !! c = Some call →
  isRedirecting st = false →
  status_of e = Some 401 →
  step JSON_parse (Settle c (Rejected e) now) st = Some (st', evs) →
  isRedirecting st' = true
  ∧ localStorage st' = delete "nepali_user" (localStorage st)
  ∧ localStorage st' !! "nepali_app_client" = localStorage st !! "nepali_app_client"
  ∧ cancelTokens st' = ∅
  ∧ cancelled st' = map_img (cancelTokens st) ∪ cancelled st
  ∧ cacheManager st' = cacheManager st
  ∧ SetTimeout 100 (login_href (localStorage st !! "nepali_app_client")) ∈ evs
  ∧ ToastError "🔒 Token expired. Please login again." ∈ evs
  ∧ Completed c (ThrowsApiError (handleError e)) ∈ evs
  ∧ (supplied (call_callbacks call) onError = true →
     CallOnError c (handleError e) ∈ evs).
Proof.
  intros Hc Hflag H401 Hs.
  destruct st as [toks canc nxt flag ls cm infl]. simpl in *. subst flag.
  unfold step in Hs. rewrite Hc in Hs.
  destruct e as [msg|ax|msg]; try discriminate.
  unfold_ops. rewrite H401 in Hs.
  rewrite bool_decide_eq_true_2 in Hs by done. simpl in Hs.
  rewrite lookup_delete_ne in Hs by done.
  destruct (supplied (call_callbacks call) onError) eqn:He,
           (supplied (call_callbacks call) onFinally) eqn:Hf;
    simpl in Hs; simplify_eq; simpl;
    (split_and!; try done;
     try (by rewrite lookup_delete_ne);
     try (intros _);
     repeat first [apply list_elem_of_here | apply list_elem_of_further]).
Qed.

Lemma teardown_effects_witness :
  match run no_parse [Issue GET "/tasks" JUndefined None None 1000]
          (initial signed_in) with
  | Some (st, _) =>
      match step no_parse (Settle 0 (Rejected token_expired) 1050) st with
      | Some (st', evs) =>
          localStorage st' !! "nepali_user" = None
          ∧ localStorage st' !! "nepali_app_client" = Some "acme"
          ∧ SetTimeout 100 "/acme/login" ∈ evs
      | None => False
      end
  | None => False
  end.
Proof.
  destruct (run no_parse [Issue GET "/tasks" JUndefined None None 1000]
              (initial signed_in)) as [[st evs]|] eqn:Hrun; [|by vm_compute in Hrun].
  vm_compute in Hrun. injection Hrun as <- <-.
  match goal with
  | |- match ?s with _ => _ end =>
      destruct s as [[st' e']|] eqn:Hstep; [|by vm_compute in Hstep]
  end.
  destruct (fun H1 H2 H3 =>
              teardown_effects no_parse _ 0%nat
                (mkCall GET "/tasks" None None "get:/tasks:1000")
                token_expired 1050 st' e' H1 H2 H3 Hstep)
    as (_ & H1 & H2 & _ & _ & _ & H3 & _); [reflexivity..|].
  split_and!.
  - rewrite H1. apply lookup_delete_eq.
  - rewrite H2. reflexivity.
  - exact H3.
Defined.

Lemma step_teardown_bound JSON_parse a st st' evs :
  step JSON_parse a st = Some (st', evs) →
  (Nat.b2n (isRedirecting st) + count is_redirect_timer evs
   ≤ Nat.b2n (isRedirecting st') + Nat.b2n (is_reset a))%nat
  ∧ count is_credential_removal evs = count is_redirect_timer evs.
Proof.
  intros Hs. destruct (is_external_control a) eqn:Hext.
  - destruct st as [toks canc nxt flag ls cm infl].
    destruct a; try discriminate; crunch Hs; unfold count; simpl;
      destruct flag; simpl; split; lia.
  - destruct (step_teardown _ _ _ _ _ Hext Hs) as (H1 & _ & H3).
    split; lia.
Qed.

(** X23: over any sequence of turns, external controls included, the teardown
    runs at most once more than [resetRedirectFlag] is called (and not even
    that once when the flag is already up at the start), and each run removes
    the credentials exactly once. *)
Theorem teardowns_bounded_by_resets JSON_parse acts st st' evs :
  run JSON_parse acts st = Some (st', evs) →
  (Nat.b2n (isRedirecting st) + count is_redirect_timer evs
   ≤ 1 + length (List.filter is_reset acts))%nat
  ∧ count is_credential_removal evs = count is_redirect_timer evs.
Proof.
  intros Hrun.
  assert (Hinv : (Nat.b2n (isRedirecting st) + count is_redirect_timer evs
                  ≤ Nat.b2n (isRedirecting st') + length (List.filter is_reset acts))%nat
                 ∧ count is_credential_removal evs = count is_redirect_timer evs).
  { revert st st' evs Hrun. induction acts as [|a acts IH]; intros st st' evs Hrun.
    - simpl in Hrun. simplify_eq. unfold count. simpl. split; lia.
    - cbn [run] in Hrun.
      destruct (step JSON_parse a st) as [[st1 e1]|] eqn:Hs; [|done].
      destruct (run JSON_parse acts st1) as [[st2 e2]|] eqn:Hr; [|done].
      simplify_eq.
      destruct (step_teardown_bound _ _ _ _ _ Hs) as [H1 H2].
      destruct (IH _ _ _ Hr) as [H3 H4].
      rewrite !count_app. cbn [List.filter].
      destruct (is_reset a); simpl in *; split; lia. }
  destruct Hinv as [H1 H2]. split; [|done].
  destruct (isRedirecting st'); simpl in *; lia.
Qed.

Lemma teardowns_bounded_by_resets_witness :
  match run no_parse
          [ Issue GET "/tasks" JUndefined None all_callbacks 1000;
            Settle 0 (Rejected token_expired) 1050;
            ResetRedirectFlag;
            Issue GET "/tasks" JUndefined None all_callbacks 2000;
            Settle 1 (Rejected token_expired) 2050 ]
          (initial signed_in) with
  | Some (_, evs) =>
      (count is_redirect_timer evs ≤ 2)%nat
      ∧ count is_credential_removal evs = count is_redirect_timer evs
  | None => False
  end.
Proof.
  destruct (run no_parse
              [ Issue GET "/tasks" JUndefined None all_callbacks 1000;
                Settle 0 (Rejected token_expired) 1050;
                ResetRedirectFlag;
                Issue GET "/tasks" JUndefined None all_callbacks 2000;
                Settle 1 (Rejected token_expired) 2050 ]
              (initial signed_in)) as [[st' evs]|] eqn:Hrun;
    [|by vm_compute in Hrun].
  destruct (teardowns_bounded_by_resets _ _ _ _ _ Hrun) as [H1 H2].
  split; [exact H1 | exact H2].
Defined.

(** ** AuthContext and the dispatcher *)

Lemma stringify_object_nonempty (props : list (string * JsValue)) :
  template_of (JSON_stringify (JObj props)) ≠ "".
Proof. cbn [JSON_stringify template_of default]. discriminate. Qed.

Lemma login_stores_record (userData : JsValue) (a a' : AuthContext.t) (ok : bool)
      (st st1 : State) (evs1 : list Event) :
  AuthContext.login userData a st = ((a', ok), st1, evs1) →
  localStorage st1 !! "nepali_user" = Some (template_of (JSON_stringify userData))
  ∧ AuthContext.user a' = userData
  ∧ AuthContext.isAuthenticated a' = true
  ∧ evs1 = []
  ∧ (ok = true → isRedirecting st1 = false)
  ∧ cancelTokens st1 = cancelTokens st ∧ cancelled st1 = cancelled st
  ∧ inflight st1 = inflight st ∧ cacheManager st1 = cacheManager st.
Proof.
  intros Hl. destruct st as [toks canc nxt flag ls cm infl].
  unfold AuthContext.login in Hl. unfold_ops.
  destruct userData; simpl in Hl;
    repeat (case_match; simpl in * ); simplify_eq; simpl;
    rewrite ?lookup_insert_ne by done; rewrite lookup_insert_eq; done.
Qed.

(** X24: after [login(userData)] with a user object that carries a token and
    a token type, every call the dispatcher sends goes out with
    [Authorization: <tokenType> <token>], provided [JSON.parse] reads back
    what [JSON.stringify] wrote; the login logs nothing, leaves the registry,
    the suspended calls and the cache alone, and when it runs to its end the
    session-expiry flag is down again. *)
Theorem login_authorizes_later_calls JSON_parse props token tokenType a a' ok
        st st1 evs1 m url body config cbs now st2 evs2 c m' url' body' hdrs :
  js_get (JObj props) "token" = JStr token → token ≠ "" →
  js_get (JObj props) "tokenType" = JStr tokenType → tokenType ≠ "" →
  JSON_parse (template_of (JSON_stringify (JObj props))) = Some (JObj props) →
  AuthContext.login (JObj props) a st = ((a', ok), st1, evs1) →
  step JSON_parse (Issue m url body config cbs now) st1 = Some (st2, evs2) →
  Transport c m' url' body' hdrs ∈ evs2 →
  hdrs = <["Authorization" := tokenType +:+ " " +:+ token]> (headers_of config)
  ∧ (ok = true → isRedirecting st1 = false)
  ∧ AuthContext.user a' = JObj props
  ∧ AuthContext.isAuthenticated a' = true
  ∧ inflight st1 = inflight st
  ∧ cacheManager st1 = cacheManager st.
Proof.
  intros Htok Htokne Hty Htyne Hparse Hl Hs Hin.
  destruct (login_stores_record _ _ _ _ _ _ _ Hl)
    as (Hrec & Hu & Hauth & _ & Hflag & _ & _ & Hinf & Hcm).
  split_and!; try done.
  rewrite (issue_transport_headers _ _ _ _ _ _ _ _ _ _ _ _ _ _ _ Hs Hin).
  apply (outgoing_headers_credentials _ _ _ _ (JObj props) token tokenType Hrec);
    [apply stringify_object_nonempty | done | | | | ].
  - rewrite Htok. simpl. apply negb_true_iff. by apply String.eqb_neq.
  - rewrite Hty. simpl. apply negb_true_iff. by apply String.eqb_neq.
  - by rewrite Hty.
  - by rewrite Htok.
Qed.

Lemma login_authorizes_later_calls_witness :
  match AuthContext.login sample_user AuthContext.initialState
          (set_isRedirecting true (initial ∅)) with
  | (_, st1, _) =>
      match step sample_parse (Issue GET "/tasks" JUndefined None None 1000) st1 with
      | Some (_, evs2) =>
          ∀ c m' url' body' hdrs,
            Transport c m' url' body' hdrs ∈ evs2 →
            hdrs !! "Authorization" = Some "Bearer abc123"
      | None => False
      end
  end.
Proof.
  destruct (AuthContext.login sample_user AuthContext.initialState
              (set_isRedirecting true (initial ∅))) as [[[a' ok] st1] e1] eqn:Hl.
  match goal with
  | |- match ?s with _ => _ end =>
      destruct s as [[st2 e2]|] eqn:Hs;
        [|unfold step, exec in Hs; by repeat case_match]
  end.
  intros c m' url' body' hdrs Hin.
  destruct (login_authorizes_later_calls sample_parse
              [("id", JNum 7); ("token", JStr "abc123"); ("tokenType", JStr "Bearer")]
              "abc123" "Bearer" _ _ _ _ _ _ _ _ _ _ _ _ _ _ _ _ _ _ _
              eq_refl ltac:(discriminate) eq_refl ltac:(discriminate) eq_refl
              Hl Hs Hin) as (-> & _).
  apply lookup_insert_eq.
Defined.

(** X25: [logout] removes the credential record and nothing else: every other
    stored key, the tenant identifier among them, stays; the registry, the
    suspended calls, the cache (with whatever responses it holds) and the flag
    are left as they were; the provider is no longer authenticated and keeps
    its tenant; and the calls sent afterwards carry exactly the headers of
    their configuration, without [Authorization] from the interceptor. *)
Theorem logout_only_forgets_credentials JSON_parse a a' st st1 evs1 :
  AuthContext.logout a st = (a', st1, evs1) →
  a' = AuthContext.mk JNull (AuthContext.tenantSlug a) false
  ∧ st1 = set_localStorage (delete "nepali_user") st
  ∧ (∀ k, k ≠ "nepali_user" → localStorage st1 !! k = localStorage st !! k)
  ∧ evs1 = [StorageRemoveItem "nepali_user"]
  ∧ ∀ m url body config cbs now st2 evs2 c m' url' body' hdrs,
      step JSON_parse (Issue m url body config cbs now) st1 = Some (st2, evs2) →
      Transport c m' url' body' hdrs ∈ evs2 →
      hdrs = headers_of config.
Proof.
  intros Hl. unfold AuthContext.logout in Hl. unfold_ops. simpl in Hl.
  simplify_eq. split_and!; try done.
  - intros k Hk. simpl. by rewrite lookup_delete_ne.
  - intros m url body config cbs now st2 evs2 c m' url' body' hdrs Hs Hin.
    rewrite (issue_transport_headers _ _ _ _ _ _ _ _ _ _ _ _ _ _ _ Hs Hin).
    apply outgoing_headers_absent. simpl. apply lookup_delete_eq.
Qed.

(** X26: the provider's mount effect.  Started from the initial state, it
    ends authenticated exactly when a non-empty credential record is stored
    and [JSON.parse] accepts it, and then holds the parsed user; a record that
    does not parse is removed from the storage and reported on the console; in
    every other case the storage is left as it is.  The tenant identifier is
    the stored one, or the configured default when none is stored, and stays
    [null] when that string is empty. *)
Theorem mount_restores_session JSON_parse dflt st a' st1 evs1 :
  AuthContext.mount JSON_parse dflt AuthContext.initialState st = (a', st1, evs1) →
  (AuthContext.isAuthenticated a' = true
   ↔ ∃ s u, localStorage st !! "nepali_user" = Some s ∧ s ≠ ""
            ∧ JSON_parse s = Some u)
  ∧ (∀ s u, localStorage st !! "nepali_user" = Some s → s ≠ "" →
            JSON_parse s = Some u →
            AuthContext.user a' = u ∧ st1 = st ∧ evs1 = [])
  ∧ (∀ s, localStorage st !! "nepali_user" = Some s → s ≠ "" →
          JSON_parse s = None →
          st1 = set_localStorage (delete "nepali_user") st
          ∧ evs1 = [parse_failure; StorageRemoveItem "nepali_user"]
          ∧ AuthContext.user a' = JNull)
  ∧ (localStorage st !! "nepali_user" = None
     ∨ localStorage st !! "nepali_user" = Some "" →
     st1 = st ∧ evs1 = [] ∧ AuthContext.user a' = JNull)
  ∧ AuthContext.tenantSlug a'
    = match localStorage st !! "nepali_app_client" with
      | Some s => if String.eqb s "" then JNull else JStr s
      | None =>
          match dflt with
          | Some s => if String.eqb s "" then JNull else JStr s
          | None => JNull
          end
      end.
Proof.
  intros Hm. destruct st as [toks canc nxt flag ls cm infl].
  unfold AuthContext.mount, AuthContext.initialState in Hm. unfold_ops.
  simpl in *.
  destruct (ls !! "nepali_user") as [s|] eqn:Hu; simpl in Hm.
  - destruct (String.eqb s "") eqn:Hse; simpl in Hm.
    + apply String.eqb_eq in Hse as ->.
      assert (Hres : a'.(AuthContext.isAuthenticated) = false
                     ∧ AuthContext.user a' = JNull
                     ∧ st1 = mkState toks canc nxt flag ls cm infl ∧ evs1 = []
                     ∧ AuthContext.tenantSlug a'
                       = match ls !! "nepali_app_client" with
                         | Some s => if String.eqb s "" then JNull else JStr s
                         | None =>
                             match dflt with
                             | Some s => if String.eqb s "" then JNull else JStr s
                             | None => JNull
                             end
                         end).
      { repeat (case_match; simpl in * ); simplify_eq; simpl;
          first [congruence | by split_and!]. }
      destruct Hres as (Ha & Hus & -> & -> & Ht).
      split_and!; try done.
      * rewrite Ha. split; [done|]. intros (s & u & ? & ? & _). congruence.
      * intros s u ? ?. congruence.
      * intros s ? ?. congruence.
    + apply String.eqb_neq in Hse.
      destruct (JSON_parse s) as [u|] eqn:Hp; simpl in Hm.
      * assert (Hres : a'.(AuthContext.isAuthenticated) = true
                       ∧ AuthContext.user a' = u
                       ∧ st1 = mkState toks canc nxt flag ls cm infl ∧ evs1 = []
                       ∧ AuthContext.tenantSlug a'
                         = match ls !! "nepali_app_client" with
                           | Some s => if String.eqb s "" then JNull else JStr s
                           | None =>
                               match dflt with
                               | Some s => if String.eqb s "" then JNull else JStr s
                               | None => JNull
                               end
                           end).
        { repeat (case_match; simpl in * ); simplify_eq; simpl;
          first [congruence | by split_and!]. }
        destruct Hres as (Ha & Hus & -> & -> & Ht).
        split_and!; try done.
        -- rewrite Ha. split; [|done]. intros _. by exists s, u.
        -- intros s' u' ? ? ?. by simplify_eq.
        -- intros s' ? ? ?. simplify_eq.
        -- intros [?|?]; simplify_eq.
      * assert (Hres : a'.(AuthContext.isAuthenticated) = false
                       ∧ AuthContext.user a' = JNull
                       ∧ st1 = mkState toks canc nxt flag (delete "nepali_user" ls)
                                       cm infl
                       ∧ evs1 = [parse_failure; StorageRemoveItem "nepali_user"]
                       ∧ AuthContext.tenantSlug a'
                         = match ls !! "nepali_app_client" with
                           | Some s => if String.eqb s "" then JNull else JStr s
                           | None =>
                               match dflt with
                               | Some s => if String.eqb s "" then JNull else JStr s
                               | None => JNull
                               end
                           end).
        { repeat (case_match; simpl in * ); simplify_eq; simpl;
          first [congruence | by split_and!]. }
        destruct Hres as (Ha & Hus & -> & -> & Ht).
        split_and!; try done.
        -- rewrite Ha. split; [done|]. intros (s' & u & ? & ? & ?). simplify_eq.
        -- intros s' u' ? ? ?. simplify_eq.
        -- intros [?|?]; simplify_eq.
  - assert (Hres : a'.(AuthContext.isAuthenticated) = false
                   ∧ AuthContext.user a' = JNull
                   ∧ st1 = mkState toks canc nxt flag ls cm infl ∧ evs1 = []
                   ∧ AuthContext.tenantSlug a'
                     = match ls !! "nepali_app_client" with
                       | Some s => if String.eqb s "" then JNull else JStr s
                       | None =>
                           match dflt with
                           | Some s => if String.eqb s "" then JNull else JStr s
                           | None => JNull
                           end
                       end).
    { repeat (case_match; simpl in * ); simplify_eq; simpl;
          first [congruence | by split_and!]. }
    destruct Hres as (Ha & Hus & -> & -> & Ht).
    split_and!; try done.
    rewrite Ha. split; [done|]. intros (s & u & ? & _). congruence.
Qed.

Lemma mount_restores_session_witness :
  AuthContext.isAuthenticated
    (AuthContext.mount sample_parse None AuthContext.initialState
       (initial {[ "nepali_user" := sample_record ]})).1.1 = true.
Proof.
  destruct (AuthContext.mount sample_parse None AuthContext.initialState
              (initial {[ "nepali_user" := sample_record ]}))
    as [[a' st1] e1] eqn:Hm.
  destruct (mount_restores_session _ _ _ _ _ _ Hm) as (H & _).
  simpl. apply H. exists sample_record, sample_user.
  split_and!; [reflexivity | apply stringify_object_nonempty | reflexivity].
Defined.

Lemma logout_only_forgets_credentials_witness :
  (AuthContext.logout (AuthContext.mk sample_user (JStr "acme") true)
     (initial signed_in)).1.1
  = AuthContext.mk JNull (JStr "acme") false
  ∧ localStorage (AuthContext.logout (AuthContext.mk sample_user (JStr "acme") true)
                    (initial signed_in)).1.2 !! "nepali_app_client"
    = Some "acme".
Proof.
  destruct (AuthContext.logout (AuthContext.mk sample_user (JStr "acme") true)
              (initial signed_in)) as [[a' st1] e1] eqn:Hl.
  destruct (logout_only_forgets_credentials no_parse _ _ _ _ _ Hl)
    as (H1 & _ & H2 & _).
  simpl. split; [exact H1|]. by rewrite H2.
Defined.

Lemma login_stores_tenant (userData : JsValue) (slug : string)
      (a a' : AuthContext.t) (ok : bool) (st st1 : State) (evs1 : list Event) :
  AuthContext.login userData a st = ((a', ok), st1, evs1) →
  js_get userData "tenantSlug" = JStr slug → slug ≠ "" →
  localStorage st1 !! "nepali_app_client" = Some slug
  ∧ AuthContext.tenantSlug a' = JStr slug
  ∧ ok = true.
Proof.
  intros Hl Hslug Hne. apply String.eqb_neq in Hne.
  destruct st as [toks canc nxt flag ls cm infl].
  unfold AuthContext.login in Hl. unfold_ops.
  destruct userData; simpl in Hslug; try discriminate;
    simpl in Hl; rewrite ?Hslug in Hl; simpl in Hl; rewrite ?Hne in Hl;
    simpl in Hl; simplify_eq; simpl; by rewrite lookup_insert_eq.
Qed.

(** X27: a login survives a reload.  After [login(userData)] with a user
    object, the mount effect of a fresh provider finds the record, ends
    authenticated with the same user, removes nothing and logs nothing,
    provided [JSON.parse] reads back what [JSON.stringify] wrote; and when the
    user carries a non-empty tenant identifier, both the provider that logged
    in and the fresh one hold it. *)
Theorem login_then_mount_round_trip JSON_parse dflt props a a1 ok st st1 evs1
        a2 st2 evs2 :
  JSON_parse (template_of (JSON_stringify (JObj props))) = Some (JObj props) →
  AuthContext.login (JObj props) a st = ((a1, ok), st1, evs1) →
  AuthContext.mount JSON_parse dflt AuthContext.initialState st1 = (a2, st2, evs2) →
  AuthContext.user a2 = JObj props
  ∧ AuthContext.isAuthenticated a2 = true
  ∧ st2 = st1 ∧ evs2 = []
  ∧ ∀ slug, js_get (JObj props) "tenantSlug" = JStr slug → slug ≠ "" →
            AuthContext.tenantSlug a1 = JStr slug
            ∧ AuthContext.tenantSlug a2 = JStr slug.
Proof.
  intros Hparse Hl Hm.
  destruct (login_stores_record _ _ _ _ _ _ _ Hl) as (Hrec & _).
  pose proof (stringify_object_nonempty props) as Hne.
  apply String.eqb_neq in Hne.
  assert (Htenant : ∀ slug, js_get (JObj props) "tenantSlug" = JStr slug → slug ≠ "" →
                            localStorage st1 !! "nepali_app_client" = Some slug
                            ∧ AuthContext.tenantSlug a1 = JStr slug).
  { intros slug H1 H2.
    destruct (login_stores_tenant _ _ _ _ _ _ _ _ Hl H1 H2) as (? & ? & _). done. }
  clear Hl. destruct st1 as [toks canc nxt flag ls cm infl].
  set (record := template_of (JSON_stringify (JObj props))) in *.
  clearbody record. simpl in Hrec, Htenant.
  unfold AuthContext.mount, AuthContext.initialState in Hm. unfold_ops.
  simpl in Hm. rewrite Hrec in Hm. simpl in Hm. rewrite Hne, Hparse in Hm.
  simpl in Hm.
  assert (Hres : AuthContext.user a2 = JObj props
                 ∧ AuthContext.isAuthenticated a2 = true
                 ∧ st2 = mkState toks canc nxt flag ls cm infl ∧ evs2 = []
                 ∧ AuthContext.tenantSlug a2
                   = match ls !! "nepali_app_client" with
                     | Some s => if String.eqb s "" then JNull else JStr s
                     | None =>
                         match dflt with
                         | Some s => if String.eqb s "" then JNull else JStr s
                         | None => JNull
                         end
                     end).
  { repeat (case_match; simpl in * ); simplify_eq; simpl;
      first [congruence | by split_and!]. }
  destruct Hres as (Hu & Ha & -> & -> & Ht).
  split_and!; try done.
  intros slug H1 H2. destruct (Htenant slug H1 H2) as [Hls Ht1].
  split; [done|]. rewrite Ht, Hls.
  apply String.eqb_neq in H2. by rewrite H2.
Qed.

Lemma login_then_mount_round_trip_witness :
  AuthContext.user
    (AuthContext.mount sample_parse None AuthContext.initialState
       (AuthContext.login sample_user AuthContext.initialState (initial ∅)).1.2).1.1
  = sample_user.
Proof.
  destruct (AuthContext.login sample_user AuthContext.initialState (initial ∅))
    as [[[a1 ok] st1] e1] eqn:Hl.
  simpl.
  destruct (AuthContext.mount sample_parse None AuthContext.initialState st1)
    as [[a2 st2] e2] eqn:Hm.
  simpl.
  apply (login_then_mount_round_trip sample_parse None
           [("id", JNum 7); ("token", JStr "abc123"); ("tokenType", JStr "Bearer")]
           AuthContext.initialState a1 ok (initial ∅) st1 e1 a2 st2 e2
           eq_refl Hl Hm).
Defined.

Lemma mount_tenantSlug JSON_parse dflt st a' st1 evs1 :
  AuthContext.mount JSON_parse dflt AuthContext.initialState st = (a', st1, evs1) →
  AuthContext.tenantSlug a'
  = match localStorage st !! "nepali_app_client" with
    | Some s => if String.eqb s "" then JNull else JStr s
    | None =>
        match dflt with
        | Some s => if String.eqb s "" then JNull else JStr s
        | None => JNull
        end
    end.
Proof.
  intros Hm. destruct st as [toks canc nxt flag ls cm infl].
  unfold AuthContext.mount, AuthContext.initialState in Hm. unfold_ops.
  simpl in *.
  repeat (case_match; simpl in * ); simplify_eq; simpl; congruence.
Qed.

(** X30: [setTenantSlug(slug)] of the provider, with a non-empty [slug],
    is what decides where an expired session is sent: it logs nothing, touches
    nothing but the stored tenant identifier, and from then on a teardown
    redirects to [/<slug>/login], leaves the identifier in the storage, and a
    provider mounted afterwards starts with that tenant whatever the
    configured default is. *)
Theorem tenant_slug_sets_redirect_target JSON_parse slug a a' st st1 evs1
        c call e now st2 evs2 :
  slug ≠ "" →
  AuthContext.updateTenantSlug slug a st = (a', st1, evs1) →
  inflight st1 !! c = Some call →
  isRedirecting st1 = false →
  status_of e = Some 401 →
  step JSON_parse (Settle c (Rejected e) now) st1 = Some (st2, evs2) →
  a' = AuthContext.mk (AuthContext.user a) (JStr slug) (AuthContext.isAuthenticated a)
  ∧ evs1 = []
  ∧ st1 = set_localStorage (insert "nepali_app_client" slug) st
  ∧ SetTimeout 100 ("/" +:+ slug +:+ "/login") ∈ evs2
  ∧ localStorage st2 !! "nepali_app_client" = Some slug
  ∧ ∀ dflt a2 st3 evs3,
      AuthContext.mount JSON_parse dflt AuthContext.initialState st2
      = (a2, st3, evs3) →
      AuthContext.tenantSlug a2 = JStr slug.
Proof.
  intros Hne Hu Hc Hflag H401 Hs.
  unfold AuthContext.updateTenantSlug in Hu. unfold_ops. simpl in Hu.
  simplify_eq.
  destruct st as [toks canc nxt flag ls cm infl]. simpl in *. subst flag.
  assert (Hslug : String.eqb slug "" = false) by (by apply String.eqb_neq).
  assert (Hst2 : localStorage st2 !! "nepali_app_client" = Some slug
                 ∧ SetTimeout 100 ("/" +:+ slug +:+ "/login") ∈ evs2).
  { unfold step in Hs. rewrite Hc in Hs.
    destruct e as [msg|ax|msg]; try discriminate.
    unfold_ops. rewrite H401 in Hs.
    rewrite bool_decide_eq_true_2 in Hs by done. simpl in Hs.
    rewrite lookup_delete_ne, lookup_insert_eq in Hs by done.
    unfold login_href in Hs. rewrite Hslug in Hs.
    destruct (supplied (call_callbacks call) onError),
             (supplied (call_callbacks call) onFinally);
      simpl in Hs; simplify_eq; simpl;
      (split; [by rewrite lookup_delete_ne, lookup_insert_eq|]);
      repeat first [apply list_elem_of_here | apply list_elem_of_further]. }
  destruct Hst2 as [Hls Hin]. split_and!; try done.
  intros dflt a2 st3 evs3 Hm.
  rewrite (mount_tenantSlug _ _ _ _ _ _ Hm), Hls. by rewrite Hslug.
Qed.

Lemma tenant_slug_sets_redirect_target_witness :
  match run no_parse [Issue GET "/tasks" JUndefined None None 1000]
          (AuthContext.updateTenantSlug "acme" AuthContext.initialState
             (initial ∅)).1.2 with
  | Some (st, _) =>
      match step no_parse (Settle 0 (Rejected token_expired) 1050) st with
      | Some (_, evs) => SetTimeout 100 "/acme/login" ∈ evs
      | None => False
      end
  | None => False
  end.
Proof.
  destruct (run no_parse [Issue GET "/tasks" JUndefined None None 1000]
              (AuthContext.updateTenantSlug "acme" AuthContext.initialState
                 (initial ∅)).1.2) as [[st evs]|] eqn:Hrun;
    [|by vm_compute in Hrun].
  vm_compute in Hrun. injection Hrun as <- <-.
  match goal with
  | |- match ?s with _ => _ end =>
      destruct s as [[st2 e2]|] eqn:Hstep; [|by vm_compute in Hstep]
  end.
  destruct (fun H1 H2 H3 H4 H5 =>
              tenant_slug_sets_redirect_target no_parse "acme"
                AuthContext.initialState
                (AuthContext.mk JNull (JStr "acme") false)
                (set_inflight
                   (insert 0%nat (mkCall GET "/tasks" None None "get:/tasks:1000"))
                   (set_cancelTokens (insert "get:/tasks:1000" 0%nat)
                      (set_nextSource 1 (initial ∅))))
                _ []
                0%nat (mkCall GET "/tasks" None None "get:/tasks:1000")
                token_expired 1050 st2 e2 H1 H2 H3 H4 H5 Hstep)
    as (_ & _ & _ & H & _); try reflexivity; try done.
Defined.

(** ** The Redux store and the dispatcher's callbacks *)

Lemma plain_key_assign {A} (k : string) (v : A) (record : gmap string A) :
  plain_key k → ApiSlice.assign k v record = <[k:=v]> record.
Proof.
  intros Hk. unfold ApiSlice.assign.
  destruct (String.eqb k "__proto__") eqn:He; [|done].
  apply String.eqb_eq in He as ->. exfalso. apply Hk.
  unfold Object_prototype_names. set_solver.
Qed.

Lemma plain_key_read {A} (inj : A → JsValue) (record : gmap string A) (k : string) :
  plain_key k →
  ApiSlice.read inj record k = Some (default JUndefined (inj <$> record !! k)).
Proof.
  intros Hk. unfold ApiSlice.read. destruct (record !! k); [done|]. simpl.
  by rewrite bool_decide_eq_false_2.
Qed.

Lemma js_or_bool (b : bool) : js_or (JBool b) (JBool false) = JBool b.
Proof. by destruct b. Qed.

(** The selectors on a store whose last writes under [k] are known. *)
Lemma selectors_after (k : string) (l : gmap string bool)
      (e d : gmap string JsValue) :
  plain_key k →
  ReduxApi.isLoading k (ApiSlice.mk l e d)
  = Some (JBool (default false (l !! k)))
  ∧ ReduxApi.getError k (ApiSlice.mk l e d)
    = Some (js_or (default JUndefined (e !! k)) JNull)
  ∧ ReduxApi.getData k (ApiSlice.mk l e d)
    = Some (js_or (default JUndefined (d !! k)) JNull).
Proof.
  intros Hk. unfold ReduxApi.isLoading, ReduxApi.getError, ReduxApi.getData.
  rewrite !plain_key_read by done. simpl. split_and!; try done.
  - destruct (l !! k) as [[]|]; done.
  - by destruct (e !! k).
  - by destruct (d !! k).
Qed.

(** The part of the log that belongs to a call made with all three
    callbacks. *)
Lemma call_log_shape JSON_parse m url body config now rest st st' evs :
  inflight_below st →
  run JSON_parse
      (Issue m url body config ReduxApi.createApiCallbacks now :: rest) st
  = Some (st', evs) →
  (∃ hdrs, events_of (nextSource st) evs
           = [Transport (nextSource st) m url (body_of m body) hdrs])
  ∨ (∃ hdrs o,
        events_of (nextSource st) evs
        = Transport (nextSource st) m url (body_of m body) hdrs
          :: settle_trace (nextSource st) ReduxApi.createApiCallbacks o)
  ∨ (∃ d, events_of (nextSource st) evs
          = settle_trace (nextSource st) ReduxApi.createApiCallbacks (Resolved d)).
Proof.
  intros Hb Hrun.
  destruct (run_call _ _ _ _ _ _ _ _ _ _ _ Hb Hrun)
    as [(hdrs & H & _)|[(hdrs & o & now' & _ & _ & H)|(d & H & _)]].
  - left. by exists hdrs.
  - right. left. by exists hdrs, o.
  - right. right. by exists d.
Qed.

(** X28: a call made with [createApiCallbacks(key)] after [startLoading(key)],
    as the store sees it once the call's callbacks have run.  If the call
    returned (from the transport or from the cache) the key is no longer
    loading, its error is [null] and its data is the response, read back as
    [null] when the response is falsy; if it threw the normalized error the
    key is no longer loading, its error is the message and its data is what it
    was; if it was cancelled the key is no longer loading and error and data
    are what they were; and as long as the call has not completed the key is
    still loading. *)
Theorem redux_store_follows_the_call JSON_parse k m url body config now rest
        st st' evs s :
  plain_key k →
  inflight_below st →
  run JSON_parse
      (Issue m url body config ReduxApi.createApiCallbacks now :: rest) st
  = Some (st', evs) →
  let c := nextSource st in
  let s' := ReduxApi.after_call k c evs (ReduxApi.startLoading k s) in
  (∀ d, Completed c (Returns d) ∈ evs →
        ReduxApi.isLoading k s' = Some (JBool false)
        ∧ ReduxApi.getError k s' = Some JNull
        ∧ ReduxApi.getData k s' = Some (js_or d JNull))
  ∧ (∀ e, Completed c (ThrowsApiError e) ∈ evs →
          ReduxApi.isLoading k s' = Some (JBool false)
          ∧ ReduxApi.getError k s' = Some (js_or (ApiError.message e) JNull)
          ∧ ReduxApi.getData k s' = ReduxApi.getData k s)
  ∧ (∀ msg, Completed c (ThrowsCancel msg) ∈ evs →
            ReduxApi.isLoading k s' = Some (JBool false)
            ∧ ReduxApi.getError k s' = ReduxApi.getError k s
            ∧ ReduxApi.getData k s' = ReduxApi.getData k s)
  ∧ ((∀ r, Completed c r ∉ evs) →
     ReduxApi.isLoading k s' = Some (JBool true)
     ∧ ReduxApi.getError k s' = ReduxApi.getError k s
     ∧ ReduxApi.getData k s' = ReduxApi.getData k s).
Proof.
  intros Hk Hb Hrun c s'.
  assert (Hcompleted : ∀ r, Completed c r ∈ evs ↔ Completed c r ∈ events_of c evs).
  { intros r. split; [|apply events_of_elem_of].
    apply elem_of_events_of. simpl. apply Nat.eqb_refl. }
  destruct s as [l e d].
  assert (Hstore : ∀ o,
    (∃ pre, events_of c evs
              = pre ++ settle_trace c ReduxApi.createApiCallbacks o
            ∧ ∀ x, x ∈ pre → ∃ hdrs m' url' body', x = Transport c m' url' body' hdrs) →
    s' = match o with
         | Resolved v => ApiSlice.mk (<[k:=false]> (<[k:=true]> l))
                                     (<[k:=JNull]> e) (<[k:=v]> d)
         | Rejected (Cancel _) => ApiSlice.mk (<[k:=false]> (<[k:=true]> l)) e d
         | Rejected err =>
             ApiSlice.mk (<[k:=false]> (<[k:=true]> l))
                         (<[k:=ApiError.message (handleError err)]> e) d
         end
    ∧ ∀ r, Completed c r ∈ evs →
           r = match o with
               | Resolved v => Returns v
               | Rejected (Cancel msg) => ThrowsCancel msg
               | Rejected err => ThrowsApiError (handleError err)
               end).
  { intros o (pre & Hlog & Hpre). split.
    - unfold s', ReduxApi.after_call. rewrite Hlog, fold_left_app.
      assert (Hskip : ∀ s0, fold_left (ReduxApi.deliver k) pre s0 = s0).
      { clear Hlog. induction pre as [|x pre IH]; intros s0; [done|]. simpl.
        destruct (Hpre x ltac:(apply list_elem_of_here)) as (? & ? & ? & ? & ->).
        simpl. apply IH. intros y Hy. apply Hpre. by apply list_elem_of_further. }
      rewrite Hskip.
      unfold ReduxApi.startLoading, ReduxApi.deliver, ReduxApi.onSuccess,
        ReduxApi.onError, ReduxApi.onFinally, ApiSlice.setLoading,
        ApiSlice.setError, ApiSlice.setData.
      destruct o as [v|[msg|ax|msg]]; simpl; by rewrite !plain_key_assign.
    - intros r Hr. apply Hcompleted in Hr. rewrite Hlog in Hr.
      apply elem_of_app in Hr as [Hr|Hr].
      + destruct (Hpre _ Hr) as (? & ? & ? & ? & ?). discriminate.
      + destruct o as [v|[msg|ax|msg]]; simpl in Hr;
          repeat (apply elem_of_cons in Hr as [Hr|Hr]; [by simplify_eq|]);
          by apply elem_of_nil in Hr. }
  destruct (call_log_shape _ _ _ _ _ _ _ _ _ _ Hb Hrun)
    as [(hdrs & Hlog)|[(hdrs & o & Hlog)|(v & Hlog)]].
  - (* not completed *)
    assert (Hnone : ∀ r, Completed c r ∉ evs).
    { intros r Hr. apply Hcompleted in Hr. fold c in Hlog. rewrite Hlog in Hr.
      apply list_elem_of_singleton in Hr. discriminate. }
    assert (Hs' : s' = ApiSlice.mk (<[k:=true]> l) e d).
    { unfold s', ReduxApi.after_call. fold c in Hlog. rewrite Hlog. simpl.
      unfold ReduxApi.startLoading, ApiSlice.setLoading. simpl.
      by rewrite plain_key_assign. }
    split_and!; try (intros ? Hr; by apply Hnone in Hr).
    intros _. rewrite Hs'.
    destruct (selectors_after k (<[k:=true]> l) e d Hk) as (-> & -> & ->).
    destruct (selectors_after k l e d Hk) as (_ & -> & ->).
    by rewrite lookup_insert_eq.
  - destruct (Hstore o) as [Hs' Hr].
    { exists [Transport c m url (body_of m body) hdrs]. split; [exact Hlog|].
      intros x ->%list_elem_of_singleton. by repeat eexists. }
    rewrite Hs'. clear Hs'.
    destruct (selectors_after k l e d Hk) as (_ & Hge & Hgd).
    split_and!.
    + intros v Hv. apply Hr in Hv.
      destruct o as [v'|[msg|ax|msg]]; try discriminate. simplify_eq.
      destruct (selectors_after k (<[k:=false]> (<[k:=true]> l))
                  (<[k:=JNull]> e) (<[k:=v']> d) Hk) as (-> & -> & ->).
      by rewrite !lookup_insert_eq.
    + intros err Herr. apply Hr in Herr.
      destruct o as [v'|[msg|ax|msg]]; try discriminate; simplify_eq.
      * destruct (selectors_after k (<[k:=false]> (<[k:=true]> l))
                    (<[k:=ApiError.message (handleError (AxiosErr ax))]> e) d Hk)
          as (-> & -> & ->).
        rewrite Hgd. by rewrite !lookup_insert_eq.
      * destruct (selectors_after k (<[k:=false]> (<[k:=true]> l))
                    (<[k:=ApiError.message (handleError (OtherErr msg))]> e) d Hk)
          as (-> & -> & ->).
        rewrite Hgd. by rewrite !lookup_insert_eq.
    + intros msg Hmsg. apply Hr in Hmsg.
      destruct o as [v'|[msg'|ax|msg']]; try discriminate. simplify_eq.
      destruct (selectors_after k (<[k:=false]> (<[k:=true]> l)) e d Hk)
        as (-> & -> & ->).
      rewrite Hge, Hgd. by rewrite !lookup_insert_eq.
    + intros Hnone. exfalso.
      destruct o as [v'|[msg|ax|msg]].
      all: eapply Hnone; apply Hcompleted; fold c in Hlog; rewrite Hlog.
      all: simpl; repeat first [apply list_elem_of_here | apply list_elem_of_further].
  - destruct (Hstore (Resolved v)) as [Hs' Hr].
    { exists []. split; [exact Hlog|]. intros x Hx. by apply elem_of_nil in Hx. }
    rewrite Hs'. clear Hs'.
    split_and!.
    + intros v' Hv. apply Hr in Hv. simplify_eq.
      destruct (selectors_after k (<[k:=false]> (<[k:=true]> l))
                  (<[k:=JNull]> e) (<[k:=v]> d) Hk) as (-> & -> & ->).
      by rewrite !lookup_insert_eq.
    + intros err Herr. apply Hr in Herr. discriminate.
    + intros msg Hmsg. apply Hr in Hmsg. discriminate.
    + intros Hnone. exfalso. eapply Hnone. apply Hcompleted.
      fold c in Hlog. rewrite Hlog. simpl.
      repeat first [apply list_elem_of_here | apply list_elem_of_further].
Qed.

Lemma plain_key_tasks : plain_key "tasks".
Proof.
  unfold plain_key, Object_prototype_names.
  rewrite !not_elem_of_cons. split_and!; try discriminate. apply not_elem_of_nil.
Qed.

Lemma redux_store_follows_the_call_witness :
  match run no_parse failed_write (initial ∅) with
  | Some (_, evs) =>
      ReduxApi.isLoading "tasks"
        (ReduxApi.after_call "tasks" 0 evs
           (ReduxApi.startLoading "tasks" ApiSlice.initialState))
      = Some (JBool false)
      ∧ ReduxApi.getError "tasks"
          (ReduxApi.after_call "tasks" 0 evs
             (ReduxApi.startLoading "tasks" ApiSlice.initialState))
        = Some (JStr "token expired")
  | None => False
  end.
Proof.
  destruct (run no_parse failed_write (initial ∅)) as [[st' evs]|] eqn:Hrun;
    [|by vm_compute in Hrun].
  pose proof (redux_store_follows_the_call no_parse "tasks" _ _ _ _ _ _ _ _ _
                ApiSlice.initialState plain_key_tasks (initial_inflight_below ∅)
                Hrun) as (_ & H & _).
  vm_compute in Hrun. injection Hrun as <- <-.
  edestruct H as (H1 & H2 & _);
    [ simpl; repeat first [apply list_elem_of_here | apply list_elem_of_further]
    | split; [exact H1 | exact H2] ].
Defined.

Lemma assign_lookup_ne {A} (k k' : string) (v : A) (record : gmap string A) :
  k' ≠ k → ApiSlice.assign k v record !! k' = record !! k'.
Proof.
  intros Hne. unfold ApiSlice.assign. destruct (String.eqb k "__proto__"); [done|].
  by rewrite lookup_insert_ne.
Qed.

Lemma deliver_other_key (k k' : string) (s : ApiSlice.t) (e : Event) :
  k' ≠ k →
  ApiSlice.loading (ReduxApi.deliver k s e) !! k' = ApiSlice.loading s !! k'
  ∧ ApiSlice.errors (ReduxApi.deliver k s e) !! k' = ApiSlice.errors s !! k'
  ∧ ApiSlice.data (ReduxApi.deliver k s e) !! k' = ApiSlice.data s !! k'.
Proof.
  intros Hne. destruct e; simpl; rewrite ?assign_lookup_ne by done; done.
Qed.

Lemma selectors_lookup (k : string) (s1 s2 : ApiSlice.t) :
  ApiSlice.loading s1 !! k = ApiSlice.loading s2 !! k →
  ApiSlice.errors s1 !! k = ApiSlice.errors s2 !! k →
  ApiSlice.data s1 !! k = ApiSlice.data s2 !! k →
  ReduxApi.isLoading k s1 = ReduxApi.isLoading k s2
  ∧ ReduxApi.getError k s1 = ReduxApi.getError k s2
  ∧ ReduxApi.getData k s1 = ReduxApi.getData k s2.
Proof.
  intros H1 H2 H3.
  unfold ReduxApi.isLoading, ReduxApi.getError, ReduxApi.getData, ApiSlice.read.
  by rewrite H1, H2, H3.
Qed.

(** X29: the slice keeps keys apart and forgets on request.  Whatever the
    callbacks made for one key do, the three selectors return for any other
    key what they returned before; [clearApiState(key)] puts the selectors of
    a plain key back to [false], [null] and [null] and leaves every other key
    alone; after [resetApiState] that holds for every plain key. *)
Theorem redux_keys_are_independent (k k' : string) (c : nat) (evs : list Event)
        (s : ApiSlice.t) :
  k' ≠ k →
  plain_key k →
  (ReduxApi.isLoading k' (ReduxApi.after_call k c evs s) = ReduxApi.isLoading k' s
   ∧ ReduxApi.getError k' (ReduxApi.after_call k c evs s) = ReduxApi.getError k' s
   ∧ ReduxApi.getData k' (ReduxApi.after_call k c evs s) = ReduxApi.getData k' s)
  ∧ (ReduxApi.isLoading k (ApiSlice.clearApiState k s) = Some (JBool false)
     ∧ ReduxApi.getError k (ApiSlice.clearApiState k s) = Some JNull
     ∧ ReduxApi.getData k (ApiSlice.clearApiState k s) = Some JNull)
  ∧ (ReduxApi.isLoading k' (ApiSlice.clearApiState k s) = ReduxApi.isLoading k' s
     ∧ ReduxApi.getError k' (ApiSlice.clearApiState k s) = ReduxApi.getError k' s
     ∧ ReduxApi.getData k' (ApiSlice.clearApiState k s) = ReduxApi.getData k' s)
  ∧ (ReduxApi.isLoading k (ApiSlice.resetApiState s) = Some (JBool false)
     ∧ ReduxApi.getError k (ApiSlice.resetApiState s) = Some JNull
     ∧ ReduxApi.getData k (ApiSlice.resetApiState s) = Some JNull).
Proof.
  intros Hne Hk. split_and!.
  1-3: apply selectors_lookup; unfold ReduxApi.after_call;
    generalize (events_of c evs); intros l; revert s;
    (induction l as [|e l IH]; intros s; [done|]); simpl; rewrite IH;
    by apply deliver_other_key.
  1-3: destruct s as [l e d]; unfold ApiSlice.clearApiState; simpl;
    destruct (selectors_after k (delete k l) (delete k e) (delete k d) Hk)
      as (H1 & H2 & H3); rewrite ?H1, ?H2, ?H3; by rewrite lookup_delete_eq.
  1-3: apply selectors_lookup; destruct s as [l e d]; simpl;
    by rewrite lookup_delete_ne.
  1-3: destruct (selectors_after k ∅ ∅ ∅ Hk) as (H1 & H2 & H3);
    unfold ApiSlice.resetApiState; rewrite ?H1, ?H2, ?H3; by rewrite lookup_empty.
Qed.

Lemma redux_keys_are_independent_witness :
  ReduxApi.getData "users"
    (ReduxApi.after_call "tasks" 0 [CallOnSuccess 0 (JNum 1)]
       (ApiSlice.setData "users" (JNum 2) ApiSlice.initialState))
  = Some (JNum 2)
  ∧ ReduxApi.getData "tasks"
      (ApiSlice.clearApiState "tasks"
         (ApiSlice.setData "tasks" (JNum 1) ApiSlice.initialState))
    = Some JNull.
Proof.
  destruct (redux_keys_are_independent "tasks" "users" 0 [CallOnSuccess 0 (JNum 1)]
              (ApiSlice.setData "users" (JNum 2) ApiSlice.initialState)
              ltac:(discriminate) plain_key_tasks) as ((_ & _ & H1) & _).
  destruct (redux_keys_are_independent "tasks" "users" 0 []
              (ApiSlice.setData "tasks" (JNum 1) ApiSlice.initialState)
              ltac:(discriminate) plain_key_tasks) as (_ & (_ & _ & H2) & _).
  split; [by rewrite H1 | exact H2].
Defined.
